(** * OctoCal: the extraction-and-resolution pipeline, embedded in Rocq

    The development follows the layout of the repository:
    - [Py]              the fragment of the Python runtime the sources rely on
                        (exceptions, [str] methods, [re], [datetime]);
    - [session_parser]  src/session_parser.py;
    - [notifier]        src/notifier.py;
    - [octopus_scraper] src/octopus_scraper.py;
    - [ical_generator]  src/ical_generator.py;
    - [main]            src/main.py ([SessionTracker], [update_ical]);
    - [spec]            the time-token rules in the specification's words;
    - [samples]         the clocks, sessions and files of the examples.
    The modules [PyFacts], [ParserFacts], [NotifierFacts], [ScraperFacts],
    [CalendarFacts] and [TrackerFacts] hold the proofs.

    Strings are Rocq strings restricted to the 8-bit range; integers are [Z];
    Python sets of descriptors are [gset string]; the file system is a finite
    map from paths to contents. *)

From Stdlib Require Import ZArith Ascii String List Lia Bool.
From stdpp Require Import base gmap sets list strings.

Local Open Scope Z_scope.
Set Warnings "-register-all".

(* ===================================================================== *)
(** * The Python runtime fragment                                         *)
(* ===================================================================== *)

Module Py.

(** ** Exceptions and the clock *)

(** The exception classes that the modelled code can raise. *)
Inductive exn : Type :=
| IndexError
| ValueError
| OverflowError
| TypeError
| AttributeError
| OSError.

(** Outcome of evaluating a Python expression. *)
Inductive outcome (A : Type) : Type :=
| Ret (a : A)
| Raise (e : exn).
Arguments Ret {A} a.
Arguments Raise {A} e.

Definition obind {A B} (o : outcome A) (f : A -> outcome B) : outcome B :=
  match o with
  | Ret a => f a
  | Raise e => Raise e
  end.

(** Code that reads the wall clock is run against a [Clock]: the instant
    that the [n]-th call of [datetime.now()] returns.  A computation takes
    the number of calls made so far and returns it updated. *)
Definition M (A : Type) : Type := nat -> outcome A * nat.

Definition ret {A} (a : A) : M A := fun t => (Ret a, t).
Definition raise {A} (e : exn) : M A := fun t => (Raise e, t).
Definition lift {A} (o : outcome A) : M A := fun t => (o, t).

Definition bind {A B} (c : M A) (f : A -> M B) : M B :=
  fun t =>
    match c t with
    | (Ret a, t') => f a t'
    | (Raise e, t') => (Raise e, t')
    end.

(** [try: c  except ValueError: h] *)
Definition try_ValueError {A} (c : M A) (h : M A) : M A :=
  fun t =>
    match c t with
    | (Raise ValueError, t') => h t'
    | r => r
    end.

(** ** Characters and [str] methods *)

Definition code (c : ascii) : nat := nat_of_ascii c.

Definition in_range (lo hi : nat) (c : ascii) : bool :=
  (Nat.leb lo (code c)) && (Nat.leb (code c) hi).

Definition is_digit (c : ascii) : bool := in_range 48 57 c.
Definition is_upper (c : ascii) : bool := in_range 65 90 c.
Definition is_lower (c : ascii) : bool := in_range 97 122 c.

(** A character of a string is a code point from U+0000 to U+00FF.
    [\w] on such a character: the ASCII letters, digits and the underscore,
    and the letters and numeric characters of Latin-1 (feminine and
    masculine ordinal, micro sign, superscript 1 2 3, the three vulgar
    fractions, and the letters from U+00C0 on other than the
    multiplication and the division sign). *)
Definition is_word (c : ascii) : bool :=
  is_digit c || is_upper c || is_lower c || Nat.eqb (code c) 95
  || Nat.eqb (code c) 170 || in_range 178 179 c || Nat.eqb (code c) 181
  || in_range 185 186 c || in_range 188 190 c
  || in_range 192 214 c || in_range 216 246 c || in_range 248 255 c.

(** [str.isspace], [\s] and the characters that [str.strip] removes: TAB,
    LF, VT, FF, CR, FS, GS, RS, US, the space, NEL (U+0085) and the
    no-break space (U+00A0). *)
Definition is_space (c : ascii) : bool :=
  in_range 9 13 c || in_range 28 32 c
  || Nat.eqb (code c) 133 || Nat.eqb (code c) 160.

(** [str.lower] on one character: the capital letters of ASCII and of
    Latin-1 (U+00C0 to U+00DE other than the multiplication sign). *)
Definition lower_char (c : ascii) : ascii :=
  if is_upper c || in_range 192 214 c || in_range 216 222 c
  then ascii_of_nat (code c + 32) else c.

(** [s.lower()] *)
Fixpoint lower (s : string) : string :=
  match s with
  | EmptyString => EmptyString
  | String c s' => String (lower_char c) (lower s')
  end.

Definition slen (s : string) : nat := String.length s.

(** [s[:n]] and [s[n:]] for [0 <= n]. *)
Fixpoint take (n : nat) (s : string) : string :=
  match n, s with
  | S n', String c s' => String c (take n' s')
  | _, _ => EmptyString
  end.

Fixpoint drop (n : nat) (s : string) : string :=
  match n, s with
  | S n', String _ s' => drop n' s'
  | _, _ => s
  end.

(** [s1] is what remains of [s] after some prefix. *)
Definition tail_of (s1 s : string) : Prop := exists pre, s = pre +:+ s1.

(** [s.count(c)] for a character [c]. *)
Fixpoint count_char (c : ascii) (s : string) : nat :=
  match s with
  | EmptyString => O
  | String x s' => (if Ascii.eqb x c then 1 else 0) + count_char c s'
  end.

(** [s.startswith(p)] *)
Fixpoint starts_with (p s : string) : bool :=
  match p, s with
  | EmptyString, _ => true
  | String a p', String b s' => Ascii.eqb a b && starts_with p' s'
  | String _ _, EmptyString => false
  end.

Fixpoint lstrip (s : string) : string :=
  match s with
  | String c s' => if is_space c then lstrip s' else s
  | EmptyString => EmptyString
  end.

(** [s.strip()] *)
Definition strip (s : string) : string :=
  String.rev (lstrip (String.rev (lstrip s))).

(** [s.split(sep)] for a one-character separator: the result always has
    one more element than there are separators in [s]. *)
Fixpoint split_go (sep : ascii) (cur : string) (s : string) : list string :=
  match s with
  | EmptyString => [String.rev cur]
  | String c s' =>
      if Ascii.eqb c sep then String.rev cur :: split_go sep EmptyString s'
      else split_go sep (String c cur) s'
  end.

Definition split (sep : ascii) (s : string) : list string :=
  split_go sep EmptyString s.

(** [int(s)] on a string of ASCII digits. *)
Definition digit_val (c : ascii) : Z := Z.of_nat (code c) - 48.

Fixpoint int_go (acc : Z) (s : string) : Z :=
  match s with
  | EmptyString => acc
  | String c s' => int_go (10 * acc + digit_val c) s'
  end.

Definition int (s : string) : Z := int_go 0 s.

(** [str(n)] for [0 <= n]; [fuel] bounds the number of digits. *)
Fixpoint str_go (fuel : nat) (n : Z) (acc : string) : string :=
  match fuel with
  | O => acc
  | S fuel' =>
      let acc' := String (ascii_of_nat (Z.to_nat (48 + n mod 10))) acc in
      if n <? 10 then acc' else str_go fuel' (n / 10) acc'
  end.

Definition str (n : Z) : string :=
  if n <? 0 then String "-" (str_go (S (Z.to_nat (Z.log2 (- n)))) (- n) EmptyString)
  else str_go (S (Z.to_nat (Z.log2 n))) n EmptyString.

(** [f] holds on the [2^k] integers from [lo] on. *)
Fixpoint all_range (f : Z -> bool) (k : nat) (lo : Z) : bool :=
  match k with
  | O => f lo
  | S k' => all_range f k' lo && all_range f k' (lo + 2 ^ Z.of_nat k')
  end.

(** A year of four digits is written with four characters and read back
    as itself. *)
Definition four_digit_ok (y : Z) : bool :=
  (y <? 1000) || (9999 <? y)
  || (Nat.eqb (slen (str y)) 4 && (int (str y) =? y)).


(** [l[i]] for [0 <= i]. *)
Definition index {A} (l : list A) (i : nat) : outcome A :=
  match nth_error l i with
  | Some x => Ret x
  | None => Raise IndexError
  end.

(** ** Regular expressions ([re]) *)

(** The constructs that the sources use.  Matching is by backtracking, in
    the order Python tries the alternatives: the left branch of [Alt] first,
    as many iterations of [Star] as possible first. *)
Inductive regex : Type :=
| Eps
| Cls (p : ascii -> bool)
| Seq (r1 r2 : regex)
| Alt (r1 r2 : regex)
| Star (r : regex)
| Grp (i : nat) (r : regex).

Definition Plus (r : regex) : regex := Seq r (Star r).
Definition Opt (r : regex) : regex := Alt r Eps.
Definition Chr (c : ascii) : regex := Cls (Ascii.eqb c).
(** A character under [re.IGNORECASE]. *)
Definition ChrI (c : ascii) : regex :=
  Cls (fun x => Ascii.eqb (lower_char x) (lower_char c)).

Fixpoint Lit (s : string) : regex :=
  match s with
  | EmptyString => Eps
  | String c s' => Seq (Chr c) (Lit s')
  end.

Fixpoint LitI (s : string) : regex :=
  match s with
  | EmptyString => Eps
  | String c s' => Seq (ChrI c) (LitI s')
  end.

(** Captured groups, most recent binding first. *)
Definition groups : Type := list (nat * string).

Fixpoint group (g : groups) (i : nat) : option string :=
  match g with
  | [] => None
  | (j, s) :: g' => if Nat.eqb i j then Some s else group g' i
  end.

(** The iterations of a starred expression, [step] matching one iteration:
    one more iteration is tried before leaving the loop, and an iteration
    must consume something.  [n] bounds the number of iterations by the
    length of the subject. *)
Fixpoint star_loop {R : Type}
    (step : string -> groups -> (string -> groups -> option R) -> option R)
    (k : string -> groups -> option R)
    (n : nat) (s : string) (g : groups) {struct n} : option R :=
  match n with
  | O => k s g
  | S n' =>
      match step s g
              (fun s1 g1 =>
                 if Nat.ltb (slen s1) (slen s) then star_loop step k n' s1 g1
                 else None) with
      | Some x => Some x
      | None => k s g
      end
  end.

(** [rmatch r s g k]: match [r] at the head of [s], then continue with [k]
    on what is left; [None] makes the matcher backtrack. *)
Fixpoint rmatch {R : Type} (r : regex) (s : string) (g : groups)
    (k : string -> groups -> option R) {struct r} : option R :=
  match r with
  | Eps => k s g
  | Cls p =>
      match s with
      | String c s' => if p c then k s' g else None
      | EmptyString => None
      end
  | Seq r1 r2 => rmatch r1 s g (fun s1 g1 => rmatch r2 s1 g1 k)
  | Alt r1 r2 =>
      match rmatch r1 s g k with
      | Some x => Some x
      | None => rmatch r2 s g k
      end
  | Star r1 => star_loop (rmatch r1) k (slen s) s g
  | Grp i r1 =>
      rmatch r1 s g
        (fun s1 g1 => k s1 ((i, take (slen s - slen s1) s) :: g1))
  end.

(** Whether [r] can match without consuming a character. *)
Fixpoint nullable (r : regex) : bool :=
  match r with
  | Eps => true
  | Cls _ => false
  | Seq r1 r2 => nullable r1 && nullable r2
  | Alt r1 r2 => nullable r1 || nullable r2
  | Star _ => true
  | Grp _ r1 => nullable r1
  end.


(** The strings that an expression matches, without regard to the order
    in which the matcher tries them. *)
Inductive matches : regex -> string -> Prop :=
| M_Eps : matches Eps EmptyString
| M_Cls p c : p c = true -> matches (Cls p) (String c EmptyString)
| M_Seq r1 r2 s1 s2 :
    matches r1 s1 -> matches r2 s2 -> matches (Seq r1 r2) (s1 +:+ s2)
| M_AltL r1 r2 s : matches r1 s -> matches (Alt r1 r2) s
| M_AltR r1 r2 s : matches r2 s -> matches (Alt r1 r2) s
| M_Star0 r : matches (Star r) EmptyString
| M_StarS r s1 s2 :
    matches r s1 -> matches (Star r) s2 -> matches (Star r) (s1 +:+ s2)
| M_Grp i r s : matches r s -> matches (Grp i r) s.

(** Whether some character class of [r] accepts [c]. *)
Fixpoint alphabet (r : regex) (c : ascii) : bool :=
  match r with
  | Eps => false
  | Cls p => p c
  | Seq r1 r2 | Alt r1 r2 => alphabet r1 c || alphabet r2 c
  | Star r1 | Grp _ r1 => alphabet r1 c
  end.

(** Every character of [s] satisfies [p]. *)
Fixpoint all_chars (p : ascii -> bool) (s : string) : bool :=
  match s with
  | EmptyString => true
  | String c s' => p c && all_chars p s'
  end.

Definition not_space (c : ascii) : bool := negb (is_space c).

(** [s] without its leading characters of class [p]. *)
Fixpoint skip (p : ascii -> bool) (s : string) : string :=
  match s with
  | String c s' => if p c then skip p s' else s
  | EmptyString => EmptyString
  end.


(** A match object: [m_start], [m_end] are offsets into the searched
    string, [m_text] is [group(0)]. *)
Record Match : Type := mkMatch {
  m_start : nat;
  m_end : nat;
  m_text : string;
  m_groups : groups
}.

(** The match of [r] at the head of [s], at offset [pos] of the subject. *)
Definition match_at (r : regex) (pos : nat) (s : string) : option Match :=
  rmatch r s []
    (fun rest g =>
       let n := (slen s - slen rest)%nat in
       Some (mkMatch pos (pos + n) (take n s) g)).

(** [re.match(r, s)] *)
Definition re_match (r : regex) (s : string) : option Match :=
  match_at r 0 s.

Fixpoint search_from (r : regex) (pos : nat) (s : string) : option Match :=
  match match_at r pos s with
  | Some m => Some m
  | None =>
      match s with
      | String _ s' => search_from r (S pos) s'
      | EmptyString => None
      end
  end.

(** [re.search(r, s)] *)
Definition re_search (r : regex) (s : string) : option Match :=
  search_from r 0 s.

(** The successive non-overlapping matches of [r] in [s], each with the
    unmatched text before it, and the unmatched text after the last one.
    [pending] counts the characters of the current match still to be
    passed; the offsets in a match are relative to where it was found.
    Every pattern that the sources search repeatedly consumes at least one
    character; a match of length zero is passed over. *)
Fixpoint scan (r : regex) (s : string) (pending : nat) (gap : string)
  : list (string * Match) * string :=
  match pending with
  | S pending' =>
      match s with
      | String _ s' => scan r s' pending' gap
      | EmptyString => ([], String.rev gap)
      end
  | O =>
      let step :=
        match s with
        | String c s' => scan r s' O (String c gap)
        | EmptyString => ([], String.rev gap)
        end in
      match match_at r 0 s with
      | Some m =>
          match m_end m, s with
          | S n, String _ s' =>
              let '(ms, tl) := scan r s' n EmptyString in
              ((String.rev gap, m) :: ms, tl)
          | _, _ => step
          end
      | None => step
      end
  end.

Definition finditer (r : regex) (s : string) : list (string * Match) * string :=
  scan r s O EmptyString.

(** [re.findall(r, s)] for a pattern without capturing groups. *)
Definition re_findall (r : regex) (s : string) : list string :=
  map (fun gm => m_text (snd gm)) (fst (finditer r s)).

(** [re.sub(r, repl, s)], the replacement computed from the match. *)
Definition re_sub (r : regex) (repl : Match -> string) (s : string) : string :=
  fold_right (fun gm acc => fst gm +:+ repl (snd gm) +:+ acc)
             (snd (finditer r s)) (fst (finditer r s)).

(** [re.sub] taken up in the middle of a scan: [re_sub r repl s] is
    [sub_scan r repl s 0 ""]. *)
Definition sub_scan (r : regex) (repl : Match -> string) (s : string)
    (pending : nat) (gap : string) : string :=
  fold_right (fun gm acc => fst gm +:+ repl (snd gm) +:+ acc)
             (snd (scan r s pending gap)) (fst (scan r s pending gap)).

(** A pattern that can only match at the character [<]. *)
Definition opens_with_lt (r : regex) : Prop :=
  forall c s pos, Ascii.eqb c "<" = false -> match_at r pos (String c s) = None.

(** [re.split(r, s)] for a pattern without capturing groups. *)
Definition re_split (r : regex) (s : string) : list string :=
  map fst (fst (finditer r s)) ++ [snd (finditer r s)].

(** ** [datetime] and [timedelta] *)

(** A naive [datetime] object, field by field. *)
Record datetime : Type := mkdt {
  year : Z;
  month : Z;
  day : Z;
  hour : Z;
  minute : Z;
  second : Z;
  microsecond : Z
}.

Definition MINYEAR : Z := 1.
Definition MAXYEAR : Z := 9999.
Definition MAXORDINAL : Z := 3652059.

Definition is_leap (y : Z) : bool :=
  (y mod 4 =? 0) && (negb (y mod 100 =? 0) || (y mod 400 =? 0)).

(** [_DAYS_IN_MONTH] and [_DAYS_BEFORE_MONTH] of a common year. *)
Definition DAYS_IN_MONTH (m : Z) : Z :=
  match m with
  | 1 => 31 | 2 => 28 | 3 => 31 | 4 => 30 | 5 => 31 | 6 => 30
  | 7 => 31 | 8 => 31 | 9 => 30 | 10 => 31 | 11 => 30 | 12 => 31
  | _ => 0
  end.

Definition DAYS_BEFORE_MONTH (m : Z) : Z :=
  match m with
  | 1 => 0 | 2 => 31 | 3 => 59 | 4 => 90 | 5 => 120 | 6 => 151
  | 7 => 181 | 8 => 212 | 9 => 243 | 10 => 273 | 11 => 304 | 12 => 334
  | _ => 0
  end.

Definition days_in_month (y m : Z) : Z :=
  if (m =? 2) && is_leap y then 29 else DAYS_IN_MONTH m.

Definition days_before_month (y m : Z) : Z :=
  DAYS_BEFORE_MONTH m + (if (2 <? m) && is_leap y then 1 else 0).

Definition days_before_year (y : Z) : Z :=
  let y1 := y - 1 in y1 * 365 + y1 / 4 - y1 / 100 + y1 / 400.

Definition ymd2ord (y m d : Z) : Z :=
  days_before_year y + days_before_month y m + d.

Definition DI400Y : Z := 146097.
Definition DI100Y : Z := 36524.
Definition DI4Y : Z := 1461.

(** [_ord2ymd]: the date of a proleptic Gregorian ordinal. *)
Definition ord2ymd (n : Z) : Z * Z * Z :=
  let n0 := n - 1 in
  let n400 := n0 / DI400Y in
  let r400 := n0 mod DI400Y in
  let n100 := r400 / DI100Y in
  let r100 := r400 mod DI100Y in
  let n4 := r100 / DI4Y in
  let r4 := r100 mod DI4Y in
  let n1 := r4 / 365 in
  let r1 := r4 mod 365 in
  let y := n400 * 400 + 1 + n100 * 100 + n4 * 4 + n1 in
  if (n1 =? 4) || (n100 =? 4) then (y - 1, 12, 31)
  else
    let leapyear := (n1 =? 3) && (negb (n4 =? 24) || (n100 =? 3)) in
    let m := Z.shiftr (r1 + 50) 5 in
    let preceding :=
      DAYS_BEFORE_MONTH m + (if (2 <? m) && leapyear then 1 else 0) in
    if r1 <? preceding then
      let m' := m - 1 in
      let preceding' :=
        preceding
        - (DAYS_IN_MONTH m' + (if (m' =? 2) && leapyear then 1 else 0)) in
      (y, m', r1 - preceding' + 1)
    else (y, m, r1 - preceding + 1).

(** The month and day that [_ord2ymd] finds for the [r1]-th day of a year. *)
Definition month_day (r1 : Z) (leapyear : bool) : Z * Z :=
  let m := Z.shiftr (r1 + 50) 5 in
  let preceding :=
    DAYS_BEFORE_MONTH m + (if (2 <? m) && leapyear then 1 else 0) in
  if r1 <? preceding then
    let m' := m - 1 in
    let preceding' :=
      preceding
      - (DAYS_IN_MONTH m' + (if (m' =? 2) && leapyear then 1 else 0)) in
    (m', r1 - preceding' + 1)
  else (m, r1 - preceding + 1).

(** The argument check of the [datetime] constructor. *)
Definition valid_date (y m d : Z) : bool :=
  (MINYEAR <=? y) && (y <=? MAXYEAR) && (1 <=? m) && (m <=? 12)
  && (1 <=? d) && (d <=? days_in_month y m).

Definition valid_time (h mi s us : Z) : bool :=
  (0 <=? h) && (h <=? 23) && (0 <=? mi) && (mi <=? 59)
  && (0 <=? s) && (s <=? 59) && (0 <=? us) && (us <=? 999999).

Definition valid (d : datetime) : bool :=
  valid_date (year d) (month d) (day d)
  && valid_time (hour d) (minute d) (second d) (microsecond d).

(** [datetime(y, m, d, h, mi, s, us)] *)
Definition new_datetime (y m d h mi s us : Z) : outcome datetime :=
  if valid_date y m d && valid_time h mi s us
  then Ret (mkdt y m d h mi s us)
  else Raise ValueError.

(** [d.replace(hour=h, minute=mi)] builds a new object and so runs the
    constructor's checks again. *)
Definition replace_hm (d : datetime) (h mi : Z) : outcome datetime :=
  new_datetime (year d) (month d) (day d) h mi (second d) (microsecond d).

(** Comparison of naive datetimes: lexicographic on the fields. *)
Definition cmp (a b : datetime) : comparison :=
  match year a ?= year b with Eq =>
  match month a ?= month b with Eq =>
  match day a ?= day b with Eq =>
  match hour a ?= hour b with Eq =>
  match minute a ?= minute b with Eq =>
  match second a ?= second b with Eq =>
    microsecond a ?= microsecond b
  | c => c end | c => c end | c => c end | c => c end | c => c end | c => c end.

Definition dt_ltb (a b : datetime) : bool :=
  match cmp a b with Lt => true | _ => false end.
Definition dt_leb (a b : datetime) : bool :=
  match cmp a b with Gt => false | _ => true end.

(** A [timedelta], as its exact length in microseconds. *)
Definition timedelta : Type := Z.

Definition US_PER_SECOND : Z := 1000000.
Definition US_PER_DAY : Z := 86400 * US_PER_SECOND.

(** The [timedelta] constructor refuses more than 999999999 days. *)
Definition new_timedelta (us : Z) : outcome timedelta :=
  if (-999999999 <=? us / US_PER_DAY) && (us / US_PER_DAY <=? 999999999)
  then Ret us else Raise OverflowError.

Definition timedelta_days (n : Z) : outcome timedelta :=
  new_timedelta (n * US_PER_DAY).
Definition timedelta_hours (n : Z) : outcome timedelta :=
  new_timedelta (n * 3600 * US_PER_SECOND).
Definition timedelta_minutes (n : Z) : outcome timedelta :=
  new_timedelta (n * 60 * US_PER_SECOND).

(** The length of [m] minutes. *)
Definition minutes_us (m : Z) : timedelta := m * 60 * US_PER_SECOND.

Definition toordinal (d : datetime) : Z := ymd2ord (year d) (month d) (day d).

(** Microseconds since the start of day 0 of the ordinal count. *)
Definition to_us (d : datetime) : Z :=
  toordinal d * US_PER_DAY
  + (hour d * 3600 + minute d * 60 + second d) * US_PER_SECOND
  + microsecond d.

(** [a - b] on two datetimes. *)
Definition dt_sub (a b : datetime) : timedelta := to_us a - to_us b.

(** [d + td]: [OverflowError] when the day leaves [1 .. MAXORDINAL]. *)
Definition dt_add_td (d : datetime) (td : timedelta) : outcome datetime :=
  let t := to_us d + td in
  let days := t / US_PER_DAY in
  let rest := t mod US_PER_DAY in
  let secs := rest / US_PER_SECOND in
  if (0 <? days) && (days <=? MAXORDINAL) then
    let '(y, m, dd) := ord2ymd days in
    Ret (mkdt y m dd (secs / 3600) ((secs mod 3600) / 60) (secs mod 60)
              (rest mod US_PER_SECOND))
  else Raise OverflowError.

(** [d - td] is [d + (-td)]. *)
Definition dt_sub_td (d : datetime) (td : timedelta) : outcome datetime :=
  dt_add_td d (- td).

(** [abs(td.total_seconds()) < n] for an integer [n].  The float
    [total_seconds()] is the microsecond count divided by 10**6, correctly
    rounded; against an integer bound the comparison is decided by the
    exact microsecond count. *)
Definition abs_total_seconds_lt (td : timedelta) (n : Z) : bool :=
  Z.abs td <? n * US_PER_SECOND.

(** ** [datetime.strptime(s, '%A %d %B %Y')] *)

Definition WEEKDAYS : list string :=
  ["wednesday"; "thursday"; "saturday"; "tuesday"; "monday"; "friday";
   "sunday"].

Definition MONTHS : list (string * Z) :=
  [("september", 9); ("february", 2); ("november", 11); ("december", 12);
   ("january", 1); ("october", 10); ("august", 8); ("march", 3);
   ("april", 4); ("june", 6); ("july", 7); ("may", 5)].

Definition one_of (names : list string) : regex :=
  fold_right (fun n r => Alt (LitI n) r) (Cls (fun _ => false)) names.

Definition digit : regex := Cls is_digit.
Definition spaces1 : regex := Plus (Cls is_space).
Definition spaces0 : regex := Star (Cls is_space).

(** The directive [%d]: [3[0-1]|[1-2]\d|0[1-9]|[1-9]| [1-9]]. *)
Definition directive_d : regex :=
  Alt (Seq (Chr "3") (Cls (in_range 48 49)))
  (Alt (Seq (Cls (in_range 49 50)) digit)
  (Alt (Seq (Chr "0") (Cls (in_range 49 57)))
  (Alt (Cls (in_range 49 57))
       (Seq (Chr " ") (Cls (in_range 49 57)))))).

(** The pattern that [_strptime] compiles for ['%A %d %B %Y'], with
    [re.IGNORECASE]; each blank of the format becomes [\s+]. *)
Definition strptime_re : regex :=
  Seq (Grp 1 (one_of WEEKDAYS))
  (Seq spaces1
  (Seq (Grp 2 directive_d)
  (Seq spaces1
  (Seq (Grp 3 (one_of (map fst MONTHS)))
  (Seq spaces1
       (Grp 4 (Seq digit (Seq digit (Seq digit digit))))))))).

Fixpoint month_index (name : string) (l : list (string * Z)) : Z :=
  match l with
  | [] => 0
  | (n, i) :: l' => if String.eqb n name then i else month_index name l'
  end.

Definition group_or_empty (m : Match) (i : nat) : string :=
  match group (m_groups m) i with Some s => s | None => EmptyString end.

(** The weekday is matched and then ignored; the day must exist in the
    month of that year, and nothing may follow the year. *)
Definition strptime (s : string) : outcome datetime :=
  match re_match strptime_re s with
  | None => Raise ValueError
  | Some m =>
      if negb (Nat.eqb (slen s) (m_end m)) then Raise ValueError
      else
        new_datetime (int (group_or_empty m 4))
                     (month_index (lower (group_or_empty m 3)) MONTHS)
                     (int (lstrip (group_or_empty m 2)))
                     0 0 0 0
  end.



(** ** [json] documents and files *)

(** A value that [json.load] can return. *)
Inductive json : Type :=
| JNull
| JBool (b : bool)
| JNum (n : Z)
| JStr (s : string)
| JList (l : list json)
| JDict (items : list (string * json)).

(** What a file holds: raw bytes, or the text of a JSON document.
    [json.dump] writes a text that [json.load] reads back as the same
    value, so a JSON file is kept as the value itself; [json.load] on
    anything else fails with [JSONDecodeError], a [ValueError]. *)
Inductive contents : Type :=
| Bytes (b : string)
| JsonText (v : json).

(** The file system: the files by path, and the paths that cannot be
    opened for writing. *)
Record FS : Type := mkFS {
  files : gmap string contents;
  denied : gset string
}.

(** [Path(p).exists()] *)
Definition fs_exists (fs : FS) (p : string) : bool :=
  match files fs !! p with Some _ => true | None => false end.

(** [open(p, 'w')] followed by a complete write of [c]. *)
Definition fs_write (fs : FS) (p : string) (c : contents) : outcome FS :=
  if decide (p ∈ denied fs) then Raise OSError
  else Ret (mkFS (<[p := c]> (files fs)) (denied fs)).

(** [json.load(open(p))] *)
Definition json_load (fs : FS) (p : string) : outcome json :=
  match files fs !! p with
  | Some (JsonText v) => Ret v
  | Some (Bytes _) => Raise ValueError
  | None => Raise OSError
  end.

(** [data.get(key, [])]: only a [dict] has the method. *)
Fixpoint assoc (key : string) (items : list (string * json)) : option json :=
  match items with
  | [] => None
  | (k, v) :: items' => if String.eqb k key then Some v else assoc key items'
  end.

Definition dict_get (data : json) (key : string) : outcome json :=
  match data with
  | JDict items =>
      match assoc key items with
      | Some v => Ret v
      | None => Ret (JList [])
      end
  | _ => Raise AttributeError
  end.

Fixpoint chars (s : string) : list string :=
  match s with
  | EmptyString => []
  | String c s' => String c EmptyString :: chars s'
  end.

(** [set(v)]: the members of a list, the characters of a string, the
    keys of a dict; [TypeError] on a list or dict member, which cannot
    be hashed, and on a value that cannot be iterated.  A number, boolean
    or null member is never equal to a descriptor and is never written by
    the tracker: the model keeps the string members. *)
Fixpoint set_of_list (l : list json) : outcome (gset string) :=
  match l with
  | [] => Ret ∅
  | JStr s :: l' => obind (set_of_list l') (fun X => Ret ({[ s ]} ∪ X))
  | JList _ :: _ | JDict _ :: _ => Raise TypeError
  | _ :: l' => set_of_list l'
  end.

Definition py_set (v : json) : outcome (gset string) :=
  match v with
  | JList l => set_of_list l
  | JStr s => Ret (list_to_set (chars s))
  | JDict items => Ret (list_to_set (map fst items))
  | _ => Raise TypeError
  end.

(** [list(X)] as a JSON array; the order is the set's own. *)
Definition json_of_set (X : gset string) : json :=
  JList (map JStr (elements X)).

(** [datetime.now()] *)
Definition Clock : Type := nat -> datetime.

Definition now (clk : Clock) : M datetime := fun t => (Ret (clk t), S t).

(** A clock that shows the same instant at every call. *)
Definition frozen (d : datetime) : Clock := fun _ => d.

End Py.

Notation "x <- c1 ;; c2" := (Py.bind c1 (fun x => c2))
  (at level 100, c1 at next level, right associativity).

(* ===================================================================== *)
(** * src/session_parser.py                                               *)
(* ===================================================================== *)

Module session_parser.
Import Py.

(** [Session]: a free electricity session. *)
Record Session : Type := mkSession {
  session_str : string;
  start_time : datetime;
  end_time : datetime
}.

(** [Session.duration] *)
Definition duration (s : Session) : timedelta :=
  dt_sub (end_time s) (start_time s).

(** [(am|pm)?] *)
Definition suffix_re : regex := Opt (Grp 2 (Alt (Lit "am") (Lit "pm"))).

(** [(\d+)(am|pm)?] *)
Definition time_re : regex := Seq (Grp 1 (Plus digit)) suffix_re.

(** [(\d+)(st|nd|rd|th)] with [re.IGNORECASE] *)
Definition ordinal_re : regex :=
  Seq (Grp 1 (Plus digit))
      (Grp 2 (Alt (LitI "st") (Alt (LitI "nd") (Alt (LitI "rd") (LitI "th"))))).

(** The hour of a matched time token, in 24-hour form. *)
Definition hour24 (m : Match) : Z :=
  let hour := int (group_or_empty m 1) in
  let ampm :=
    match group (m_groups m) 2 with
    | Some a => a
    | None => if hour =? 12 then "pm" else "am"
    end in
  if String.eqb ampm "pm" && negb (hour =? 12) then hour + 12
  else if String.eqb ampm "am" && (hour =? 12) then 0
  else hour.

(** [date_part] without the ordinal suffix of the day. *)
Definition date_part_clean (date_part : string) : string :=
  re_sub ordinal_re (fun m => group_or_empty m 1) date_part.

(** [f"{date_part_clean} {year}"] *)
Definition date_str_full (date_part : string) (y : Z) : string :=
  date_part_clean date_part +:+ " " +:+ str y.

Section WithClock.
Variable clk : Clock.

(** [SessionParser._parse_datetime] *)
Definition _parse_datetime (time_str date_part : string) : M (option datetime) :=
  match re_match time_re (lower time_str) with
  | None => ret None
  | Some m =>
      let hour := hour24 m in
      let minute := 0 in
      n1 <- now clk ;;
      let current_year := year n1 in
      parsed <-
        try_ValueError
          (d <- lift (strptime (date_str_full date_part current_year)) ;;
           ret (Some d))
          (try_ValueError
             (d <- lift (strptime (date_str_full date_part (current_year + 1))) ;;
              ret (Some d))
             (ret None)) ;;
      match parsed with
      | None => ret None
      | Some date_obj =>
          result <- lift (replace_hm date_obj hour minute) ;;
          n2 <- now clk ;;
          if dt_ltb result n2 then
            try_ValueError
              (d <- lift (strptime (date_str_full date_part (current_year + 1))) ;;
               r <- lift (replace_hm d hour minute) ;;
               ret (Some r))
              (ret (Some result))
          else ret (Some result)
      end
  end.

(** [SessionParser._parse_start_time] *)
Definition _parse_start_time (time_part date_part : string) : M (option datetime) :=
  start_time_str <- lift (index (split "-" time_part) 0) ;;
  _parse_datetime (strip start_time_str) date_part.

(** [SessionParser._parse_end_time] *)
Definition _parse_end_time (time_part date_part : string) : M (option datetime) :=
  end_time_str <- lift (index (split "-" time_part) 1) ;;
  _parse_datetime (strip end_time_str) date_part.

(** [SessionParser.parse] *)
Definition parse (session_str : string) : M (option Session) :=
  match split "," session_str with
  | [p0; p1] =>
      let time_part := strip p0 in
      let date_part := strip p1 in
      st <- _parse_start_time time_part date_part ;;
      et <- _parse_end_time time_part date_part ;;
      match st, et with
      | Some s, Some e => ret (Some (mkSession session_str s e))
      | _, _ => ret None
      end
  | _ => ret None
  end.

(** [SessionParser.get_upcoming_notification_time] *)
Definition get_upcoming_notification_time (session : Session) (hours_before : Z)
  : M (option datetime) :=
  lead <- lift (timedelta_hours hours_before) ;;
  notification_time <- lift (dt_sub_td (start_time session) lead) ;;
  n <- now clk ;;
  if dt_leb notification_time n then ret None
  else ret (Some notification_time).

End WithClock.

End session_parser.

(* ===================================================================== *)
(** * src/notifier.py                                                     *)
(* ===================================================================== *)

Module notifier.
Import Py session_parser.

(** The configuration fields of a [Notifier]. *)
Record Notifier : Type := mkNotifier {
  apprise_urls : list string;
  enabled : bool;
  upcoming_hours : Z;
  notify_start : bool;
  notify_end : bool
}.

Section WithClock.
Variable clk : Clock.

(** [Notifier.should_notify_upcoming] *)
Definition should_notify_upcoming (self : Notifier) (session : Session) : M bool :=
  if negb (enabled self) then ret false
  else
    n <- now clk ;;
    lead <- lift (timedelta_hours (upcoming_hours self)) ;;
    notification_time <- lift (dt_sub_td (start_time session) lead) ;;
    let time_diff := dt_sub n notification_time in
    ret (abs_total_seconds_lt time_diff 300).

(** [Notifier.should_notify_start] *)
Definition should_notify_start (self : Notifier) (session : Session) : M bool :=
  if negb (enabled self) || negb (notify_start self) then ret false
  else
    n <- now clk ;;
    ret (abs_total_seconds_lt (dt_sub n (start_time session)) 300).

(** [Notifier.should_notify_end] *)
Definition should_notify_end (self : Notifier) (session : Session) : M bool :=
  if negb (enabled self) || negb (notify_end self) then ret false
  else
    n <- now clk ;;
    ret (abs_total_seconds_lt (dt_sub n (end_time session)) 300).

End WithClock.

End notifier.

(* ===================================================================== *)
(** * src/octopus_scraper.py                                              *)
(* ===================================================================== *)

Module octopus_scraper.
Import Py.

Definition not_char (c : ascii) : regex := Cls (fun x => negb (Ascii.eqb x c)).
Definition word : regex := Cls is_word.

(** [Next\s+Sessions?:] *)
Definition next_re : regex :=
  Seq (LitI "Next") (Seq spaces1 (Seq (LitI "Session")
    (Seq (Opt (ChrI "s")) (Chr ":")))).

(** [<h\d[^>]*>] *)
Definition heading_re : regex :=
  Seq (Chr "<") (Seq (ChrI "h") (Seq digit
    (Seq (Star (not_char ">")) (Chr ">")))).

(** [<br\s*/?>] *)
Definition br_re : regex :=
  Seq (Chr "<") (Seq (LitI "br") (Seq spaces0
    (Seq (Opt (Chr "/")) (Chr ">")))).

(** [<[^>]+>] *)
Definition tag_re : regex :=
  Seq (Chr "<") (Seq (Plus (not_char ">")) (Chr ">")).

(** [\n|Next|Power Tower], case-sensitive *)
Definition separator_re : regex :=
  Alt (Chr "010") (Alt (Lit "Next") (Lit "Power Tower")).

Definition ampm_opt : regex := Opt (Alt (LitI "am") (LitI "pm")).

(** [\d+(?:am|pm)?-\d+(?:am|pm)?,\s*\w+\s*\d+(?:st|nd|rd|th)?\s*\w+] *)
Definition session_re : regex :=
  Seq (Plus digit) (Seq ampm_opt (Seq (Chr "-")
  (Seq (Plus digit) (Seq ampm_opt (Seq (Chr ",")
  (Seq spaces0 (Seq (Plus word) (Seq spaces0
  (Seq (Plus digit)
  (Seq (Opt (Alt (LitI "st") (Alt (LitI "nd") (Alt (LitI "rd") (LitI "th")))))
  (Seq spaces0 (Plus word)))))))))))).

(** The parts of the session grammar: a time token, the time range and
    the date phrase. *)
Definition token_re : regex := Seq (Plus digit) ampm_opt.

Definition time_range_re : regex := Seq token_re (Seq (Chr "-") token_re).

Definition date_phrase_re : regex :=
  Seq spaces0 (Seq (Plus word) (Seq spaces0
  (Seq (Plus digit)
  (Seq (Opt (Alt (LitI "st") (Alt (LitI "nd") (Alt (LitI "rd") (LitI "th")))))
  (Seq spaces0 (Plus word)))))).

(** [Last\s+Session:] *)
Definition last_re : regex :=
  Seq (LitI "Last") (Seq spaces1 (Seq (LitI "Session") (Chr ":"))).

(** [<h\d[^>]*>|Next Power Tower] *)
Definition last_end_re : regex :=
  Alt heading_re (LitI "Next Power Tower").

(** [Next(?:\s+\w+)*\s+Sessions?:\s*([^<\n]+)] *)
Definition fallback_re : regex :=
  Seq (LitI "Next") (Seq (Star (Seq spaces1 (Plus word)))
  (Seq spaces1 (Seq (LitI "Session") (Seq (Opt (ChrI "s")) (Seq (Chr ":")
  (Seq spaces0
    (Grp 1 (Plus (Cls (fun x =>
       negb (Ascii.eqb x "<") && negb (Ascii.eqb x "010"))))))))))).

Definition newline : string := String "010" EmptyString.

(** The block of text after a heading match, cut at [end_re], with the
    line breaks normalised and the remaining tags removed. *)
Definition text_block (html_content : string) (m : Match) (end_re : regex) : string :=
  let start_pos := m_end m in
  let after := drop start_pos html_content in
  let end_pos :=
    match re_search end_re after with
    | Some end_match => m_start end_match
    | None => (slen html_content - start_pos)%nat
    end in
  let block := take end_pos after in
  let block := re_sub br_re (fun _ => newline) block in
  strip (re_sub tag_re (fun _ => EmptyString) block).

(** What may stand between the block of sessions and the next heading
    without being read as text: white space and closing tags. *)
Definition tag_char (c : ascii) : bool :=
  negb (Ascii.eqb c "<") && negb (Ascii.eqb c ">").

Inductive trailer : string -> Prop :=
| trailer_nil : trailer EmptyString
| trailer_space c s : is_space c = true -> trailer s -> trailer (String c s)
| trailer_tag name s :
    all_chars tag_char name = true -> trailer s ->
    trailer ("</" +:+ name +:+ ">" +:+ s).

(** The three branches of [extract_sessions], before deduplication. *)
Definition extract_raw (html_content : string) : option string * list string :=
  match re_search next_re html_content with
  | Some m =>
      let potential_sessions :=
        re_split separator_re (text_block html_content m heading_re) in
      (Some "next",
       flat_map (fun part =>
                   let part := strip part in
                   if Nat.eqb (slen part) 0 then []
                   else re_findall session_re part)
                potential_sessions)
  | None =>
      match re_search last_re html_content with
      | Some m =>
          (Some "last",
           re_findall session_re (text_block html_content m last_end_re))
      | None =>
          match re_search fallback_re html_content with
          | Some m =>
              let session_raw := strip (group_or_empty m 1) in
              let session_clean :=
                re_sub tag_re (fun _ => EmptyString) session_raw in
              (Some "next", re_findall session_re session_clean)
          | None => (None, [])
          end
      end
  end.

(** [OctopusScraper.extract_sessions]: [list(set(sessions))] lists the
    elements of the set in an order that the code does not control. *)
Definition extract_sessions (html_content : string) : option string * list string :=
  let '(session_type, sessions) := extract_raw html_content in
  (session_type, elements (list_to_set sessions : gset string)).

(** [OctopusScraper.scrape]: [fetched] is what [fetch_page_content]
    returned, the text of the page or [None] after a failed request. *)
Definition scrape (fetched : option string) : option string * list string :=
  match fetched with
  | None => (None, [])
  | Some html_content => extract_sessions html_content
  end.

End octopus_scraper.

(* ===================================================================== *)
(** * src/ical_generator.py                                               *)
(* ===================================================================== *)

Module ical_generator.
Import Py session_parser.

(** A property value of a calendar component. *)
Inductive value : Type :=
| VText (s : string)
| VDatetime (d : datetime)
| VDuration (td : timedelta).

(** A component of the [icalendar] library: calendar, event or alarm. *)
Inductive Component : Type :=
| mkComponent (name : string) (props : list (string * value))
              (subcomponents : list Component).

Definition comp_name (c : Component) : string :=
  match c with mkComponent n _ _ => n end.
Definition comp_props (c : Component) : list (string * value) :=
  match c with mkComponent _ p _ => p end.
Definition comp_subs (c : Component) : list Component :=
  match c with mkComponent _ _ l => l end.

(** The value of the property [name] of a component. *)
Fixpoint lookup_prop (name : string) (props : list (string * value)) : option value :=
  match props with
  | [] => None
  | (n, v) :: props' => if String.eqb n name then Some v else lookup_prop name props'
  end.

Definition prop (name : string) (c : Component) : option value :=
  lookup_prop name (comp_props c).

(** An alarm offset that [timedelta(minutes=...)] accepts, and whose
    negation is a [timedelta] as well. *)
Definition alarm_ok (minutes : Z) : bool :=
  (minutes =? 0)
  || ((-999999999 <=? minutes_us minutes / US_PER_DAY)
      && (minutes_us minutes / US_PER_DAY <=? 999999999)
      && (-999999999 <=? (- minutes_us minutes) / US_PER_DAY)
      && ((- minutes_us minutes) / US_PER_DAY <=? 999999999)).

Record ICalGenerator : Type := mkICalGenerator {
  timezone : string;
  alarms_enabled : bool;
  alarm_times : list Z
}.

(** [ICalGenerator.__init__]: [alarm_times or [60, 15, 0]] *)
Definition new_ICalGenerator (tz : string) (enabled : bool)
    (times : option (list Z)) : ICalGenerator :=
  mkICalGenerator tz enabled
    match times with
    | Some (t :: ts) => t :: ts
    | _ => [60; 15; 0]
    end.

(** The number of alarms that an event gets. *)
Definition alarms_per_event (self : ICalGenerator) : nat :=
  if alarms_enabled self then length (alarm_times self) else O.

Fixpoint mapM {A B} (f : A -> M B) (l : list A) : M (list B) :=
  match l with
  | [] => ret []
  | x :: l' => y <- f x ;; ys <- mapM f l' ;; ret (y :: ys)
  end.

Section WithLibraries.
Variable clk : Clock.
(** [Calendar.to_ical()], [str(timedelta)] and
    [strftime('%Y%m%d%H%M')], as the libraries compute them. *)
Variable to_ical : Component -> string.
Variable str_timedelta : timedelta -> string.
Variable strftime_uid : datetime -> string.

Definition alarm (minutes : Z) : M Component :=
  let alarm_desc :=
    if minutes =? 0 then "Free electricity session starting NOW!"
    else if minutes <? 60 then
      "Free electricity session in " +:+ str minutes +:+ " minutes!"
    else
      let hours := minutes / 60 in
      "Free electricity session in " +:+ str hours +:+ " hour"
        +:+ (if 1 <? hours then "s" else "") +:+ "!" in
  trigger <-
    (if minutes =? 0 then lift (new_timedelta 0)
     else td <- lift (timedelta_minutes minutes) ;; ret (- td)) ;;
  ret (mkComponent "VALARM"
         [("action", VText "DISPLAY");
          ("description", VText alarm_desc);
          ("trigger", VDuration trigger)] []).

Definition event (self : ICalGenerator) (session : Session) : M Component :=
  dtstamp <- now clk ;;
  let uid := strftime_uid (start_time session) +:+ "@octopus.energy" in
  let description :=
    "Free electricity session: " +:+ session_str session +:+ octopus_scraper.newline
    +:+ "Duration: " +:+ str_timedelta (duration session) +:+ octopus_scraper.newline
    +:+ "Make sure to use electricity during this period!" in
  alarms <-
    (if alarms_enabled self && negb (Nat.eqb (length (alarm_times self)) 0)
     then mapM alarm (alarm_times self) else ret []) ;;
  ret (mkComponent "VEVENT"
         [("summary", VText "Octopus Free Electricity");
          ("dtstart", VDatetime (start_time session));
          ("dtend", VDatetime (end_time session));
          ("dtstamp", VDatetime dtstamp);
          ("uid", VText uid);
          ("description", VText description);
          ("location", VText "UK");
          ("status", VText "CONFIRMED");
          ("transp", VText "TRANSPARENT");
          ("categories", VText "Free Electricity,Octopus Energy")]
         alarms).

(** What the event written for a session [s] carries. *)
Definition event_of (self : ICalGenerator) (s : Session) (ev : Component) : Prop :=
  comp_name ev = "VEVENT"
  /\ prop "dtstart" ev = Some (VDatetime (start_time s))
  /\ prop "dtend" ev = Some (VDatetime (end_time s))
  /\ prop "uid" ev = Some (VText (strftime_uid (start_time s) +:+ "@octopus.energy"))
  /\ length (comp_subs ev) = alarms_per_event self.

(** [ICalGenerator.generate]: the returned flag and the file system
    afterwards. *)
Definition generate (self : ICalGenerator) (sessions : list Session)
    (output_path : string) (fs : FS) : M (bool * FS) :=
  match sessions with
  | [] => ret (false, fs)
  | _ =>
      events <- mapM (event self) sessions ;;
      let cal :=
        mkComponent "VCALENDAR"
          [("prodid", VText "-//Octopus Energy Free Electricity//EN");
           ("version", VText "2.0");
           ("calscale", VText "GREGORIAN");
           ("method", VText "PUBLISH");
           ("x-wr-calname", VText "Octopus Free Electricity");
           ("x-wr-timezone", VText (timezone self));
           ("x-wr-caldesc",
            VText "Free electricity sessions from Octopus Energy")]
          events in
      match fs_write fs output_path (Bytes (to_ical cal)) with
      | Ret fs' => ret (true, fs')
      | Raise _ => ret (false, fs)
      end
  end.

(** [ICalGenerator.update_or_create] *)
Definition update_or_create (self : ICalGenerator) (sessions : list Session)
    (output_path : string) (fs : FS) : M (bool * FS) :=
  generate self sessions output_path fs.

End WithLibraries.

End ical_generator.

(* ===================================================================== *)
(** * src/main.py                                                         *)
(* ===================================================================== *)

Module main.
Import Py session_parser ical_generator.

(** ** [get_config_value] *)

(** The configuration is what [yaml.safe_load] returned: nested
    dictionaries with string keys over scalars and lists, kept as a [json]
    value; Python's [None] is [JNull]. *)
Fixpoint walk (keys : list string) (value default : json) : json :=
  match keys with
  | [] => value
  | k :: keys' =>
      match value with
      | JDict items =>
          match assoc k items with
          | None | Some JNull => default
          | Some v => walk keys' v default
          end
      | _ => default
      end
  end.

(** [get_config_value(config, key, default)] *)
Definition get_config_value (config : json) (key : string) (default : json) : json :=
  walk (split "." key) config default.

(** ** [SessionTracker] *)

Record SessionTracker : Type := mkSessionTracker {
  state_file : string;
  seen_sessions : gset string;
  notified_upcoming : gset string;
  notified_start : gset string;
  notified_end : gset string
}.

(** The four assignments of [_load_state], in order: an exception leaves
    the attributes assigned so far in place. *)
Definition load_fields (self : SessionTracker) (data : json) : SessionTracker :=
  match obind (dict_get data "seen_sessions") py_set with
  | Raise _ => self
  | Ret seen =>
      let self :=
        mkSessionTracker (state_file self) seen (notified_upcoming self)
          (notified_start self) (notified_end self) in
      match obind (dict_get data "notified_upcoming") py_set with
      | Raise _ => self
      | Ret up =>
          let self :=
            mkSessionTracker (state_file self) (seen_sessions self) up
              (notified_start self) (notified_end self) in
          match obind (dict_get data "notified_start") py_set with
          | Raise _ => self
          | Ret st =>
              let self :=
                mkSessionTracker (state_file self) (seen_sessions self)
                  (notified_upcoming self) st (notified_end self) in
              match obind (dict_get data "notified_end") py_set with
              | Raise _ => self
              | Ret en =>
                  mkSessionTracker (state_file self) (seen_sessions self)
                    (notified_upcoming self) (notified_start self) en
              end
          end
      end
  end.

(** [SessionTracker._load_state]: every exception is logged and dropped. *)
Definition _load_state (self : SessionTracker) (fs : FS) : SessionTracker :=
  if fs_exists fs (state_file self) then
    match json_load fs (state_file self) with
    | Ret data => load_fields self data
    | Raise _ => self
    end
  else self.

(** [SessionTracker.__init__] *)
Definition new_SessionTracker (path : string) (fs : FS) : SessionTracker :=
  _load_state (mkSessionTracker path ∅ ∅ ∅ ∅) fs.

(** A tracker with nothing recorded. *)
Definition empty_tracker (path : string) : SessionTracker :=
  mkSessionTracker path ∅ ∅ ∅ ∅.

(** [isinstance(v, dict)] *)
Definition is_dict (v : json) : bool :=
  match v with JDict _ => true | _ => false end.

(** A world is in sync when a tracker started on its state file is the
    tracker it holds. *)
Definition in_sync (w : SessionTracker * FS) : Prop :=
  new_SessionTracker (state_file (fst w)) (snd w) = fst w.

(** The document that [_save_state] dumps. *)
Definition state_document (self : SessionTracker) : json :=
  JDict [("seen_sessions", json_of_set (seen_sessions self));
         ("notified_upcoming", json_of_set (notified_upcoming self));
         ("notified_start", json_of_set (notified_start self));
         ("notified_end", json_of_set (notified_end self))].

(** [SessionTracker._save_state]: every exception is logged and dropped. *)
Definition _save_state (self : SessionTracker) (fs : FS) : FS :=
  match fs_write fs (state_file self) (JsonText (state_document self)) with
  | Ret fs' => fs'
  | Raise _ => fs
  end.

Definition is_new_session (self : SessionTracker) (session_str : string) : bool :=
  bool_decide (session_str ∉ seen_sessions self).

Definition mark_seen (self : SessionTracker) (session_str : string) (fs : FS)
  : SessionTracker * FS :=
  let self :=
    mkSessionTracker (state_file self) ({[ session_str ]} ∪ seen_sessions self)
      (notified_upcoming self) (notified_start self) (notified_end self) in
  (self, _save_state self fs).

Definition should_notify_upcoming (self : SessionTracker) (session_str : string) : bool :=
  bool_decide (session_str ∉ notified_upcoming self).

Definition mark_notified_upcoming (self : SessionTracker) (session_str : string)
    (fs : FS) : SessionTracker * FS :=
  let self :=
    mkSessionTracker (state_file self) (seen_sessions self)
      ({[ session_str ]} ∪ notified_upcoming self)
      (notified_start self) (notified_end self) in
  (self, _save_state self fs).

Definition should_notify_start (self : SessionTracker) (session_str : string) : bool :=
  bool_decide (session_str ∉ notified_start self).

Definition mark_notified_start (self : SessionTracker) (session_str : string)
    (fs : FS) : SessionTracker * FS :=
  let self :=
    mkSessionTracker (state_file self) (seen_sessions self)
      (notified_upcoming self)
      ({[ session_str ]} ∪ notified_start self) (notified_end self) in
  (self, _save_state self fs).

Definition should_notify_end (self : SessionTracker) (session_str : string) : bool :=
  bool_decide (session_str ∉ notified_end self).

Definition mark_notified_end (self : SessionTracker) (session_str : string)
    (fs : FS) : SessionTracker * FS :=
  let self :=
    mkSessionTracker (state_file self) (seen_sessions self)
      (notified_upcoming self) (notified_start self)
      ({[ session_str ]} ∪ notified_end self) in
  (self, _save_state self fs).

(** A call of one of the eight public methods, and its effect on the
    tracker object and the file system, with the value returned. *)
Inductive call : Type :=
| Is_new_session (d : string)
| Mark_seen (d : string)
| Should_notify_upcoming (d : string)
| Mark_notified_upcoming (d : string)
| Should_notify_start (d : string)
| Mark_notified_start (d : string)
| Should_notify_end (d : string)
| Mark_notified_end (d : string).

Definition world : Type := SessionTracker * FS.

Definition perform (c : call) (w : world) : option bool * world :=
  let '(self, fs) := w in
  match c with
  | Is_new_session d => (Some (is_new_session self d), w)
  | Mark_seen d => (None, mark_seen self d fs)
  | Should_notify_upcoming d => (Some (should_notify_upcoming self d), w)
  | Mark_notified_upcoming d => (None, mark_notified_upcoming self d fs)
  | Should_notify_start d => (Some (should_notify_start self d), w)
  | Mark_notified_start d => (None, mark_notified_start self d fs)
  | Should_notify_end d => (Some (should_notify_end self d), w)
  | Mark_notified_end d => (None, mark_notified_end self d fs)
  end.

Definition run (calls : list call) (w : world) : world :=
  fold_left (fun w c => snd (perform c w)) calls w.

(** The value that a call returns. *)
Definition answer (c : call) (w : world) : option bool := fst (perform c w).

(** The four methods that only read. *)
Definition is_query (c : call) : bool :=
  match c with
  | Is_new_session _ | Should_notify_upcoming _ | Should_notify_start _
  | Should_notify_end _ => true
  | _ => false
  end.

(** The three notification milestones, each with its flag set, its query
    and its mark. *)
Inductive milestone : Type := Upcoming | Start | End.

Definition flag_set (ms : milestone) (self : SessionTracker) : gset string :=
  match ms with
  | Upcoming => notified_upcoming self
  | Start => notified_start self
  | End => notified_end self
  end.

Definition query (ms : milestone) (d : string) : call :=
  match ms with
  | Upcoming => Should_notify_upcoming d
  | Start => Should_notify_start d
  | End => Should_notify_end d
  end.

Definition mark (ms : milestone) (d : string) : call :=
  match ms with
  | Upcoming => Mark_notified_upcoming d
  | Start => Mark_notified_start d
  | End => Mark_notified_end d
  end.

(** ** [OctopusEnergyMonitor.update_ical] *)

(** The settings that [update_ical] reads with [get_config_value], after
    the defaults have been applied. *)
Record Config : Type := mkConfig {
  ical_cleanup_enabled : bool;
  ical_cleanup_days_to_keep : Z;
  ical_output_dir : string;
  ical_filename : string
}.

Record OctopusEnergyMonitor : Type := mkMonitor {
  config : Config;
  ical_gen : ICalGenerator;
  sessions : list Session
}.

(** [Path(output_dir) / filename] *)
Definition path_join (dir name : string) : string := dir +:+ "/" +:+ name.

(** The sessions that [update_ical] passes on, [cutoff_date] being the
    current time less the days to keep. *)
Definition kept_of (self : OctopusEnergyMonitor) (cutoff_date : datetime) : list Session :=
  if ical_cleanup_enabled (config self)
  then List.filter (fun s => dt_ltb cutoff_date (end_time s)) (sessions self)
  else sessions self.

Section WithLibraries.
Variable clk : Clock.
Variable to_ical : Component -> string.
Variable str_timedelta : timedelta -> string.
Variable strftime_uid : datetime -> string.

Definition update_ical (self : OctopusEnergyMonitor) (fs : FS) : M FS :=
  let cleanup_enabled := ical_cleanup_enabled (config self) in
  let days_to_keep := ical_cleanup_days_to_keep (config self) in
  n <- now clk ;;
  filtered_sessions <-
    (if cleanup_enabled then
       keep <- lift (timedelta_days days_to_keep) ;;
       cutoff_date <- lift (dt_sub_td n keep) ;;
       ret (List.filter (fun s => dt_ltb cutoff_date (end_time s)) (sessions self))
     else ret (sessions self)) ;;
  let ical_output_path :=
    path_join (ical_output_dir (config self)) (ical_filename (config self)) in
  match filtered_sessions with
  | [] =>
      r <- generate clk to_ical str_timedelta strftime_uid
             (ical_gen self) [] ical_output_path fs ;;
      ret (snd r)
  | _ =>
      r <- generate clk to_ical str_timedelta strftime_uid
             (ical_gen self) filtered_sessions ical_output_path fs ;;
      ret (snd r)
  end.

End WithLibraries.

(** ** The cycles of [OctopusEnergyMonitor] *)

(** A call of one of the four [notify_*] methods of the notifier.  Each
    of them builds a title and a body and hands them to
    [send_notification], which catches every error of the delivery: the
    call returns to the monitor in every case, and the monitor does not
    look at the value returned. *)
Inductive request : Type :=
| Notify_new_session (s : Session)
| Notify_upcoming_session (s : Session) (hours : Z)
| Notify_session_starting (s : Session)
| Notify_session_ending (s : Session).

(** What the cycles read and change: the monitor with its working set
    [self.sessions], the tracker [self.tracker], the file system, and the
    requests made to the notifier so far, in their order. *)
Record Process : Type := mkProcess {
  monitor : OctopusEnergyMonitor;
  tracker : SessionTracker;
  disk : FS;
  requests : list request
}.

Definition set_sessions (p : Process) (l : list Session) : Process :=
  mkProcess (mkMonitor (config (monitor p)) (ical_gen (monitor p)) l)
            (tracker p) (disk p) (requests p).

Definition set_tracker (p : Process) (w : SessionTracker * FS) : Process :=
  mkProcess (monitor p) (fst w) (snd w) (requests p).

Definition set_disk (p : Process) (fs : FS) : Process :=
  mkProcess (monitor p) (tracker p) fs (requests p).

Definition add_request (p : Process) (r : request) : Process :=
  mkProcess (monitor p) (tracker p) (disk p) (requests p ++ [r]).

(** A method of the monitor: it may raise, and what it has changed
    before stays changed. *)
Definition Method (A : Type) : Type := Process -> nat -> outcome A * Process * nat.

Definition andthen {A B} (c : Method A) (f : A -> Method B) : Method B :=
  fun p t =>
    match c p t with
    | (Ret a, p', t') => f a p' t'
    | (Raise e, p', t') => (Raise e, p', t')
    end.

(** The tracker's question and mark, and the notifier's call, of a
    milestone. *)
Definition tracker_should (ms : milestone) (self : SessionTracker) (d : string) : bool :=
  match ms with
  | Upcoming => should_notify_upcoming self d
  | Start => should_notify_start self d
  | End => should_notify_end self d
  end.

Definition tracker_mark (ms : milestone) (self : SessionTracker) (d : string)
    (fs : FS) : SessionTracker * FS :=
  match ms with
  | Upcoming => mark_notified_upcoming self d fs
  | Start => mark_notified_start self d fs
  | End => mark_notified_end self d fs
  end.

Definition is_next (session_type : option string) : bool :=
  match session_type with
  | Some ty => String.eqb ty "next"
  | None => false
  end.

Section WithEnvironment.
Variable clk : Clock.
Variable to_ical : Component -> string.
Variable str_timedelta : timedelta -> string.
Variable strftime_uid : datetime -> string.
(** [self.notifier], and the value of [notifications.upcoming_hours] in
    the configuration. *)
Variable nf : notifier.Notifier.
Variable upcoming_hours : Z.

Definition notifier_should (ms : milestone) (session : Session) : M bool :=
  match ms with
  | Upcoming => notifier.should_notify_upcoming clk nf session
  | Start => notifier.should_notify_start clk nf session
  | End => notifier.should_notify_end clk nf session
  end.

Definition request_for (ms : milestone) (session : Session) : request :=
  match ms with
  | Upcoming => Notify_upcoming_session session upcoming_hours
  | Start => Notify_session_starting session
  | End => Notify_session_ending session
  end.

(** The body of the loop of [scrape_sessions]; [found] is
    [new_sessions_found]. *)
Definition scrape_one (session_type : option string) (session_str : string)
    (found : bool) : Method bool :=
  fun p t =>
    if is_new_session (tracker p) session_str then
      match parse clk session_str t with
      | (Ret (Some session), t') =>
          let p := set_sessions p (sessions (monitor p) ++ [session]) in
          let p := set_tracker p (mark_seen (tracker p) session_str (disk p)) in
          let p :=
            if is_next session_type && notifier.enabled nf
            then add_request p (Notify_new_session session) else p in
          (Ret true, p, t')
      | (Ret None, t') => (Ret found, p, t')
      | (Raise e, t') => (Raise e, p, t')
      end
    else
      match parse clk session_str t with
      | (Ret (Some session), t') =>
          if negb (existsb (fun s => String.eqb (session_parser.session_str s) session_str)
                           (sessions (monitor p)))
          then (Ret found, set_sessions p (sessions (monitor p) ++ [session]), t')
          else (Ret found, p, t')
      | (Ret None, t') => (Ret found, p, t')
      | (Raise e, t') => (Raise e, p, t')
      end.

Fixpoint scrape_loop (session_type : option string) (session_strings : list string)
    (found : bool) : Method bool :=
  match session_strings with
  | [] => fun p t => (Ret found, p, t)
  | session_str :: rest =>
      andthen (scrape_one session_type session_str found)
              (fun found' => scrape_loop session_type rest found')
  end.

(** [OctopusEnergyMonitor.scrape_sessions]; [fetched] is the page that
    the request of this cycle brings. *)
Definition scrape_sessions (fetched : option string) : Method bool :=
  let '(session_type, session_strings) := octopus_scraper.scrape fetched in
  match session_strings with
  | [] => fun p t => (Ret false, p, t)
  | _ => scrape_loop session_type session_strings false
  end.

(** One of the three checks that [check_notifications] makes for a
    session: [and] asks the notifier only when the tracker has answered
    true. *)
Definition check_milestone (ms : milestone) (session : Session) : Method unit :=
  fun p t =>
    if tracker_should ms (tracker p) (session_str session) then
      match notifier_should ms session t with
      | (Ret true, t') =>
          let p := add_request p (request_for ms session) in
          (Ret tt,
           set_tracker p (tracker_mark ms (tracker p) (session_str session) (disk p)),
           t')
      | (Ret false, t') => (Ret tt, p, t')
      | (Raise e, t') => (Raise e, p, t')
      end
    else (Ret tt, p, t).

Definition check_session (n : datetime) (session : Session) : Method unit :=
  if dt_ltb (end_time session) n then fun p t => (Ret tt, p, t)
  else
    andthen (check_milestone Upcoming session) (fun _ =>
    andthen (check_milestone Start session) (fun _ =>
    check_milestone End session)).

Fixpoint check_loop (n : datetime) (l : list Session) : Method unit :=
  match l with
  | [] => fun p t => (Ret tt, p, t)
  | session :: rest =>
      andthen (check_session n session) (fun _ => check_loop n rest)
  end.

(** [OctopusEnergyMonitor.check_notifications] *)
Definition check_notifications : Method unit :=
  fun p t =>
    if negb (notifier.enabled nf) then (Ret tt, p, t)
    else check_loop (clk t) (sessions (monitor p)) p (S t).

(** [OctopusEnergyMonitor.cleanup_old_sessions] *)
Definition cleanup_old_sessions : Method unit :=
  fun p t =>
    let n := clk t in
    (Ret tt,
     set_sessions p (List.filter (fun s => dt_ltb n (end_time s)) (sessions (monitor p))),
     S t).

(** [update_ical] as a method of the process: when it raises, it has
    not reached the file. *)
Definition update_ical_method : Method unit :=
  fun p t =>
    match update_ical clk to_ical str_timedelta strftime_uid (monitor p) (disk p) t with
    | (Ret fs', t') => (Ret tt, set_disk p fs', t')
    | (Raise e, t') => (Raise e, p, t')
    end.

(** [try: ... except Exception: logging.error(...)] *)
Definition logged (c : Method unit) : Process -> nat -> Process * nat :=
  fun p t => let '(_, p', t') := c p t in (p', t').

(** [OctopusEnergyMonitor.run_scrape_cycle] *)
Definition run_scrape_cycle (fetched : option string) : Process -> nat -> Process * nat :=
  logged (andthen (scrape_sessions fetched) (fun _ =>
          andthen update_ical_method (fun _ =>
          cleanup_old_sessions))).

(** [OctopusEnergyMonitor.run_notification_cycle] *)
Definition run_notification_cycle : Process -> nat -> Process * nat :=
  logged (andthen check_notifications (fun _ => update_ical_method)).

(** A cycle of the monitor, a scrape cycle with the page it fetches. *)
Inductive cycle : Type :=
| Scrape_cycle (fetched : option string)
| Notification_cycle.

Definition run_cycle (c : cycle) (p : Process) (t : nat) : Process * nat :=
  match c with
  | Scrape_cycle fetched => run_scrape_cycle fetched p t
  | Notification_cycle => run_notification_cycle p t
  end.

Fixpoint run_cycles (cs : list cycle) (p : Process) (t : nat) : Process * nat :=
  match cs with
  | [] => (p, t)
  | c :: cs' => let '(p', t') := run_cycle c p t in run_cycles cs' p' t'
  end.

End WithEnvironment.

(** ** [OctopusEnergyMonitor.run] *)

(** What [run] does, in order: a cycle, or [time.sleep] of a number of
    seconds. *)
Inductive action : Type :=
| Do_scrape_cycle
| Do_notification_cycle
| Sleep (seconds : Z).

(** The first [iterations] rounds of the [while True] loop, entered with
    the counter [minutes_since_scrape]; [time.sleep] of a negative number
    raises [ValueError], which ends [run]. *)
Fixpoint run_loop (iterations : nat) (scrape_interval notification_interval : Z)
    (minutes_since_scrape : Z) : list action * option exn :=
  match iterations with
  | O => ([], None)
  | S iterations' =>
      let sleep_seconds := notification_interval * 60 in
      if sleep_seconds <? 0 then ([], Some ValueError)
      else
        let minutes_since_scrape := minutes_since_scrape + notification_interval in
        if scrape_interval <=? minutes_since_scrape then
          let '(l, e) :=
            run_loop iterations' scrape_interval notification_interval 0 in
          (Sleep sleep_seconds :: Do_scrape_cycle :: l, e)
        else
          let '(l, e) :=
            run_loop iterations' scrape_interval notification_interval
              minutes_since_scrape in
          (Sleep sleep_seconds :: Do_notification_cycle :: l, e)
  end.

(** [OctopusEnergyMonitor.run], with whole numbers of minutes as the two
    intervals, up to the end of round [iterations] of its loop. *)
Definition monitor_run (iterations : nat) (scrape_interval notification_interval : Z)
  : list action * option exn :=
  let '(l, e) :=
    run_loop iterations scrape_interval notification_interval scrape_interval in
  (Do_scrape_cycle :: l, e).

(** The descriptor and the kind of a request. *)
Definition request_key (r : request) : option milestone * string :=
  match r with
  | Notify_new_session s => (None, session_str s)
  | Notify_upcoming_session s _ => (Some Upcoming, session_str s)
  | Notify_session_starting s => (Some Start, session_str s)
  | Notify_session_ending s => (Some End, session_str s)
  end.

Definition request_session (r : request) : Session :=
  match r with
  | Notify_new_session s | Notify_upcoming_session s _
  | Notify_session_starting s | Notify_session_ending s => s
  end.

(** The set in which the tracker records a request. *)
Definition recorded (p : Process) (r : request) : Prop :=
  match fst (request_key r) with
  | None => snd (request_key r) ∈ seen_sessions (tracker p)
  | Some ms => snd (request_key r) ∈ flag_set ms (tracker p)
  end.

(** The properties of the process that every cycle keeps: no two
    sessions of the working set have the same descriptor and each
    descriptor of the working set has been marked seen; no two requests
    have the same kind and descriptor and each request is recorded by the
    tracker. *)
Definition working_set_ok (p : Process) : Prop :=
  NoDup (map session_str (sessions (monitor p)))
  /\ Forall (fun s => session_str s ∈ seen_sessions (tracker p)) (sessions (monitor p)).

Definition requests_ok (p : Process) : Prop :=
  NoDup (map request_key (requests p)) /\ Forall (recorded p) (requests p).

Definition ok (p : Process) : Prop := working_set_ok p /\ requests_ok p.

(** A method keeps [I]: what it leaves satisfies [I], also when it
    raises. *)
Definition keeps {A} (I : Process -> Prop) (c : Method A) : Prop :=
  forall p t, I p -> I (snd (fst (c p t))).

(** A method links what it finds to what it leaves by [R]. *)
Definition links {A} (R : Process -> Process -> Prop) (c : Method A) : Prop :=
  forall p t, R p (snd (fst (c p t))).

(** The sets of the tracker [b] hold those of [a]. *)
Definition grows (a b : SessionTracker) : Prop :=
  seen_sessions a ⊆ seen_sessions b
  /\ forall ms, flag_set ms a ⊆ flag_set ms b.

(** A request that [check_notifications] makes between [p] and [p'],
    with [n] as the current time and [l] as the working set: a milestone
    of a session of [l] that has not ended at [n], not recorded in [p] and
    recorded in [p']. *)
Definition due (n : datetime) (l : list Session) (p p' : Process) (r : request) : Prop :=
  request_session r ∈ l
  /\ dt_ltb (end_time (request_session r)) n = false
  /\ fst (request_key r) <> None
  /\ ~ recorded p r
  /\ recorded p' r.

Definition checked (n : datetime) (l : list Session) (p p' : Process) : Prop :=
  monitor p' = monitor p
  /\ seen_sessions (tracker p') = seen_sessions (tracker p)
  /\ grows (tracker p) (tracker p')
  /\ exists new, requests p' = requests p ++ new /\ Forall (due n l p p') new.

(** Between [p] and [p'] requests have only been added, the request [q]
    is not among them, and the flag of [ms] for [s] is as it was. *)
Definition untouched (ms : milestone) (s : Session) (q : request) (p p' : Process) : Prop :=
  exists new,
    requests p' = requests p ++ new
    /\ (q ∉ new)
    /\ (session_str s ∈ flag_set ms (tracker p')
        <-> session_str s ∈ flag_set ms (tracker p)).

(** Between [p] and [p'] requests have only been added; the request [q]
    is among them, and the flag of [ms] for [s] is set, exactly when [b]
    is true. *)
Definition settled (ms : milestone) (s : Session) (q : request) (b : bool)
    (p p' : Process) : Prop :=
  exists new,
    requests p' = requests p ++ new
    /\ (q ∈ new <-> b = true)
    /\ (session_str s ∈ flag_set ms (tracker p') <-> b = true).

(** The notifier can compute the time of the upcoming notification of
    [s]: the lead time and the notification time exist. *)
Definition upcoming_defined (nf : notifier.Notifier) (s : Session) : Prop :=
  exists lead nt,
    timedelta_hours (notifier.upcoming_hours nf) = Ret lead
    /\ dt_sub_td (start_time s) lead = Ret nt.

(** The monitor as [__init__] leaves it: an empty working set, the
    tracker loaded from its state file, no request made. *)
Definition new_Process (cfg : Config) (gen : ICalGenerator) (fs : FS) : Process :=
  mkProcess (mkMonitor cfg gen [])
            (new_SessionTracker (path_join (ical_output_dir cfg) "state.json") fs)
            fs [].

End main.

(* ===================================================================== *)
(** * The time-token rules as the specification words them               *)
(* ===================================================================== *)

Module spec.
Import Py.

Inductive suffix : Type := am | pm.

(** "extract leading digits and an optional am/pm suffix" *)
Fixpoint leading_digits (s : string) : string :=
  match s with
  | String c s' => if is_digit c then String c (leading_digits s') else EmptyString
  | EmptyString => EmptyString
  end.

Fixpoint after_digits (s : string) : string :=
  match s with
  | String c s' => if is_digit c then after_digits s' else s
  | EmptyString => EmptyString
  end.

Definition read_suffix (s : string) : option suffix :=
  if starts_with "am" s then Some am
  else if starts_with "pm" s then Some pm
  else None.

(** The number and the suffix of a time token, letters in either case. *)
Definition token (tok : string) : option (Z * option suffix) :=
  let t := lower tok in
  match leading_digits t with
  | EmptyString => None
  | ds => Some (int ds, read_suffix (after_digits t))
  end.

(** "If the suffix is absent, infer it: a bare 12 defaults to pm, any
    other bare number defaults to am." *)
Definition infer (h : Z) (sfx : option suffix) : suffix :=
  match sfx with
  | Some x => x
  | None => if h =? 12 then pm else am
  end.

(** "pm and hour≠12 adds 12; am and hour==12 becomes 0." *)
Definition to_24h (h : Z) (sfx : suffix) : Z :=
  match sfx with
  | pm => if h =? 12 then h else h + 12
  | am => if h =? 12 then 0 else h
  end.

Definition hour_of (tok : string) : option Z :=
  match token tok with
  | Some (h, sfx) => Some (to_24h h (infer h sfx))
  | None => None
  end.

End spec.

(* ===================================================================== *)
(** * Sample clocks and sessions                                          *)
(* ===================================================================== *)

Module samples.
Import Py session_parser notifier octopus_scraper ical_generator main.

Definition new_year_2025 : datetime := mkdt 2025 1 1 0 0 0 0.

Definition november_session : Session :=
  mkSession "11-1pm, Sunday 3rd November"
    (mkdt 2025 11 3 11 0 0 0) (mkdt 2025 11 3 13 0 0 0).

Definition october_session : Session :=
  mkSession "12-2pm, Saturday 4th October"
    (mkdt 2025 10 4 12 0 0 0) (mkdt 2025 10 4 14 0 0 0).


Definition leap_day_2024 : datetime := mkdt 2024 2 29 12 0 0 0.

Definition march_2024 : datetime := mkdt 2024 3 1 13 0 0 0.

(** A notifier with the default lead of one hour. *)
Definition hourly_notifier : Notifier := mkNotifier [] true 1 true true.

Definition session_at (start : datetime) : Session :=
  mkSession "1-2am, Wednesday 1st January" start (mkdt 2025 1 1 2 0 0 0).

Definition next_sessions_markup : string :=
  "Next Sessions: 12-2pm, Saturday 4th October<br>3-5pm, Sunday 5th October".

(** What follows the heading in [next_sessions_markup]. *)
Definition sessions_block : string :=
  " 12-2pm, Saturday 4th October<br>3-5pm, Sunday 5th October".

(** The parts of a page around [next_sessions_markup]. *)
Definition page_before : string :=
  "<html><body><h1>Free Electricity</h1><p>No session now.</p>".

Definition page_trailer : string :=
  "</p>" +:+ String "010" " </div>".

Definition page_after : string :=
  "<h2 class='info'>How it works</h2><p>1-2pm, Monday 6th October</p></body></html>".

(** A page with tags inside the descriptors and a line break written
    [<br />]. *)
Definition tagged_sessions_page : string :=
  "<div><h3>Next Sessions:</h3><ul><li><b>12-2pm</b>, Saturday <i>4th</i> October</li><br />3-5pm, <em>Sunday</em> 5th October</ul></div><h2>More</h2><p>1-2pm, Monday 6th October</p>".

Definition next_sessions_page : string :=
  "<html><body><h1>Free Electricity</h1><p><strong>Next Sessions:</strong> 12-2pm, Saturday 4th October<br>3-5pm, Sunday 5th October</p><h2>How it works</h2><p>Sign up to take part.</p></body></html>".

Definition calendar_path : string :=
  path_join "./output" "octopus_free_electricity.ics".

(** A file system that holds the calendar of an earlier run. *)
Definition stale_fs : FS :=
  mkFS {[ calendar_path := Bytes "BEGIN:VCALENDAR (previous run)" ]} ∅.

(** A monitor with an empty working set. *)
Definition idle_monitor (cleanup : bool) : OctopusEnergyMonitor :=
  mkMonitor (mkConfig cleanup 7 "./output" "octopus_free_electricity.ics")
            (new_ICalGenerator "GMT" true None) [].

Definition empty_fs : FS := mkFS ∅ ∅.
Definition state_path : string := path_join "./output" "state.json".

(** A tracker started without a state file. *)
Definition fresh_world : world :=
  (new_SessionTracker state_path empty_fs, empty_fs).

Definition october : string := "12-2pm, Saturday 4th October".

(** A state file that is not JSON. *)
Definition garbled_fs : FS := mkFS {[ state_path := Bytes "{ not json" ]} ∅.



(** A file system that refuses to write the state file. *)
Definition locked_fs : FS := mkFS ∅ {[ state_path ]}.

(** A configuration as [yaml.safe_load] returns it. *)
Definition ical_items : list (string * json) :=
  [("ical", JDict [("filename", JStr "free.ics"); ("cleanup", JNull)]);
   ("notifications", JDict [("enabled", JBool false)])].

(** A file system that refuses to write the calendar. *)
Definition locked_calendar_fs : FS := mkFS ∅ {[ calendar_path ]}.

(** A monitor that holds the session of 4 October. *)
Definition october_monitor : OctopusEnergyMonitor :=
  mkMonitor (mkConfig true 7 "./output" "octopus_free_electricity.ics")
            (new_ICalGenerator "GMT" true None) [october_session].

(** A page whose only descriptor has the hours 25 and 26. *)
Definition bad_hour_page : string :=
  "<p>Next Sessions: 25-26, Saturday 4th October</p>".

(** The monitor after [__init__] on an empty output directory. *)
Definition fresh_process : Process :=
  new_Process (mkConfig true 7 "./output" "octopus_free_electricity.ics")
    (new_ICalGenerator "GMT" true None) empty_fs.

(** A monitor whose working set holds one session, from 00:02 to 02:00
    on 1 January 2025. *)
Definition waiting_process : Process :=
  mkProcess (mkMonitor (mkConfig true 7 "./output" "octopus_free_electricity.ics")
               (new_ICalGenerator "GMT" true None)
               [session_at (mkdt 2025 1 1 0 2 0 0)])
            (empty_tracker state_path) empty_fs [].

(** Stand-ins for the serialisers of the libraries. *)
Definition sample_to_ical (c : Component) : string := comp_name c.
Definition sample_str_timedelta (td : timedelta) : string := str (td / US_PER_SECOND).
Definition sample_strftime_uid (d : datetime) : string :=
  str (year d) +:+ str (month d) +:+ str (day d) +:+ str (hour d) +:+ str (minute d).

(** A clock that advances by one minute at each reading, from midnight
    of 1 January 2025. *)
Definition minute_clock : Clock :=
  fun n => mkdt 2025 1 1 0 (Z.of_nat (Nat.min n 59)) 0 0.

End samples.

(* ===================================================================== *)
(** * Facts about the runtime fragment                                    *)
(* ===================================================================== *)

Module PyFacts.
Import Py.

(** ** Strings *)

Lemma app_cons (c : ascii) (a b : string) :
  String c a +:+ b = String c (a +:+ b).
Proof. reflexivity. Qed.

Lemma app_nil (b : string) : EmptyString +:+ b = b.
Proof. reflexivity. Qed.

Lemma slen_app (a b : string) : slen (a +:+ b) = (slen a + slen b)%nat.
Proof.
  induction a as [|c a IH]; [reflexivity|].
  rewrite app_cons. unfold slen in *. simpl. now rewrite IH.
Qed.

Lemma app_assoc_s (a b c : string) : (a +:+ b) +:+ c = a +:+ (b +:+ c).
Proof.
  induction a as [|x a IH]; [reflexivity|].
  rewrite !app_cons. now rewrite IH.
Qed.

(** Two decompositions of one string with tails of equal length have the
    same tail. *)
Lemma app_same_tail (a : string) : forall a' b b',
  a +:+ b = a' +:+ b' -> slen b = slen b' -> b = b'.
Proof.
  induction a as [|c a IH]; intros [|c' a'] b b' E L;
    rewrite ?app_cons, ?app_nil in E.
  - exact E.
  - exfalso. rewrite E in L. unfold slen in *. simpl in L.
    fold (slen (a' +:+ b')) in L. rewrite slen_app in L. unfold slen in L. lia.
  - exfalso. rewrite <- E in L. unfold slen in *. simpl in L.
    fold (slen (a +:+ b)) in L. rewrite slen_app in L. unfold slen in L. lia.
  - injection E as _ E. eapply IH; eauto.
Qed.

(** ** The matcher only ever hands a tail of its subject to its
    continuation. *)

Lemma tail_of_refl s : tail_of s s.
Proof. now exists EmptyString. Qed.

Lemma tail_of_trans a b c : tail_of a b -> tail_of b c -> tail_of a c.
Proof.
  intros [p Hp] [q Hq]. exists (q +:+ p). subst. symmetry. apply app_assoc_s.
Qed.

Lemma tail_of_slen s1 s : tail_of s1 s -> (slen s1 <= slen s)%nat.
Proof. intros [p ->]. rewrite slen_app. lia. Qed.

Lemma star_loop_tail {R} (step : string -> groups -> (string -> groups -> option R) -> option R)
    (k : string -> groups -> option R) :
  (forall s g k' x, step s g k' = Some x ->
     exists s1 g1, tail_of s1 s /\ k' s1 g1 = Some x) ->
  forall n s g x, star_loop step k n s g = Some x ->
    exists s1 g1, tail_of s1 s /\ k s1 g1 = Some x.
Proof.
  intros Hstep. induction n as [|n IH]; intros s g x H; simpl in H.
  - exists s, g. split; [apply tail_of_refl | exact H].
  - destruct (step s g _) as [y|] eqn:E.
    + injection H as ->.
      apply Hstep in E as (s1 & g1 & T1 & E1).
      destruct (Nat.ltb (slen s1) (slen s)); [|discriminate].
      apply IH in E1 as (s2 & g2 & T2 & E2).
      exists s2, g2. split; [eapply tail_of_trans; eauto | exact E2].
    + exists s, g. split; [apply tail_of_refl | exact H].
Qed.

Lemma rmatch_tail (r : regex) : forall R (k : string -> groups -> option R) s g x,
  rmatch r s g k = Some x ->
  exists s1 g1, tail_of s1 s /\ k s1 g1 = Some x.
Proof.
  induction r as [|p|r1 IH1 r2 IH2|r1 IH1 r2 IH2|r1 IH1|i r1 IH1];
    intros R k s g x H; simpl in H.
  - exists s, g. split; [apply tail_of_refl | exact H].
  - destruct s as [|c s']; [discriminate|].
    destruct (p c); [|discriminate].
    exists s', g. split; [now exists (String c EmptyString) | exact H].
  - apply IH1 in H as (s1 & g1 & T1 & H).
    apply IH2 in H as (s2 & g2 & T2 & H).
    exists s2, g2. split; [eapply tail_of_trans; eauto | exact H].
  - destruct (rmatch r1 s g k) as [y|] eqn:E.
    + injection H as ->. now apply IH1 in E.
    + now apply IH2 in H.
  - eapply star_loop_tail; [|exact H].
    intros s0 g0 k' x0 H0. now apply IH1 in H0.
  - apply IH1 in H as (s1 & g1 & T1 & H). eauto.
Qed.

(** A starred character class in front of a continuation that cannot fail
    takes every leading character of the class. *)
Lemma star_cls_total {R} (p : ascii -> bool) (k : string -> groups -> option R) :
  (forall s g, k s g <> None) ->
  forall s g, star_loop (rmatch (Cls p)) k (slen s) s g = k (skip p s) g.
Proof.
  intros Hk s g.
  assert (G : forall n s, (slen s <= n)%nat ->
            star_loop (rmatch (Cls p)) k n s g = k (skip p s) g).
  { clear s. induction n as [|n IH]; intros s L.
    - destruct s; [reflexivity | simpl in L; lia].
    - destruct s as [|c s']; [reflexivity|].
      simpl. destruct (p c) eqn:Pc; [|reflexivity].
      replace (Nat.ltb (slen s') (S (slen s'))) with true
        by (symmetry; apply Nat.ltb_lt; lia).
      rewrite IH by (simpl in L; lia).
      destruct (k (skip p s') g) eqn:E; [reflexivity|].
      now apply Hk in E. }
  now apply G.
Qed.

(** An expression that is not nullable consumes at least one character. *)
Lemma rmatch_consumes (r : regex) :
  nullable r = false ->
  forall R (k : string -> groups -> option R) s g x,
    rmatch r s g k = Some x ->
    exists s1 g1, tail_of s1 s /\ (slen s1 < slen s)%nat /\ k s1 g1 = Some x.
Proof.
  induction r as [|p|r1 IH1 r2 IH2|r1 IH1 r2 IH2|r1 IH1|i r1 IH1];
    intros N R k s g x H; simpl in N, H; try discriminate.
  - destruct s as [|c s']; [discriminate|].
    destruct (p c); [|discriminate].
    exists s', g. repeat split; [now exists (String c EmptyString) | simpl; lia | exact H].
  - destruct (nullable r1) eqn:N1.
    + apply rmatch_tail in H as (s1 & g1 & T1 & H).
      apply IH2 in H as (s2 & g2 & T2 & L2 & H); [|exact N].
      exists s2, g2. apply tail_of_slen in T1 as L1.
      repeat split; [eapply tail_of_trans; eauto | lia | exact H].
    + apply IH1 in H as (s1 & g1 & T1 & L1 & H); [|reflexivity].
      apply rmatch_tail in H as (s2 & g2 & T2 & H).
      exists s2, g2. apply tail_of_slen in T2 as L2.
      repeat split; [eapply tail_of_trans; eauto | lia | exact H].
  - apply orb_false_iff in N as [N1 N2].
    destruct (rmatch r1 s g k) as [y|] eqn:E.
    + injection H as ->. now apply IH1 in E.
    + now apply IH2 in H.
  - apply IH1 in H as (s1 & g1 & T1 & L1 & H); [|exact N]. eauto.
Qed.

Lemma match_at_consumes r pos s m :
  nullable r = false -> match_at r pos s = Some m -> (m_start m < m_end m)%nat.
Proof.
  intros N H. unfold match_at in H.
  apply (rmatch_consumes r N) in H as (s1 & g1 & T & L & H).
  injection H as <-. simpl. lia.
Qed.

(** ** [strptime] and the calendar *)

Ltac break_match :=
  match goal with
  | H : context [match ?x with _ => _ end] |- _ =>
      let E := fresh "E" in destruct x eqn:E; try discriminate
  end.

Lemma new_datetime_inv y m d h mi s us r :
  new_datetime y m d h mi s us = Ret r ->
  r = mkdt y m d h mi s us /\ valid_date y m d = true /\ valid_time h mi s us = true.
Proof.
  unfold new_datetime. destruct (valid_date y m d), (valid_time h mi s us); simpl;
    intros H; try discriminate. injection H as <-. auto.
Qed.

Lemma strptime_midnight s d :
  strptime s = Ret d ->
  hour d = 0 /\ minute d = 0 /\ second d = 0 /\ microsecond d = 0
  /\ valid_date (year d) (month d) (day d) = true.
Proof.
  unfold strptime. intros H. repeat break_match.
  apply new_datetime_inv in H as (-> & V & _). simpl. auto.
Qed.

Lemma replace_hm_inv d h mi r :
  replace_hm d h mi = Ret r ->
  r = mkdt (year d) (month d) (day d) h mi (second d) (microsecond d)
  /\ 0 <= h <= 23.
Proof.
  unfold replace_hm. intros H. apply new_datetime_inv in H as (-> & _ & V).
  split; [reflexivity|]. unfold valid_time in V.
  repeat (apply andb_true_iff in V as [V ?]). lia.
Qed.

Lemma all_range_spec f k : forall lo,
  all_range f k lo = true -> forall y, lo <= y < lo + 2 ^ Z.of_nat k -> f y = true.
Proof.
  induction k as [|k IH]; intros lo H y Hy.
  - simpl in *. replace y with lo by lia. exact H.
  - cbn [all_range] in H. apply andb_true_iff in H as [H1 H2].
    rewrite Nat2Z.inj_succ, Z.pow_succ_r in Hy by lia.
    destruct (Z_lt_ge_dec y (lo + 2 ^ Z.of_nat k)).
    + apply (IH lo); [assumption | lia].
    + apply (IH (lo + 2 ^ Z.of_nat k)); [assumption | lia].
Qed.

Lemma str_four_digits y :
  1000 <= y <= 9999 -> slen (str y) = 4%nat /\ int (str y) = y.
Proof.
  intros Hy.
  assert (A : all_range four_digit_ok 14 0 = true) by (vm_compute; reflexivity).
  pose proof (all_range_spec _ _ _ A y) as B.
  unfold four_digit_ok in B.
  destruct (y <? 1000) eqn:E1; [apply Z.ltb_lt in E1; lia|].
  destruct (9999 <? y) eqn:E2; [apply Z.ltb_lt in E2; lia|].
  simpl in B. 
  assert (C : 0 <= y < 0 + 2 ^ Z.of_nat 14) by (change (2 ^ Z.of_nat 14) with 16384; lia).
  apply B in C. apply andb_true_iff in C as [I1 I2].
  apply Nat.eqb_eq in I1. apply Z.eqb_eq in I2. auto.
Qed.

Lemma rmatch_seq_tail {R} r1 r2 s g (k : string -> groups -> option R) x :
  rmatch (Seq r1 r2) s g k = Some x ->
  exists s1 g1, tail_of s1 s /\ rmatch r2 s1 g1 k = Some x.
Proof.
  intros H. change (rmatch r1 s g (fun s1 g1 => rmatch r2 s1 g1 k) = Some x) in H.
  now apply rmatch_tail in H.
Qed.

Lemma slen_zero s : slen s = 0%nat -> s = EmptyString.
Proof. now destruct s. Qed.

Lemma strptime_last4 s d :
  strptime s = Ret d ->
  exists pre y4, s = pre +:+ y4 /\ slen y4 = 4%nat /\ year d = int y4.
Proof.
  unfold strptime. intros H.
  destruct (re_match strptime_re s) as [m|] eqn:E; [|discriminate].
  destruct (Nat.eqb (slen s) (m_end m)) eqn:L; [|discriminate]. simpl in H.
  apply Nat.eqb_eq in L.
  apply new_datetime_inv in H as (-> & _ & _). simpl.
  unfold re_match, match_at, strptime_re in E.
  apply rmatch_seq_tail in E as (s1 & g1 & T1 & E).
  apply rmatch_seq_tail in E as (s2 & g2 & T2 & E).
  apply rmatch_seq_tail in E as (s3 & g3 & T3 & E).
  apply rmatch_seq_tail in E as (s4 & g4 & T4 & E).
  apply rmatch_seq_tail in E as (s5 & g5 & T5 & E).
  apply rmatch_seq_tail in E as (s6 & g6 & T6 & E).
  assert (T : tail_of s6 s) by eauto 10 using tail_of_trans.
  clear T1 T2 T3 T4 T5 T6.
  destruct s6 as [|c1 [|c2 [|c3 [|c4 rest]]]]; cbn [rmatch digit] in E;
    try discriminate; repeat break_match; try discriminate.
  injection E as <-. cbn [m_end] in L.
  assert (Z0 : slen rest = 0%nat).
  { apply tail_of_slen in T. unfold slen in *. simpl in T. lia. }
  apply slen_zero in Z0. subst rest.
  destruct T as [pre ->].
  exists pre, (String c1 (String c2 (String c3 (String c4 EmptyString)))).
  repeat split.
Qed.

Lemma strptime_year x y d :
  1000 <= y <= 9999 ->
  strptime (x +:+ " " +:+ str y) = Ret d -> year d = y.
Proof.
  intros Hy H. apply strptime_last4 in H as (pre & y4 & E & L & ->).
  destruct (str_four_digits y Hy) as [L4 I4].
  rewrite <- (app_assoc_s x " " (str y)) in E.
  symmetry in E. apply app_same_tail in E; [|congruence].
  now subst.
Qed.

(** ** Ordinals and datetime arithmetic *)

Lemma month_day_ok r1 leapyear :
  0 <= r1 < 365 ->
  let '(m, d) := month_day r1 leapyear in
  DAYS_BEFORE_MONTH m + (if (2 <? m) && leapyear then 1 else 0) + d = r1 + 1
  /\ 1 <= m <= 12 /\ 1 <= d.
Proof.
  intros H. unfold month_day. rewrite Z.shiftr_div_pow2 by lia.
  change (2 ^ 5) with 32.
  assert (M : 1 <= (r1 + 50) / 32 <= 12) by (Z.div_mod_to_equations; lia).
  assert (B : 32 * ((r1 + 50) / 32) <= r1 + 50 < 32 * ((r1 + 50) / 32) + 32)
    by (Z.div_mod_to_equations; lia).
  set (m := (r1 + 50) / 32) in *.
  assert (C : m = 1 \/ m = 2 \/ m = 3 \/ m = 4 \/ m = 5 \/ m = 6 \/ m = 7
              \/ m = 8 \/ m = 9 \/ m = 10 \/ m = 11 \/ m = 12) by lia.
  clearbody m.
  destruct leapyear;
    repeat (destruct C as [-> | C]; [simpl; match goal with |- context [?a <? ?b] => destruct (Z.ltb_spec a b) end; simpl; lia |]);
    subst; simpl; match goal with |- context [?a <? ?b] => destruct (Z.ltb_spec a b) end; simpl; lia.
Qed.

Lemma is_leap_spec y a b c e :
  y - 1 = 400 * a + 100 * b + 4 * c + e ->
  0 <= b <= 3 -> 0 <= c <= 24 -> 0 <= e <= 3 ->
  is_leap y = (e =? 3) && (negb (c =? 24) || (b =? 3)).
Proof.
  intros Hy Hb Hc He. unfold is_leap.
  destruct (Z.eqb_spec (y mod 4) 0), (Z.eqb_spec (y mod 100) 0),
    (Z.eqb_spec (y mod 400) 0), (Z.eqb_spec e 3), (Z.eqb_spec c 24),
    (Z.eqb_spec b 3); simpl; try reflexivity; exfalso;
    Z.div_mod_to_equations; lia.
Qed.

Lemma days_before_year_spec y a b c e :
  y - 1 = 400 * a + 100 * b + 4 * c + e ->
  0 <= b <= 3 -> 0 <= c <= 24 -> 0 <= e <= 3 ->
  days_before_year y = 146097 * a + 36524 * b + 1461 * c + 365 * e.
Proof.
  intros Hy Hb Hc He. unfold days_before_year. rewrite Hy.
  Z.div_mod_to_equations. lia.
Qed.

Lemma ymd2ord_ord2ymd n :
  1 <= n -> let '(y, m, d) := ord2ymd n in ymd2ord y m d = n /\ 1 <= m <= 12 /\ 1 <= d.
Proof.
  intros Hn. unfold ord2ymd, DI400Y, DI100Y, DI4Y.
  pose proof (Z.div_mod (n - 1) 146097 ltac:(lia)) as E1.
  pose proof (Z.mod_pos_bound (n - 1) 146097 ltac:(lia)) as B1.
  set (a := (n - 1) / 146097) in *. set (r400 := (n - 1) mod 146097) in *.
  pose proof (Z.div_mod r400 36524 ltac:(lia)) as E2.
  pose proof (Z.mod_pos_bound r400 36524 ltac:(lia)) as B2.
  set (b := r400 / 36524) in *. set (r100 := r400 mod 36524) in *.
  pose proof (Z.div_mod r100 1461 ltac:(lia)) as E3.
  pose proof (Z.mod_pos_bound r100 1461 ltac:(lia)) as B3.
  set (c := r100 / 1461) in *. set (r4 := r100 mod 1461) in *.
  pose proof (Z.div_mod r4 365 ltac:(lia)) as E4.
  pose proof (Z.mod_pos_bound r4 365 ltac:(lia)) as B4.
  set (e := r4 / 365) in *. set (r1 := r4 mod 365) in *.
  clearbody a r400 b r100 c r4 e r1.
  assert (Hb : 0 <= b <= 4) by nia.
  assert (Hc : 0 <= c <= 24) by nia.
  assert (He : 0 <= e <= 4) by nia.
  destruct (Z.eqb_spec e 4) as [e4|e4]; [|destruct (Z.eqb_spec b 4) as [b4|b4]];
    cbn [orb].
  - (* the last day of a leap year *)
    assert (c <= 23) by lia.
    unfold ymd2ord, days_before_month.
    rewrite (is_leap_spec _ a b c 3) by lia.
    rewrite (days_before_year_spec _ a b c 3) by lia.
    assert (b <= 3) by lia.
    replace (c =? 24) with false by (symmetry; apply Z.eqb_neq; lia).
    simpl. lia.
  - assert (r100 = 0) by lia. assert (c = 0) by lia. assert (e = 0) by lia.
    subst. unfold ymd2ord, days_before_month.
    rewrite (is_leap_spec _ a 3 24 3) by lia.
    rewrite (days_before_year_spec _ a 3 24 3) by lia.
    simpl. lia.
  - assert (Hb' : 0 <= b <= 3) by lia. assert (He' : 0 <= e <= 3) by lia.
    set (leapyear := (e =? 3) && (negb (c =? 24) || (b =? 3))).
    set (y := a * 400 + 1 + b * 100 + c * 4 + e).
    pose proof (month_day_ok r1 leapyear B4) as MD.
    unfold month_day in MD.
    destruct (r1 <? _).
    + unfold ymd2ord, days_before_month.
      rewrite (is_leap_spec y a b c e) by (unfold y; lia).
      rewrite (days_before_year_spec y a b c e) by (unfold y; lia).
      fold leapyear. lia.
    + unfold ymd2ord, days_before_month.
      rewrite (is_leap_spec y a b c e) by (unfold y; lia).
      rewrite (days_before_year_spec y a b c e) by (unfold y; lia).
      fold leapyear. lia.
Qed.

Lemma time_of_day_recompose t :
  let rest := t mod US_PER_DAY in
  let secs := rest / US_PER_SECOND in
  t / US_PER_DAY * US_PER_DAY
  + (secs / 3600 * 3600 + (secs mod 3600) / 60 * 60 + secs mod 60) * US_PER_SECOND
  + rest mod US_PER_SECOND = t.
Proof.
  intros rest secs.
  pose proof (Z.div_mod t US_PER_DAY ltac:(discriminate)) as E1.
  pose proof (Z.div_mod rest US_PER_SECOND ltac:(discriminate)) as E2.
  pose proof (Z.div_mod secs 3600 ltac:(discriminate)) as E3.
  pose proof (Z.div_mod (secs mod 3600) 60 ltac:(discriminate)) as E4.
  assert (E5 : (secs mod 3600) mod 60 = secs mod 60).
  { apply Z.mod_mod_divide. now exists 60. }
  fold rest in E1. fold secs in E2. rewrite E5 in E4. clear E5.
  set (q1 := t / US_PER_DAY) in *. set (r2 := rest mod US_PER_SECOND) in *.
  set (q3 := secs / 3600) in *. set (r3 := secs mod 3600) in *.
  set (q4 := r3 / 60) in *. set (r4 := secs mod 60) in *.
  clearbody q1 r2 q3 q4 r4 r3. clearbody secs. clearbody rest.
  unfold US_PER_DAY, US_PER_SECOND in *. lia.
Qed.

Lemma dt_add_td_ok d td :
  0 < (to_us d + td) / US_PER_DAY <= MAXORDINAL ->
  exists d', dt_add_td d td = Ret d' /\ to_us d' = to_us d + td.
Proof.
  intros [R1 R2]. unfold dt_add_td.
  pose proof (ymd2ord_ord2ymd ((to_us d + td) / US_PER_DAY) ltac:(lia)) as O.
  apply Z.ltb_lt in R1. apply Z.leb_le in R2. rewrite R1, R2. cbn [andb].
  destruct (ord2ymd ((to_us d + td) / US_PER_DAY)) as [[y m] dd].
  destruct O as [O _].
  eexists. split; [reflexivity|].
  unfold to_us at 1. unfold toordinal.
  cbn [year month day hour minute second microsecond].
  rewrite O. apply time_of_day_recompose.
Qed.

Lemma dt_add_td_inv d td d' :
  dt_add_td d td = Ret d' ->
  to_us d' = to_us d + td /\ 0 < (to_us d + td) / US_PER_DAY <= MAXORDINAL.
Proof.
  intros H.
  assert (R : 0 < (to_us d + td) / US_PER_DAY <= MAXORDINAL).
  { revert H. unfold dt_add_td.
    destruct (Z.ltb_spec 0 ((to_us d + td) / US_PER_DAY)); [|discriminate].
    destruct (Z.leb_spec ((to_us d + td) / US_PER_DAY) MAXORDINAL); [|discriminate].
    intros _. split; assumption. }
  split; [|exact R].
  destruct (dt_add_td_ok d td R) as (d'' & E & T). congruence.
Qed.

Lemma valid_time_of_day d :
  valid d = true ->
  0 <= (hour d * 3600 + minute d * 60 + second d) * US_PER_SECOND + microsecond d
    < US_PER_DAY.
Proof.
  unfold valid, valid_time. intros V.
  apply andb_true_iff in V as [_ V].
  repeat (apply andb_true_iff in V as [V ?]).
  unfold US_PER_DAY, US_PER_SECOND. lia.
Qed.

Lemma days_before_month_nonneg y m : 0 <= days_before_month y m.
Proof.
  unfold days_before_month.
  assert (0 <= DAYS_BEFORE_MONTH m).
  { unfold DAYS_BEFORE_MONTH. destruct m as [|p|p]; try lia.
    repeat (destruct p as [p|p|]; try lia). }
  destruct (_ && _); lia.
Qed.

Lemma toordinal_lower d :
  valid d = true -> 2 <= year d -> 366 <= toordinal d.
Proof.
  unfold valid, valid_date. intros V Hy.
  apply andb_true_iff in V as [V _].
  repeat (apply andb_true_iff in V as [V ?]).
  unfold toordinal, ymd2ord.
  pose proof (days_before_month_nonneg (year d) (month d)).
  assert (365 <= days_before_year (year d))
    by (unfold days_before_year; Z.div_mod_to_equations; lia).
  lia.
Qed.

End PyFacts.

(* ===================================================================== *)
(** * The time resolver                                                   *)
(* ===================================================================== *)

Module ParserFacts.
Import Py PyFacts session_parser samples.

Lemma after_digits_skip s : spec.after_digits s = skip is_digit s.
Proof. induction s as [|c s IH]; simpl; [reflexivity|]. now rewrite IH. Qed.

Lemma take_leading_digits s :
  take (slen s - slen (skip is_digit s)) s = spec.leading_digits s.
Proof.
  induction s as [|c s IH]; [reflexivity|].
  simpl. destruct (is_digit c) eqn:D.
  - assert (L := tail_of_slen (skip is_digit s) s).
    assert (T : tail_of (skip is_digit s) s).
    { clear. induction s as [|c s IH]; simpl; [apply tail_of_refl|].
      destruct (is_digit c); [|apply tail_of_refl].
      eapply tail_of_trans; [exact IH|]. now exists (String c EmptyString). }
    specialize (L T). unfold slen in *.
    replace (S (String.length s) - String.length (skip is_digit s))%nat
      with (S (String.length s - String.length (skip is_digit s)))%nat by lia.
    simpl. now rewrite IH.
  - simpl. now rewrite Nat.sub_diag.
Qed.

Lemma take_two c1 c2 rest :
  take (slen (String c1 (String c2 rest)) - slen rest) (String c1 (String c2 rest))
  = String c1 (String c2 EmptyString).
Proof.
  unfold slen. simpl String.length.
  replace (S (S (String.length rest)) - String.length rest)%nat with 2%nat by lia.
  reflexivity.
Qed.

Lemma suffix_total {R} (k : string -> groups -> option R) :
  (forall s g, k s g <> None) -> forall s g, rmatch suffix_re s g k <> None.
Proof.
  intros Hk s g. simpl.
  repeat match goal with
  | |- context [match ?x with _ => _ end] => destruct x eqn:?; try discriminate
  end; try apply Hk.
Qed.

Lemma time_token_refines tok :
  match re_match time_re (lower tok) with
  | Some m => spec.hour_of tok = Some (hour24 m)
  | None => spec.hour_of tok = None
  end.
Proof.
  unfold spec.hour_of, spec.token, re_match, match_at.
  set (t := lower tok).
  change time_re with (Seq (Grp 1 (Seq digit (Star digit))) suffix_re).
  cbn [rmatch].
  destruct t as [|c t']; [reflexivity|].
  unfold digit at 1. cbn [rmatch spec.leading_digits].
  destruct (is_digit c) eqn:D; [|reflexivity].
  unfold digit. rewrite star_cls_total.
  2:{ intros s g. apply suffix_total. intros; discriminate. }
  assert (TL : take (slen (String c t') - slen (skip is_digit t')) (String c t')
               = String c (spec.leading_digits t')).
  { generalize (take_leading_digits (String c t')).
    cbn [skip spec.leading_digits]. now rewrite D. }
  rewrite TL. clear TL.
  cbn [spec.after_digits]. rewrite D.
  rewrite after_digits_skip.
  set (ds := String c (spec.leading_digits t')).
  destruct (skip is_digit t') as [|c1 [|c2 rest]]; unfold suffix_re, Opt; cbn [rmatch Lit Chr];
   unfold spec.read_suffix; cbn [starts_with].
  all: rewrite ?take_two.
  all: repeat match goal with
       | |- context [Ascii.eqb ?a ?b] =>
           let E := fresh "E" in
           destruct (Ascii.eqb a b) eqn:E;
           [apply Ascii.eqb_eq in E; subst|]
       end; try discriminate.
  all: cbn [andb]; f_equal; unfold hour24, group_or_empty; cbn [m_groups group Nat.eqb];
       unfold spec.infer, spec.to_24h.
  all: destruct (int ds =? 12); reflexivity.
Qed.

Lemma parse_datetime_inv clk tok date t r t' :
  _parse_datetime clk tok date t = (Ret (Some r), t') ->
  exists m d y,
    re_match time_re (lower tok) = Some m
    /\ (y = year (clk t) \/ y = year (clk t) + 1)
    /\ strptime (date_str_full date y) = Ret d
    /\ replace_hm d (hour24 m) 0 = Ret r
    /\ t' = S (S t).
Proof.
  unfold _parse_datetime, bind, try_ValueError, lift, now, ret.
  intros H. destruct (re_match time_re (lower tok)) as [m|]; [|discriminate].
  exists m.
  repeat (break_match; simplify_eq); eauto 10.
Qed.

Lemma hour_of_match tok m :
  re_match time_re (lower tok) = Some m -> spec.hour_of tok = Some (hour24 m).
Proof. intros H. generalize (time_token_refines tok). now rewrite H. Qed.

(** What a resolved instant is made of. *)
Lemma parse_datetime_fields clk tok date t r t' :
  _parse_datetime clk tok date t = (Ret (Some r), t') ->
  spec.hour_of tok = Some (hour r)
  /\ 0 <= hour r <= 23
  /\ minute r = 0 /\ second r = 0 /\ microsecond r = 0.
Proof.
  intros H. apply parse_datetime_inv in H as (m & d & y & Hm & _ & Hd & Hr & _).
  apply replace_hm_inv in Hr as [-> Hh].
  apply strptime_midnight in Hd as (_ & _ & S0 & U0 & _).
  simpl. rewrite S0, U0. auto using hour_of_match.
Qed.

Lemma parse_inv clk s t sess t' :
  parse clk s t = (Ret (Some sess), t') ->
  exists p0 p1 tok_s tok_e rest t1,
    split "," s = [p0; p1]
    /\ split "-" (strip p0) = tok_s :: tok_e :: rest
    /\ session_str sess = s
    /\ _parse_datetime clk (strip tok_s) (strip p1) t = (Ret (Some (start_time sess)), t1)
    /\ _parse_datetime clk (strip tok_e) (strip p1) t1 = (Ret (Some (end_time sess)), t').
Proof.
  unfold parse. intros H.
  destruct (split "," s) as [|p0 [|p1 [|]]] eqn:E0; try discriminate.
  unfold bind, _parse_start_time, _parse_end_time, lift, index, ret in H.
  destruct (split "-" (strip p0)) as [|a [|b rest]] eqn:Es; simpl nth_error in H;
    unfold bind in H.
  - discriminate.
  - destruct (_parse_datetime clk (strip a) (strip p1) t) as [[?|?] ?]; discriminate.
  - destruct (_parse_datetime clk (strip a) (strip p1) t) as [[[st|]|?] t1] eqn:E1;
      try discriminate.
    + destruct (_parse_datetime clk (strip b) (strip p1) t1) as [[[et|]|?] t2] eqn:E2;
        try discriminate.
      injection H as <- <-.
      exists p0, p1, a, b, rest, t1. simpl. auto 10.
    + destruct (_parse_datetime clk (strip b) (strip p1) t1) as [[[et|]|?] t2] eqn:E2;
        discriminate.
Qed.

Lemma parse_no_dash clk s p0 p1 x t :
  split "," s = [p0; p1] -> split "-" (strip p0) = [x] ->
  exists e t', parse clk s t = (Raise e, t').
Proof.
  intros H1 H2. unfold parse. rewrite H1.
  unfold bind at 1.
  destruct (_parse_start_time clk (strip p0) (strip p1) t) as [[o|e] t1]; [|eauto].
  unfold bind, _parse_end_time, lift, index. rewrite H2. simpl. eauto.
Qed.

(** C1 (the code departs from it): [parse] is a total function, but on a
    descriptor whose time range has no dash it raises [IndexError], whatever
    the clock shows, and on a time token whose hour converts to a value
    above 23 it raises [ValueError]; neither input yields [None]. *)
Theorem parse_raises_on_malformed_input :
  (forall clk t, exists e t', parse clk "12pm, Saturday 4th October" t = (Raise e, t'))
  /\ parse (frozen new_year_2025) "12pm, Saturday 4th October" 0%nat
     = (Raise IndexError, 2%nat)
  /\ parse (frozen new_year_2025) "13pm-2pm, Saturday 4th October" 0%nat
     = (Raise ValueError, 1%nat).
Proof.
  split; [|split; vm_compute; reflexivity].
  intros clk t. eapply parse_no_dash; vm_compute; reflexivity.
Qed.

(** C6: for every descriptor that [parse] resolves, the hour of the start
    and of the end instant is the one that the conversion rules give for the
    respective time token: leading digits with an optional am/pm suffix, an
    absent suffix read as pm for a bare 12 and as am otherwise, pm adding 12
    unless the hour is 12, 12 am becoming 0; the minutes are 0.  For
    "11-1pm, Sunday 3rd November" the hours are 11 and 13
    ([resolve_november]). *)
Theorem hours_follow_conversion_table clk s t sess t' :
  parse clk s t = (Ret (Some sess), t') ->
  exists p0 p1 tok_s tok_e rest,
    split "," s = [p0; p1]
    /\ split "-" (strip p0) = tok_s :: tok_e :: rest
    /\ spec.hour_of (strip tok_s) = Some (hour (start_time sess))
    /\ spec.hour_of (strip tok_e) = Some (hour (end_time sess))
    /\ minute (start_time sess) = 0
    /\ minute (end_time sess) = 0.
Proof.
  intros H.
  apply parse_inv in H as (p0 & p1 & a & b & rest & t1 & H1 & H2 & _ & Hs & He).
  apply parse_datetime_fields in Hs as (? & _ & ? & _).
  apply parse_datetime_fields in He as (? & _ & ? & _).
  exists p0, p1, a, b, rest. auto 10.
Qed.

Example resolve_november :
  parse (frozen new_year_2025) "11-1pm, Sunday 3rd November" 0%nat
  = (Ret (Some november_session), 4%nat).
Proof. vm_compute. reflexivity. Qed.

Lemma hours_follow_conversion_table_witness :
  exists p0 p1 tok_s tok_e rest,
    split "," "11-1pm, Sunday 3rd November" = [p0; p1]
    /\ split "-" (strip p0) = tok_s :: tok_e :: rest
    /\ spec.hour_of (strip tok_s) = Some (hour (start_time november_session))
    /\ spec.hour_of (strip tok_e) = Some (hour (end_time november_session))
    /\ minute (start_time november_session) = 0
    /\ minute (end_time november_session) = 0.
Proof.
  apply (hours_follow_conversion_table (frozen new_year_2025)
           "11-1pm, Sunday 3rd November" 0%nat november_session 4%nat).
  vm_compute. reflexivity.
Defined.

Lemma cmp_same_date a b :
  year a = year b -> month a = month b -> day a = day b ->
  minute a = minute b -> second a = second b -> microsecond a = microsecond b ->
  (dt_ltb a b = true <-> hour a < hour b).
Proof.
  intros Hy Hm Hd Hmi Hs Hu. unfold dt_ltb, cmp.
  rewrite Hy, Hm, Hd, Hmi, Hs, Hu, !Z.compare_refl.
  destruct (hour a ?= hour b) eqn:E.
  - apply Z.compare_eq in E. split; [discriminate | lia].
  - rewrite Z.compare_lt_iff in E. tauto.
  - rewrite Z.compare_gt_iff in E. split; [discriminate | lia].
Qed.

Example resolve_october :
  parse (frozen new_year_2025) "12-2pm, Saturday 4th October" 0%nat
  = (Ret (Some october_session), 4%nat).
Proof. vm_compute. reflexivity. Qed.


Lemma new_datetime_error y m d h mi s us e :
  new_datetime y m d h mi s us = Raise e -> e = ValueError.
Proof. unfold new_datetime. destruct (_ && _); congruence. Qed.

Lemma strptime_error s e : strptime s = Raise e -> e = ValueError.
Proof.
  unfold strptime. destruct (re_match strptime_re s); [|congruence].
  destruct (negb _); [congruence|]. apply new_datetime_error.
Qed.

(** An hour that one parsed date accepts is accepted by every parsed date. *)
Lemma replace_hm_transfer s0 d0 s1 d1 h r0 :
  strptime s0 = Ret d0 -> strptime s1 = Ret d1 ->
  replace_hm d0 h 0 = Ret r0 ->
  exists r1, replace_hm d1 h 0 = Ret r1.
Proof.
  intros H0 H1 Hr. unfold replace_hm in *.
  apply new_datetime_inv in Hr as (_ & _ & Vt).
  apply strptime_midnight in H0 as (_ & _ & S0 & U0 & _).
  apply strptime_midnight in H1 as (_ & _ & S1 & U1 & Vd).
  unfold new_datetime. rewrite Vd, S1, U1. rewrite S0, U0 in Vt.
  rewrite Vt. simpl. eauto.
Qed.

(** The result of [_parse_datetime] once the current-year date is known. *)
Lemma parse_datetime_eval clk tok date t m d0 r0 :
  re_match time_re (lower tok) = Some m ->
  strptime (date_str_full date (year (clk t))) = Ret d0 ->
  replace_hm d0 (hour24 m) 0 = Ret r0 ->
  _parse_datetime clk tok date t
  = (Ret (Some
       (if dt_ltb r0 (clk (S t)) then
          match strptime (date_str_full date (year (clk t) + 1)) with
          | Ret d1 =>
              mkdt (year d1) (month d1) (day d1) (hour24 m) 0
                   (second d1) (microsecond d1)
          | Raise _ => r0
          end
        else r0)), S (S t)).
Proof.
  intros Hm H0 Hr. unfold _parse_datetime. rewrite Hm.
  unfold bind, now, lift, try_ValueError, ret. rewrite H0, Hr.
  destruct (dt_ltb r0 (clk (S t))); [|reflexivity].
  destruct (strptime (date_str_full date (year (clk t) + 1))) as [d1|e] eqn:H1.
  - destruct (replace_hm_transfer _ _ _ _ _ _ H0 H1 Hr) as [r1 Hr1].
    rewrite Hr1. apply replace_hm_inv in Hr1 as [-> _]. reflexivity.
  - apply strptime_error in H1 as ->. reflexivity.
Qed.

(** An instant that [_parse_datetime] returns in the year that the clock
    shows is the current-year instant; if it is in the past, the date does
    not exist in the next year. *)
Lemma parse_datetime_this_year clk tok date t r t' :
  _parse_datetime clk tok date t = (Ret (Some r), t') ->
  1000 <= year (clk t) <= 9998 ->
  year r = year (clk t) ->
  exists m d0,
    re_match time_re (lower tok) = Some m
    /\ strptime (date_str_full date (year (clk t))) = Ret d0
    /\ replace_hm d0 (hour24 m) 0 = Ret r
    /\ (dt_ltb r (clk (S t)) = true ->
        exists e, strptime (date_str_full date (year (clk t) + 1)) = Raise e).
Proof.
  intros H Hy Yr. pose proof H as H'.
  apply parse_datetime_inv in H' as (m & d & y & Hm & Y & Hd & Hr & _).
  destruct Y as [-> | ->].
  - exists m, d. repeat split; try assumption.
    intros Lt. rewrite (parse_datetime_eval _ _ _ _ _ _ _ Hm Hd Hr), Lt in H.
    destruct (strptime (date_str_full date (year (clk t) + 1))) as [d1|e] eqn:H1;
      [|eauto].
    exfalso. injection H as E _. rewrite <- E in Yr. simpl in Yr.
    apply strptime_year in H1; lia.
  - exfalso. apply replace_hm_inv in Hr as [-> _]. simpl in Yr.
    apply strptime_year in Hd; lia.
Qed.

Lemma later_hour_not_past d h1 h2 r1 r2 n :
  replace_hm d h1 0 = Ret r1 -> replace_hm d h2 0 = Ret r2 ->
  h1 < h2 -> dt_ltb r1 n = false -> dt_ltb r2 n = false.
Proof.
  intros H1 H2 Hh. apply replace_hm_inv in H1 as [-> _].
  apply replace_hm_inv in H2 as [-> _].
  unfold dt_ltb, cmp. simpl.
  destruct (year d ?= year n); try easy.
  destruct (month d ?= month n); try easy.
  destruct (day d ?= day n); try easy.
  destruct (h1 ?= hour n) eqn:E1; try easy.
  - apply Z.compare_eq in E1.
    assert (E2 : (h2 ?= hour n) = Gt) by (apply Z.compare_gt_iff; lia).
    now rewrite E2.
  - apply Z.compare_gt_iff in E1.
    assert (E2 : (h2 ?= hour n) = Gt) by (apply Z.compare_gt_iff; lia).
    now rewrite E2.
Qed.

(** With a clock that stands still, a session whose start is resolved in
    the current year and whose end hour is greater than its start hour has
    both instants on the same date, the end after the start. *)
Lemma session_in_current_year_is_ordered n s t sess t' :
  parse (frozen n) s t = (Ret (Some sess), t') ->
  1000 <= year n <= 9998 ->
  year (start_time sess) = year n ->
  hour (start_time sess) < hour (end_time sess) ->
  year (end_time sess) = year (start_time sess)
  /\ month (end_time sess) = month (start_time sess)
  /\ day (end_time sess) = day (start_time sess)
  /\ dt_ltb (start_time sess) (end_time sess) = true.
Proof.
  intros H Hy Ys Hh.
  apply parse_inv in H as (p0 & p1 & a & b & rest & t1 & _ & _ & _ & Hs & He).
  apply parse_datetime_this_year in Hs as (ms & d0 & Hms & H0 & Hrs & Past);
    [|exact Hy|exact Ys].
  unfold frozen in H0, Past.
  pose proof He as He'.
  apply parse_datetime_inv in He' as (me & d' & y & Hme & _ & Hd' & Hre' & _).
  pose proof (replace_hm_transfer _ _ _ _ _ _ Hd' H0 Hre') as [r0 Hre].
  assert (Hhe : hour (end_time sess) = hour24 me)
    by (apply replace_hm_inv in Hre' as [-> _]; reflexivity).
  assert (Hhs : hour (start_time sess) = hour24 ms)
    by (apply replace_hm_inv in Hrs as [-> _]; reflexivity).
  rewrite (parse_datetime_eval (frozen n) _ _ _ _ _ _ Hme H0 Hre) in He.
  unfold frozen in He.
  assert (E : end_time sess = r0).
  { destruct (dt_ltb r0 n) eqn:Le; [|congruence].
    destruct (dt_ltb (start_time sess) n) eqn:Ls.
    - destruct (Past eq_refl) as [e Err]. rewrite Err in He. congruence.
    - exfalso.
      assert (dt_ltb r0 n = false)
        by (eapply later_hour_not_past; [exact Hrs | exact Hre | lia | exact Ls]).
      congruence. }
  rewrite E in *.
  apply replace_hm_inv in Hrs as [Es _]. apply replace_hm_inv in Hre as [Ee _].
  rewrite Es, Ee in *. simpl in *. repeat split.
  apply cmp_same_date; simpl; try reflexivity. lia.
Qed.

(** C5 (amended): when the date phrase parses with the current year (a year
    of four digits) and the hour is valid, the current-year instant carries
    the current year; if it is strictly before the current time and the
    phrase also parses with the next year, the resolved year is advanced by
    exactly one; if the phrase does not parse with the next year, the
    current-year instant is kept; if the instant is not before the current
    time, it is the result.  With the clock on 2025-01-01,
    "12-2pm, Saturday 4th October" resolves to 2025-10-04 12:00 and 14:00
    ([resolve_october]). *)
Theorem year_rolls_forward_when_past clk t tok date m d0 r0 :
  re_match time_re (lower tok) = Some m ->
  1000 <= year (clk t) <= 9998 ->
  strptime (date_str_full date (year (clk t))) = Ret d0 ->
  replace_hm d0 (hour24 m) 0 = Ret r0 ->
  exists r,
    _parse_datetime clk tok date t = (Ret (Some r), S (S t))
    /\ year r0 = year (clk t)
    /\ if dt_ltb r0 (clk (S t)) then
         match strptime (date_str_full date (year (clk t) + 1)) with
         | Ret d1 =>
             replace_hm d1 (hour24 m) 0 = Ret r
             /\ year r = year (clk t) + 1
         | Raise _ => r = r0
         end
       else r = r0.
Proof.
  intros Hm Hy Hd Hr.
  rewrite (parse_datetime_eval _ _ _ _ _ _ _ Hm Hd Hr).
  eexists. split; [reflexivity|]. split.
  { apply replace_hm_inv in Hr as [-> _]. simpl.
    unfold date_str_full in Hd. apply strptime_year in Hd; [exact Hd | lia]. }
  destruct (dt_ltb r0 (clk (S t))); [|reflexivity].
  destruct (strptime (date_str_full date (year (clk t) + 1))) as [d1|e] eqn:Hd1;
    [|reflexivity].
  split.
  - destruct (replace_hm_transfer _ _ _ _ _ _ Hd Hd1 Hr) as [r1 Hr1].
    rewrite Hr1. f_equal. now apply replace_hm_inv in Hr1 as [-> _].
  - simpl. unfold date_str_full in Hd1.
    apply strptime_year in Hd1; [exact Hd1 | lia].
Qed.

Lemma year_rolls_forward_when_past_witness :
  exists r,
    _parse_datetime (frozen new_year_2025) "12" "Saturday 4th October" 0%nat
    = (Ret (Some r), 2%nat)
    /\ year (mkdt 2025 10 4 12 0 0 0) = year (frozen new_year_2025 0%nat)
    /\ r = mkdt 2025 10 4 12 0 0 0.
Proof.
  apply (year_rolls_forward_when_past (frozen new_year_2025) 0%nat
           "12" "Saturday 4th October"
           (mkMatch 0 2 "12" [(1%nat, "12")])
           (mkdt 2025 10 4 0 0 0 0) (mkdt 2025 10 4 12 0 0 0)).
  - vm_compute. reflexivity.
  - vm_compute. split; discriminate.
  - vm_compute. reflexivity.
  - vm_compute. reflexivity.
Defined.

(** With the clock on 1 March 2024 the phrase "Thursday 29th February"
    parses with the current year, the instant is in the past, and the
    resolved year is still 2024. *)
Lemma past_leap_day_keeps_its_year :
  strptime (date_str_full "Thursday 29th February" (year march_2024))
  = Ret (mkdt 2024 2 29 0 0 0 0)
  /\ dt_ltb leap_day_2024 march_2024 = true
  /\ _parse_datetime (frozen march_2024) "12" "Thursday 29th February" 0%nat
     = (Ret (Some leap_day_2024), 2%nat)
  /\ year leap_day_2024 <> year march_2024 + 1.
Proof. repeat split; try (vm_compute; reflexivity). vm_compute. discriminate. Qed.

End ParserFacts.

(* ===================================================================== *)
(** * Notification windowing                                              *)
(* ===================================================================== *)

Module NotifierFacts.
Import Py PyFacts session_parser notifier samples.

Lemma to_us_split d :
  valid d = true ->
  toordinal d * US_PER_DAY <= to_us d < toordinal d * US_PER_DAY + US_PER_DAY.
Proof. intros V. apply valid_time_of_day in V. unfold to_us. lia. Qed.

(** C3 (amended): with [upcoming_hours = 1] and notifications enabled, for a
    session that starts [m] minutes after the current instant
    [should_notify_upcoming] returns true exactly when [m] is less than five
    minutes away from 60: true at 58 and at 61 minutes, false at 70. *)
Theorem upcoming_fires_near_the_lead_time clk t self session m :
  enabled self = true ->
  upcoming_hours self = 1 ->
  valid (clk t) = true ->
  2 <= year (clk t) ->
  0 <= m ->
  dt_add_td (clk t) (minutes_us m) = Ret (start_time session) ->
  should_notify_upcoming clk self session t
  = (Ret (Z.abs (m - 60) <? 5), S t).
Proof.
  intros En Up V Y Hm Hs.
  apply dt_add_td_inv in Hs as [Ts Rs].
  pose proof (to_us_split _ V) as B.
  pose proof (toordinal_lower _ V Y) as O.
  unfold should_notify_upcoming, bind, now, lift, ret. rewrite En, Up. cbn [negb].
  change (timedelta_hours 1) with (Ret (A:=timedelta) 3600000000).
  cbv iota beta.
  unfold dt_sub_td.
  destruct (dt_add_td_ok (start_time session) (Z.opp 3600000000)) as (nt & E & T).
  { rewrite Ts. unfold minutes_us, US_PER_DAY, US_PER_SECOND, MAXORDINAL in *.
    set (u := to_us (clk t)) in *. set (o := toordinal (clk t)) in *.
    clearbody u o. clear -Rs B O Hm.
    split.
    - apply Z.div_str_pos; lia.
    - eapply Z.le_trans; [|apply Rs]. apply Z.div_le_mono; lia. }
  rewrite E. f_equal. f_equal.
  unfold abs_total_seconds_lt, dt_sub. rewrite T, Ts.
  unfold minutes_us, US_PER_SECOND.
  set (u := to_us (clk t)). clearbody u.
  destruct (Z.ltb_spec (Z.abs (m - 60)) 5),
    (Z.ltb_spec (Z.abs (u - (u + m * 60 * 1000000 + Z.opp 3600000000)))
                (300 * 1000000));
    try reflexivity; lia.
Qed.

Lemma upcoming_fires_near_the_lead_time_witness :
  should_notify_upcoming (frozen new_year_2025) hourly_notifier
    (session_at (mkdt 2025 1 1 0 58 0 0)) 0%nat
  = (Ret (Z.abs (58 - 60) <? 5), 1%nat).
Proof.
  apply (upcoming_fires_near_the_lead_time (frozen new_year_2025) 0%nat
           hourly_notifier (session_at (mkdt 2025 1 1 0 58 0 0)) 58).
  - reflexivity.
  - reflexivity.
  - vm_compute. reflexivity.
  - vm_compute. discriminate.
  - lia.
  - vm_compute. reflexivity.
Defined.

(** At midnight of 1 January 2025 a session starting at 01:01, that is 61
    minutes later, has its upcoming notification due. *)
Lemma upcoming_fires_at_61_minutes :
  dt_add_td new_year_2025 (minutes_us 61) = Ret (mkdt 2025 1 1 1 1 0 0)
  /\ should_notify_upcoming (frozen new_year_2025) hourly_notifier
       (session_at (mkdt 2025 1 1 1 1 0 0)) 0%nat
     = (Ret true, 1%nat).
Proof. split; vm_compute; reflexivity. Qed.

Example upcoming_window_samples :
  should_notify_upcoming (frozen new_year_2025) hourly_notifier
    (session_at (mkdt 2025 1 1 0 58 0 0)) 0%nat = (Ret true, 1%nat)
  /\ should_notify_upcoming (frozen new_year_2025) hourly_notifier
       (session_at (mkdt 2025 1 1 1 10 0 0)) 0%nat = (Ret false, 1%nat).
Proof. split; vm_compute; reflexivity. Qed.

End NotifierFacts.

(* ===================================================================== *)
(** * Descriptor extraction                                               *)
(* ===================================================================== *)

Module ScraperFacts.
Import Py session_parser octopus_scraper samples.

(** The patterns that are searched repeatedly never match the empty
    string. *)
Lemma patterns_consume :
  nullable br_re = false /\ nullable tag_re = false
  /\ nullable separator_re = false /\ nullable session_re = false
  /\ nullable ordinal_re = false.
Proof. repeat split. Qed.

End ScraperFacts.

(* ===================================================================== *)
(** * The calendar update                                                 *)
(* ===================================================================== *)

Module CalendarFacts.
Import Py session_parser ical_generator main samples.

(** C4 (the code departs from it): [generate] returns [False] on an empty
    list before it opens the output file, so [update_ical] with an empty
    working set leaves the file system as it was; a calendar written by an
    earlier run stays in place. *)
Theorem empty_update_leaves_stale_file :
  (forall clk to_ical str_timedelta strftime_uid self path fs t,
     generate clk to_ical str_timedelta strftime_uid self [] path fs t
     = (Ret (false, fs), t))
  /\ (forall clk to_ical str_timedelta strftime_uid days dir name gen fs t,
        update_ical clk to_ical str_timedelta strftime_uid
          (mkMonitor (mkConfig false days dir name) gen []) fs t
        = (Ret fs, S t))
  /\ (forall to_ical str_timedelta strftime_uid cleanup,
        exists fs',
          update_ical (frozen new_year_2025) to_ical str_timedelta strftime_uid
            (idle_monitor cleanup) stale_fs 0%nat
          = (Ret fs', 1%nat)
          /\ files fs' !! calendar_path
             = Some (Bytes "BEGIN:VCALENDAR (previous run)")).
Proof.
  split; [reflexivity|]. split; [reflexivity|].
  intros to_ical str_timedelta strftime_uid cleanup.
  exists stale_fs. split; [|reflexivity].
  destruct cleanup; reflexivity.
Qed.

End CalendarFacts.

(* ===================================================================== *)
(** * The session tracker                                                 *)
(* ===================================================================== *)

Module TrackerFacts.
Import Py main samples.

Lemma answer_query ms d w :
  answer (query ms d) w = Some (bool_decide (d ∉ flag_set ms (fst w))).
Proof. destruct w as [self fs], ms; reflexivity. Qed.

(** No call removes a descriptor from a flag set. *)
Lemma perform_grows ms c w :
  flag_set ms (fst w) ⊆ flag_set ms (fst (snd (perform c w))).
Proof. destruct w as [self fs], ms, c; simpl; set_solver. Qed.

Lemma perform_keeps_unmarked ms d c w :
  c <> mark ms d ->
  d ∉ flag_set ms (fst w) -> d ∉ flag_set ms (fst (snd (perform c w))).
Proof.
  destruct w as [self fs], ms, c as [x|x|x|x|x|x|x|x]; simpl; intros Hc Hd;
    try exact Hd;
    rewrite elem_of_union, elem_of_singleton; intros [Hx|Hx];
    [apply Hc; now rewrite Hx | now apply Hd
    |apply Hc; now rewrite Hx | now apply Hd
    |apply Hc; now rewrite Hx | now apply Hd].
Qed.

Lemma perform_mark ms d w : d ∈ flag_set ms (fst (snd (perform (mark ms d) w))).
Proof. destruct w as [self fs], ms; simpl; set_solver. Qed.

Lemma run_grows ms calls : forall w,
  flag_set ms (fst w) ⊆ flag_set ms (fst (run calls w)).
Proof.
  induction calls as [|c calls IH]; intros w; simpl; [reflexivity|].
  etrans; [apply (perform_grows ms c w)|]. apply IH.
Qed.

Lemma run_keeps_unmarked ms d calls : forall w,
  mark ms d ∉ calls ->
  d ∉ flag_set ms (fst w) -> d ∉ flag_set ms (fst (run calls w)).
Proof.
  induction calls as [|c calls IH]; intros w Hc Hd; simpl; [exact Hd|].
  apply not_elem_of_cons in Hc as [Hc1 Hc2].
  apply IH; [exact Hc2|]. apply perform_keeps_unmarked; [congruence | exact Hd].
Qed.

Lemma run_app calls1 calls2 w :
  run (calls1 ++ calls2) w = run calls2 (run calls1 w).
Proof. unfold run. apply fold_left_app. Qed.

(** C7: for every descriptor [d], every milestone and every sequence of
    tracker calls, starting where the flag of [d] is not set: the query
    [should_notify_*(d)] is true as long as [mark_notified_*(d)] has not been
    called, false right after that call, and false after any further calls,
    since no call removes a descriptor from a flag set. *)
Theorem notify_flag_fires_once ms d calls1 calls2 w :
  d ∉ flag_set ms (fst w) ->
  mark ms d ∉ calls1 ->
  answer (query ms d) (run calls1 w) = Some true
  /\ answer (query ms d) (run (calls1 ++ [mark ms d]) w) = Some false
  /\ answer (query ms d) (run (calls1 ++ mark ms d :: calls2) w) = Some false.
Proof.
  intros Hd Hc. rewrite !answer_query. repeat split; f_equal.
  - apply bool_decide_eq_true. now apply run_keeps_unmarked.
  - apply bool_decide_eq_false. intros N. apply N.
    rewrite run_app. simpl. apply perform_mark.
  - apply bool_decide_eq_false. intros N. apply N.
    rewrite run_app. simpl. apply run_grows, perform_mark.
Qed.

Lemma notify_flag_fires_once_witness :
  answer (query Upcoming october)
    (run [Is_new_session october; Mark_seen october; Should_notify_upcoming october]
         fresh_world) = Some true
  /\ answer (query Upcoming october)
       (run ([Is_new_session october; Mark_seen october; Should_notify_upcoming october]
             ++ [mark Upcoming october]) fresh_world) = Some false
  /\ answer (query Upcoming october)
       (run ([Is_new_session october; Mark_seen october; Should_notify_upcoming october]
             ++ mark Upcoming october
                :: [Should_notify_upcoming october; Mark_notified_start october;
                    Should_notify_upcoming october]) fresh_world) = Some false.
Proof.
  apply (notify_flag_fires_once Upcoming october).
  - simpl. apply not_elem_of_empty.
  - intros H. repeat (apply elem_of_cons in H as [H|H]; [discriminate|]).
    now apply elem_of_nil in H.
Defined.

(** C10: the four queries [is_new_session], [should_notify_upcoming],
    [should_notify_start] and [should_notify_end] leave the tracker's four
    flag sets and the file system, the state file included, as they were;
    a call that changes either is one of the four marks. *)
Theorem queries_leave_state_unchanged :
  (forall d w,
     snd (perform (Is_new_session d) w) = w
     /\ snd (perform (Should_notify_upcoming d) w) = w
     /\ snd (perform (Should_notify_start d) w) = w
     /\ snd (perform (Should_notify_end d) w) = w)
  /\ (forall c w, snd (perform c w) = w \/ is_query c = false).
Proof.
  split.
  - intros d [self fs]. repeat split.
  - intros c [self fs]. destruct c; simpl; auto.
Qed.

Lemma set_of_list_strs (l : list string) :
  set_of_list (map JStr l) = Ret (list_to_set l).
Proof.
  induction l as [|x l IH]; simpl; [reflexivity|]. now rewrite IH.
Qed.

(** A set written as a JSON array is read back as the same set. *)
Lemma py_set_json_of_set (X : gset string) : py_set (json_of_set X) = Ret X.
Proof.
  unfold json_of_set, py_set. rewrite set_of_list_strs.
  f_equal. apply list_to_set_elements_L.
Qed.

Lemma state_document_fields self :
  dict_get (state_document self) "seen_sessions"
  = Ret (json_of_set (seen_sessions self))
  /\ dict_get (state_document self) "notified_upcoming"
     = Ret (json_of_set (notified_upcoming self))
  /\ dict_get (state_document self) "notified_start"
     = Ret (json_of_set (notified_start self))
  /\ dict_get (state_document self) "notified_end"
     = Ret (json_of_set (notified_end self)).
Proof. repeat split. Qed.

Lemma load_saved_document (self0 self : SessionTracker) :
  load_fields self0 (state_document self)
  = mkSessionTracker (state_file self0) (seen_sessions self)
      (notified_upcoming self) (notified_start self) (notified_end self).
Proof.
  destruct (state_document_fields self) as (E1 & E2 & E3 & E4).
  unfold load_fields. rewrite E1, E2, E3, E4. unfold obind.
  rewrite !py_set_json_of_set. reflexivity.
Qed.

(** Saving and then starting a new tracker on the same file gives the
    tracker back, provided the file can be written. *)
Lemma save_then_load self fs :
  state_file self ∉ denied fs ->
  new_SessionTracker (state_file self) (_save_state self fs) = self.
Proof.
  intros W. unfold _save_state, fs_write. rewrite decide_False by exact W.
  unfold new_SessionTracker, _load_state, fs_exists, json_load. simpl.
  rewrite lookup_insert_eq. rewrite load_saved_document. now destruct self.
Qed.




End TrackerFacts.

(* ===================================================================== *)
(** * Strings: reversal, splitting, stripping                             *)
(* ===================================================================== *)

Module StringFacts.
Import Py PyFacts.

Lemma app_empty_r (a : string) : a +:+ EmptyString = a.
Proof. induction a as [|c a IH]; [reflexivity|]. rewrite app_cons. now rewrite IH. Qed.

Lemma rev_app_rev_app (a : string) : forall b c,
  String.rev_app (String.rev_app a b) c = String.rev_app b (a +:+ c).
Proof.
  induction a as [|x a IH]; intros b c; simpl; [reflexivity|].
  rewrite IH. reflexivity.
Qed.

Lemma rev_rev (a : string) : String.rev (String.rev a) = a.
Proof. unfold String.rev. rewrite rev_app_rev_app. simpl. apply app_empty_r. Qed.

Lemma split_go_no_sep sep (k : string) : forall cur,
  count_char sep k = O ->
  split_go sep cur k = [String.rev (String.rev_app k cur)].
Proof.
  induction k as [|x k IH]; intros cur H; simpl in *; [reflexivity|].
  destruct (Ascii.eqb x sep); [discriminate|]. now apply IH.
Qed.

Lemma split_go_first sep (k : string) : forall cur rest,
  count_char sep k = O ->
  split_go sep cur (k +:+ String sep rest)
  = String.rev (String.rev_app k cur) :: split_go sep EmptyString rest.
Proof.
  induction k as [|x k IH]; intros cur rest H; simpl in *.
  - rewrite ?app_nil. simpl. now rewrite Ascii.eqb_refl.
  - rewrite ?app_cons. simpl.
    destruct (Ascii.eqb x sep); [discriminate|]. now apply IH.
Qed.

(** A string without the separator is the only piece of its split. *)
Lemma split_no_sep sep k : count_char sep k = O -> split sep k = [k].
Proof.
  intros H. unfold split. rewrite split_go_no_sep by exact H.
  change (String.rev_app k EmptyString) with (String.rev k). now rewrite rev_rev.
Qed.

(** The first piece of a split ends at the first separator. *)
Lemma split_first sep k rest :
  count_char sep k = O ->
  split sep (k +:+ String sep rest) = k :: split sep rest.
Proof.
  intros H. unfold split. rewrite split_go_first by exact H.
  change (String.rev_app k EmptyString) with (String.rev k). now rewrite rev_rev.
Qed.

Lemma split_go_length sep (s : string) : forall cur,
  length (split_go sep cur s) = S (count_char sep s).
Proof.
  induction s as [|x s IH]; intros cur; simpl; [reflexivity|].
  destruct (Ascii.eqb x sep); simpl; now rewrite IH.
Qed.

(** A split has one piece more than the string has separators. *)
Lemma split_length sep s : length (split sep s) = S (count_char sep s).
Proof. apply split_go_length. Qed.

Lemma split_not_nil sep s : split sep s <> [].
Proof. intros E. pose proof (split_length sep s) as L. now rewrite E in L. Qed.

Lemma count_char_app c (a b : string) :
  count_char c (a +:+ b) = (count_char c a + count_char c b)%nat.
Proof.
  induction a as [|x a IH]; [reflexivity|].
  rewrite app_cons. simpl. rewrite IH. lia.
Qed.

Lemma all_chars_app p (a b : string) :
  all_chars p (a +:+ b) = all_chars p a && all_chars p b.
Proof.
  induction a as [|c a IH]; [reflexivity|].
  rewrite app_cons. simpl. rewrite IH. now rewrite andb_assoc.
Qed.

Lemma all_chars_weaken (p q : ascii -> bool) s :
  (forall c, p c = true -> q c = true) ->
  all_chars p s = true -> all_chars q s = true.
Proof.
  intros Hpq. induction s as [|c s IH]; simpl; [reflexivity|].
  intros H. apply andb_true_iff in H as [H1 H2].
  rewrite (Hpq c H1). now apply IH.
Qed.

Lemma all_chars_count p c s :
  all_chars p s = true -> p c = false -> count_char c s = O.
Proof.
  intros H Hc. induction s as [|x s IH]; simpl in *; [reflexivity|].
  apply andb_true_iff in H as [H1 H2].
  destruct (Ascii.eqb_spec x c) as [->|_]; [congruence|]. now apply IH.
Qed.

Lemma all_chars_rev_app p (a : string) : forall b,
  all_chars p (String.rev_app a b) = all_chars p a && all_chars p b.
Proof.
  induction a as [|c a IH]; intros b; simpl; [reflexivity|].
  rewrite IH. simpl. destruct (p c), (all_chars p a); reflexivity.
Qed.

Lemma lstrip_id s : all_chars not_space s = true -> lstrip s = s.
Proof.
  destruct s as [|c s]; [reflexivity|]. unfold not_space. simpl. intros H.
  apply andb_true_iff in H as [H _]. now destruct (is_space c).
Qed.

(** [strip] leaves a string without white space as it is. *)
Lemma strip_id s : all_chars not_space s = true -> strip s = s.
Proof.
  intros H. unfold strip. rewrite (lstrip_id s H).
  rewrite lstrip_id; [apply rev_rev|].
  unfold String.rev. rewrite all_chars_rev_app. now rewrite H.
Qed.

Lemma take_app (a b : string) : take (slen (a +:+ b) - slen b) (a +:+ b) = a.
Proof.
  rewrite slen_app. replace (slen a + slen b - slen b)%nat with (slen a) by lia.
  induction a as [|c a IH]; [now destruct b|].
  rewrite app_cons. simpl. now rewrite IH.
Qed.

End StringFacts.

(* ===================================================================== *)
(** * The matcher finds strings of the expression's language              *)
(* ===================================================================== *)

Module RegexFacts.
Import Py PyFacts StringFacts.

Lemma star_loop_sound {R} (r : regex)
    (k : string -> groups -> option R) :
  (forall s g (k' : string -> groups -> option R) x, rmatch r s g k' = Some x ->
     exists pre s1 g1, s = pre +:+ s1 /\ matches r pre /\ k' s1 g1 = Some x) ->
  forall n s g x, star_loop (rmatch r) k n s g = Some x ->
    exists pre s1 g1, s = pre +:+ s1 /\ matches (Star r) pre /\ k s1 g1 = Some x.
Proof.
  intros Hstep. induction n as [|n IH]; intros s g x H; simpl in H.
  - exists EmptyString, s, g. repeat split; [constructor | exact H].
  - destruct (rmatch r s g _) as [y|] eqn:E.
    + injection H as ->.
      apply Hstep in E as (pre1 & s1 & g1 & -> & M1 & E1).
      destruct (Nat.ltb (slen s1) (slen (pre1 +:+ s1))); [|discriminate].
      apply IH in E1 as (pre2 & s2 & g2 & -> & M2 & E2).
      exists (pre1 +:+ pre2), s2, g2. repeat split.
      * symmetry. apply app_assoc_s.
      * now constructor.
      * exact E2.
    + exists EmptyString, s, g. repeat split; [constructor | exact H].
Qed.

(** When the matcher succeeds on [s], it has consumed a prefix of [s]
    that belongs to the language of the expression, and has passed the
    rest to its continuation. *)
Lemma rmatch_sound (r : regex) : forall R (k : string -> groups -> option R) s g x,
  rmatch r s g k = Some x ->
  exists pre s1 g1, s = pre +:+ s1 /\ matches r pre /\ k s1 g1 = Some x.
Proof.
  induction r as [|p|r1 IH1 r2 IH2|r1 IH1 r2 IH2|r1 IH1|i r1 IH1];
    intros R k s g x H; simpl in H.
  - exists EmptyString, s, g. repeat split; [constructor | exact H].
  - destruct s as [|c s']; [discriminate|].
    destruct (p c) eqn:Pc; [|discriminate].
    exists (String c EmptyString), s', g. repeat split; [now constructor | exact H].
  - apply IH1 in H as (pre1 & s1 & g1 & -> & M1 & H).
    apply IH2 in H as (pre2 & s2 & g2 & -> & M2 & H).
    exists (pre1 +:+ pre2), s2, g2. repeat split;
      [symmetry; apply app_assoc_s | now constructor | exact H].
  - destruct (rmatch r1 s g k) as [y|] eqn:E.
    + injection H as ->. apply IH1 in E as (pre & s1 & g1 & -> & M & E1).
      exists pre, s1, g1. repeat split; [now apply M_AltL | exact E1].
    + apply IH2 in H as (pre & s1 & g1 & -> & M & E2).
      exists pre, s1, g1. repeat split; [now apply M_AltR | exact E2].
  - eapply star_loop_sound; [|exact H].
    intros s0 g0 k' x0 H0. now apply IH1 in H0.
  - apply IH1 in H as (pre & s1 & g1 & -> & M & H).
    eexists pre, s1, _. repeat split; [now constructor | exact H].
Qed.

Lemma match_at_sound r pos s m :
  match_at r pos s = Some m -> matches r (m_text m).
Proof.
  unfold match_at. intros H.
  apply rmatch_sound in H as (pre & s1 & g1 & -> & M & H).
  injection H as <-. simpl. now rewrite take_app.
Qed.

Lemma scan_sound r (s : string) : forall pending gap gm,
  In gm (fst (scan r s pending gap)) -> matches r (m_text (snd gm)).
Proof.
  induction s as [|c s IH]; intros pending gap gm H.
  - destruct pending; simpl in H.
    + destruct (match_at r 0 EmptyString) as [m|]; [destruct (m_end m)|]; contradiction.
    + contradiction.
  - destruct pending as [|pending]; simpl in H.
    + destruct (match_at r 0 (String c s)) as [m|] eqn:E.
      * destruct (m_end m) as [|n].
        -- eapply IH; exact H.
        -- destruct (scan r s n EmptyString) as [ms tl] eqn:Es. simpl in H.
           destruct H as [<- | H].
           ++ simpl. eapply match_at_sound; exact E.
           ++ eapply (IH n EmptyString). rewrite Es. exact H.
      * eapply IH; exact H.
    + eapply IH; exact H.
Qed.

(** Every string that [re.findall] returns belongs to the language of
    the expression. *)
Lemma findall_sound r s d : In d (re_findall r s) -> matches r d.
Proof.
  unfold re_findall, finditer. intros H. apply in_map_iff in H as (gm & <- & H).
  eapply scan_sound; exact H.
Qed.

(** A string of the language is written in the alphabet of the
    expression. *)
Lemma matches_alphabet r s : matches r s -> all_chars (alphabet r) s = true.
Proof.
  induction 1; simpl; try reflexivity.
  - now rewrite H.
  - rewrite all_chars_app. apply andb_true_iff. split.
    + eapply all_chars_weaken; [|exact IHmatches1]. intros c Hc. now rewrite Hc.
    + eapply all_chars_weaken; [|exact IHmatches2].
      intros c Hc. rewrite Hc. apply orb_true_r.
  - eapply all_chars_weaken; [|exact IHmatches]. intros c Hc. now rewrite Hc.
  - eapply all_chars_weaken; [|exact IHmatches].
    intros c Hc. rewrite Hc. apply orb_true_r.
  - rewrite all_chars_app. apply andb_true_iff.
    split; [exact IHmatches1 | exact IHmatches2].
  - exact IHmatches.
Qed.

Lemma matches_count r s c :
  matches r s -> alphabet r c = false -> count_char c s = O.
Proof.
  intros M A. apply (all_chars_count (alphabet r) c s); [|exact A].
  now apply matches_alphabet.
Qed.

Lemma matches_seq_inv r1 r2 s :
  matches (Seq r1 r2) s ->
  exists s1 s2, s = s1 +:+ s2 /\ matches r1 s1 /\ matches r2 s2.
Proof. inversion 1; subst. eauto. Qed.

Lemma matches_chr_inv c s : matches (Chr c) s -> s = String c EmptyString.
Proof.
  unfold Chr. inversion 1; subst. f_equal.
  symmetry. now apply Ascii.eqb_eq.
Qed.

End RegexFacts.

(* ===================================================================== *)
(** * The date of a resolved session                                      *)
(* ===================================================================== *)

Module DateFacts.
Import Py PyFacts StringFacts RegexFacts session_parser samples ParserFacts.

(** ** Capturing groups *)




(** ** classes *)












(** ** The day and the month of a date phrase *)






(** ** The text of a year *)






(** ** Splitting at the last white space *)









End DateFacts.

(* ===================================================================== *)
(** * The block of sessions in a page                                     *)
(* ===================================================================== *)

Module ExtractionFacts.
Import Py PyFacts StringFacts RegexFacts session_parser octopus_scraper samples.

(** ** Searching *)

(** Whether a match is found does not depend on what is done with it. *)
Lemma star_loop_success {R R'} (step : forall X, string -> groups -> (string -> groups -> option X) -> option X)
    (k : string -> groups -> option R) (k' : string -> groups -> option R') :
  (forall (c : string -> groups -> option R) (c' : string -> groups -> option R'),
     (forall s g, c s g = None <-> c' s g = None) ->
     forall s g, step R s g c = None <-> step R' s g c' = None) ->
  (forall s g, k s g = None <-> k' s g = None) ->
  forall n s g,
    star_loop (step R) k n s g = None <-> star_loop (step R') k' n s g = None.
Proof.
  intros Hstep Hk. induction n as [|n IH]; intros s g; simpl; [apply Hk|].
  set (c := fun s1 g1 => if Nat.ltb (slen s1) (slen s)
                         then star_loop (step R) k n s1 g1 else None).
  set (c' := fun s1 g1 => if Nat.ltb (slen s1) (slen s)
                          then star_loop (step R') k' n s1 g1 else None).
  assert (Hc : forall s1 g1, c s1 g1 = None <-> c' s1 g1 = None).
  { intros s1 g1. unfold c, c'. destruct (Nat.ltb (slen s1) (slen s)); [apply IH | tauto]. }
  pose proof (Hstep c c' Hc s g) as Hs.
  destruct (step R s g c) eqn:E1, (step R' s g c') eqn:E2.
  - split; discriminate.
  - destruct Hs as [_ Hs]. specialize (Hs eq_refl). discriminate.
  - destruct Hs as [Hs _]. specialize (Hs eq_refl). discriminate.
  - apply Hk.
Qed.

Lemma rmatch_success (r : regex) :
  forall R R' (k : string -> groups -> option R) (k' : string -> groups -> option R'),
    (forall s g, k s g = None <-> k' s g = None) ->
    forall s g, rmatch r s g k = None <-> rmatch r s g k' = None.
Proof.
  induction r as [|p|r1 IH1 r2 IH2|r1 IH1 r2 IH2|r1 IH1|i r1 IH1];
    intros R R' k k' Hk s g; simpl.
  - apply Hk.
  - destruct s as [|c s']; [tauto|]. destruct (p c); [apply Hk | tauto].
  - apply IH1. intros s1 g1. now apply IH2.
  - pose proof (IH1 R R' k k' Hk s g) as H1.
    pose proof (IH2 R R' k k' Hk s g) as H2.
    destruct (rmatch r1 s g k), (rmatch r1 s g k').
    + split; discriminate.
    + destruct H1 as [_ H1]. specialize (H1 eq_refl). discriminate.
    + destruct H1 as [H1 _]. specialize (H1 eq_refl). discriminate.
    + exact H2.
  - apply (star_loop_success (fun X => @rmatch X r1)); [|exact Hk].
    intros c c' Hc s0 g0. now apply IH1.
  - apply IH1. intros s1 g1. apply Hk.
Qed.

(** A match at one offset is a match at every offset. *)
Lemma match_at_shift r pos pos' s :
  match_at r pos s = None <-> match_at r pos' s = None.
Proof. unfold match_at. apply rmatch_success. intros s1 g1. split; discriminate. Qed.

Lemma match_at_start r pos s m : match_at r pos s = Some m -> m_start m = pos.
Proof.
  unfold match_at. intros H. apply rmatch_tail in H as (s1 & g1 & _ & H).
  now injection H as <-.
Qed.

(** [re.search] returns the match at the first offset that has one. *)
Lemma search_from_found r (s : string) : forall pos m,
  search_from r pos s = Some m ->
  match_at r (m_start m) (drop (m_start m - pos) s) = Some m
  /\ (pos <= m_start m)%nat.
Proof.
  induction s as [|c s IH]; intros pos m H; simpl in H.
  - destruct (match_at r pos EmptyString) as [m'|] eqn:E; [|discriminate].
    injection H as ->. rewrite (match_at_start _ _ _ _ E).
    rewrite Nat.sub_diag. auto.
  - destruct (match_at r pos (String c s)) as [m'|] eqn:E.
    + injection H as ->. rewrite (match_at_start _ _ _ _ E).
      rewrite Nat.sub_diag. auto.
    + apply IH in H as [H L]. split; [|lia].
      replace (m_start m - pos)%nat with (S (m_start m - S pos)) by lia.
      exact H.
Qed.

Lemma search_from_miss r pos c s :
  match_at r pos (String c s) = None ->
  search_from r pos (String c s) = search_from r (S pos) s.
Proof. intros H. simpl. now rewrite H. Qed.

Lemma search_from_hit r pos s :
  match_at r 0 s <> None ->
  exists m, search_from r pos s = Some m /\ m_start m = pos.
Proof.
  intros H. destruct (match_at r pos s) as [m|] eqn:E.
  - exists m. split; [|eapply match_at_start; exact E].
    destruct s; simpl; now rewrite E.
  - apply (match_at_shift r pos 0) in E. contradiction.
Qed.

Lemma drop_app (a : string) : forall b n, drop (slen a + n) (a +:+ b) = drop n b.
Proof.
  induction a as [|c a IH]; intros b n; [reflexivity|].
  rewrite app_cons. simpl. apply IH.
Qed.

Lemma take_exact (a : string) : forall b, take (slen a) (a +:+ b) = a.
Proof.
  induction a as [|c a IH]; intros b.
  - rewrite app_nil. now destruct b.
  - rewrite app_cons. simpl. now rewrite IH.
Qed.

(** A starred expression whose first iteration fails matches nothing. *)
Lemma star_loop_stop {R}
    (step : string -> groups -> (string -> groups -> option R) -> option R)
    (k : string -> groups -> option R) n s g :
  (forall k', step s g k' = None) -> star_loop step k n s g = k s g.
Proof. intros H. destruct n; simpl; [reflexivity | now rewrite H]. Qed.

(** ** The heading of the sample markup *)

(** Evaluates the tests on the known characters of a string whose end is
    not known. *)
Ltac known_chars H :=
  repeat match type of H with
         | context [Ascii.eqb ?a ?b] =>
             let v := eval vm_compute in (Ascii.eqb a b) in
             change (Ascii.eqb a b) with v in H
         | context [is_space ?a] =>
             let v := eval vm_compute in (is_space a) in
             change (is_space a) with v in H
         | context [is_digit ?a] =>
             let v := eval vm_compute in (is_digit a) in
             change (is_digit a) with v in H
         end;
  cbv beta iota in H.

(** The heading pattern at the head of the sample markup. *)
Lemma next_heading_at pos rest m :
  match_at next_re pos (next_sessions_markup +:+ rest) = Some m ->
  m_end m = (pos + 14)%nat.
Proof.
  unfold match_at, next_re, next_sessions_markup.
  cbv beta iota delta [String.append].
  intros H.
  cbn [rmatch LitI ChrI Chr Opt spaces1 Plus] in H.
  known_chars H.
  rewrite star_loop_stop in H by (intros; reflexivity).
  known_chars H.
  injection H as <-. cbn [m_end]. f_equal.
  unfold slen. simpl. lia.
Qed.

(** ** Substitution, step by step *)

Lemma re_sub_scan r repl s : re_sub r repl s = sub_scan r repl s 0 EmptyString.
Proof. reflexivity. Qed.

Lemma sub_scan_end r repl gap :
  sub_scan r repl EmptyString 0 gap = String.rev gap.
Proof.
  unfold sub_scan. simpl.
  destruct (match_at r 0 EmptyString) as [m|]; [|reflexivity].
  destruct (m_end m); reflexivity.
Qed.

Lemma sub_scan_miss r repl c s gap :
  match_at r 0 (String c s) = None ->
  sub_scan r repl (String c s) 0 gap = sub_scan r repl s 0 (String c gap).
Proof. intros H. unfold sub_scan. simpl. now rewrite H. Qed.

Lemma sub_scan_hit r repl c s gap m n :
  match_at r 0 (String c s) = Some m -> m_end m = S n ->
  sub_scan r repl (String c s) 0 gap
  = String.rev gap +:+ repl m +:+ sub_scan r repl s n EmptyString.
Proof.
  intros H E. unfold sub_scan. simpl. rewrite H, E.
  destruct (scan r s n EmptyString) as [ms tl]. reflexivity.
Qed.

Lemma sub_scan_skip r repl (a : string) : forall s n gap,
  sub_scan r repl (a +:+ s) (slen a + n) gap = sub_scan r repl s n gap.
Proof.
  induction a as [|c a IH]; intros s n gap; [reflexivity|].
  rewrite app_cons. unfold sub_scan in *. simpl. apply IH.
Qed.

Lemma sub_scan_run r repl (a : string) : forall s gap,
  opens_with_lt r ->
  all_chars (fun c => negb (Ascii.eqb c "<")) a = true ->
  sub_scan r repl (a +:+ s) 0 gap = sub_scan r repl s 0 (String.rev_app a gap).
Proof.
  induction a as [|c a IH]; intros s gap O H; [reflexivity|].
  simpl in H. apply andb_true_iff in H as [H1 H2]. apply negb_true_iff in H1.
  rewrite app_cons, sub_scan_miss by (now apply O). simpl. now apply IH.
Qed.

Lemma search_run r (a : string) : forall s pos,
  opens_with_lt r ->
  all_chars (fun c => negb (Ascii.eqb c "<")) a = true ->
  search_from r pos (a +:+ s) = search_from r (pos + slen a) s.
Proof.
  induction a as [|c a IH]; intros s pos O H.
  - rewrite app_nil. simpl. now rewrite Nat.add_0_r.
  - simpl in H. apply andb_true_iff in H as [H1 H2]. apply negb_true_iff in H1.
    rewrite app_cons, search_from_miss by (now apply O).
    rewrite IH by assumption. f_equal. simpl. lia.
Qed.

Lemma br_opens : opens_with_lt br_re.
Proof. intros c s pos H. unfold match_at, br_re. cbn [rmatch Chr]. now rewrite Ascii.eqb_sym, H. Qed.

Lemma tag_opens : opens_with_lt tag_re.
Proof. intros c s pos H. unfold match_at, tag_re. cbn [rmatch Chr]. now rewrite Ascii.eqb_sym, H. Qed.

Lemma heading_opens : opens_with_lt heading_re.
Proof. intros c s pos H. unfold match_at, heading_re. cbn [rmatch Chr]. now rewrite Ascii.eqb_sym, H. Qed.

Lemma space_not_lt c : is_space c = true -> Ascii.eqb c "<" = false.
Proof. destruct c as [[] [] [] [] [] [] [] []]; vm_compute; congruence. Qed.

Lemma tag_char_not_lt name :
  all_chars tag_char name = true ->
  all_chars (fun c => negb (Ascii.eqb c "<")) name = true.
Proof.
  apply all_chars_weaken. intros c H. unfold tag_char in H.
  now apply andb_true_iff in H as [H _].
Qed.

Lemma rev_app_app (a : string) : forall b, String.rev_app a b = String.rev a +:+ b.
Proof.
  unfold String.rev.
  induction a as [|c a IH]; intros b; simpl; [reflexivity|].
  rewrite IH. rewrite (IH (String c EmptyString)). now rewrite app_assoc_s.
Qed.

Lemma rev_cons_app c gap s :
  String.rev (String c gap) +:+ s = String.rev gap +:+ String c s.
Proof.
  unfold String.rev. simpl. rewrite (rev_app_app gap (String c EmptyString)).
  rewrite app_assoc_s. reflexivity.
Qed.

Lemma rev_rev_app (a : string) b c :
  String.rev (String.rev_app a b) +:+ c = String.rev b +:+ a +:+ c.
Proof.
  rewrite <- (rev_app_app (String.rev_app a b) c), rev_app_rev_app.
  apply rev_app_app.
Qed.

Lemma rev_of_app (x : string) : forall y,
  String.rev (x +:+ y) = String.rev y +:+ String.rev x.
Proof.
  induction x as [|c x IH]; intros y.
  - rewrite app_nil. symmetry. apply app_empty_r.
  - rewrite app_cons. unfold String.rev at 1 3. simpl.
    rewrite !(rev_app_app _ (String c EmptyString)). rewrite IH.
    apply app_assoc_s.
Qed.

(** ** White space and closing tags after the block *)

Lemma search_trailer T :
  trailer T ->
  forall s pos,
    search_from heading_re pos (T +:+ s) = search_from heading_re (pos + slen T) s.
Proof.
  induction 1 as [|c T Hc HT IH|name T Hn HT IH]; intros s pos.
  - rewrite app_nil. simpl. now rewrite Nat.add_0_r.
  - rewrite app_cons, search_from_miss
      by (apply heading_opens; now apply space_not_lt).
    rewrite IH. f_equal. simpl. lia.
  - rewrite !app_assoc_s, !app_cons, !app_nil.
    rewrite search_from_miss by reflexivity.
    rewrite search_from_miss by reflexivity.
    rewrite search_run by (apply heading_opens || now apply tag_char_not_lt).
    rewrite search_from_miss by reflexivity.
    rewrite IH. f_equal.
    pose proof (slen_app name (String ">" T)) as L. unfold slen in *. simpl in *. lia.
Qed.

Lemma br_trailer repl T :
  trailer T ->
  forall gap, sub_scan br_re repl T 0 gap = String.rev gap +:+ T.
Proof.
  induction 1 as [|c T Hc HT IH|name T Hn HT IH]; intros gap.
  - rewrite sub_scan_end. symmetry. apply app_empty_r.
  - rewrite sub_scan_miss by (apply br_opens; now apply space_not_lt).
    rewrite IH. apply rev_cons_app.
  - rewrite ?app_assoc_s, !app_cons, !app_nil.
    rewrite sub_scan_miss by reflexivity.
    rewrite sub_scan_miss by reflexivity.
    rewrite sub_scan_run by (apply br_opens || now apply tag_char_not_lt).
    rewrite sub_scan_miss by reflexivity.
    rewrite IH. rewrite rev_cons_app, rev_rev_app, !rev_cons_app. reflexivity.
Qed.

(** A starred character class takes a run of the class up to a character
    outside it, when what follows matches there. *)
Lemma star_cls_run {R} p (k : string -> groups -> option R) (a : string) :
  forall c' s g n,
    all_chars p a = true -> p c' = false -> (slen a <= n)%nat ->
    k (String c' s) g <> None ->
    star_loop (rmatch (Cls p)) k n (a +:+ String c' s) g = k (String c' s) g.
Proof.
  induction a as [|c a IH]; intros c' s g n Ha Hc Hn Hk.
  - rewrite app_nil. apply star_loop_stop. intros k'. simpl. now rewrite Hc.
  - simpl in Ha. apply andb_true_iff in Ha as [H1 H2].
    destruct n as [|n]; [simpl in Hn; lia|].
    rewrite app_cons. simpl. rewrite H1.
    replace (Nat.ltb (slen (a +:+ String c' s)) (S (slen (a +:+ String c' s))))
      with true by (symmetry; apply Nat.ltb_lt; lia).
    rewrite IH by (try assumption; simpl in Hn; lia).
    destruct (k (String c' s) g); [reflexivity | contradiction].
Qed.

(** A closing tag is matched whole by the tag pattern. *)
Lemma closing_tag_at name s :
  all_chars tag_char name = true ->
  exists m, match_at tag_re 0 (String "<" (String "/" (name +:+ String ">" s))) = Some m
            /\ m_end m = S (S (S (slen name))).
Proof.
  intros Hn.
  set (whole := String "<" (String "/" (name +:+ String ">" s))).
  set (k := fun (rest : string) (g : groups) =>
              Some (mkMatch 0 (0 + (slen whole - slen rest))
                      (take (slen whole - slen rest) whole) g)).
  assert (E : match_at tag_re 0 whole
              = star_loop (rmatch (Cls (fun x => negb (Ascii.eqb x ">"))))
                  (fun s1 g1 => rmatch (Chr ">") s1 g1 k)
                  (slen (name +:+ String ">" s)) (name +:+ String ">" s) [])
    by reflexivity.
  rewrite E, star_cls_run.
  - eexists. split; [reflexivity|]. cbn [m_end]. unfold whole.
    pose proof (slen_app name (String ">" s)) as L. unfold slen in *. simpl in *. lia.
  - eapply all_chars_weaken; [|exact Hn]. intros c H. unfold tag_char in H.
    now apply andb_true_iff in H as [_ H].
  - reflexivity.
  - rewrite slen_app. lia.
  - discriminate.
Qed.

Lemma tag_trailer T :
  trailer T ->
  exists w, all_chars is_space w = true
            /\ forall gap, sub_scan tag_re (fun _ => EmptyString) T 0 gap
                           = String.rev gap +:+ w.
Proof.
  induction 1 as [|c T Hc HT (w & Hw & IH)|name T Hn HT (w & Hw & IH)].
  - exists EmptyString. split; [reflexivity|]. intros gap.
    rewrite sub_scan_end. symmetry. apply app_empty_r.
  - exists (String c w). split; [simpl; now rewrite Hc, Hw|]. intros gap.
    rewrite sub_scan_miss by (apply tag_opens; now apply space_not_lt).
    rewrite IH. apply rev_cons_app.
  - exists w. split; [exact Hw|]. intros gap.
    rewrite ?app_assoc_s, !app_cons, !app_nil.
    destruct (closing_tag_at name T Hn) as (m & Hm & Em).
    rewrite (sub_scan_hit _ _ _ _ _ m _ Hm Em).
    rewrite app_nil.
    change (String "/" (name +:+ String ">" T))
      with (String "/" EmptyString +:+ (name +:+ String ">" T)) .
    replace (String "/" EmptyString +:+ name +:+ String ">" T)
      with ((String "/" EmptyString +:+ name +:+ String ">" EmptyString) +:+ T)
      by (rewrite !app_assoc_s, !app_cons, !app_nil; reflexivity).
    replace (S (S (slen name)))
      with (slen (String "/" EmptyString +:+ name +:+ String ">" EmptyString) + 0)%nat
      by (rewrite !slen_app; simpl; lia).
    rewrite sub_scan_skip, IH. reflexivity.
Qed.

(** ** Stripping *)

Lemma lstrip_spaces (w : string) : forall s,
  all_chars is_space w = true -> lstrip (w +:+ s) = lstrip s.
Proof.
  induction w as [|c w IH]; intros s H; [reflexivity|].
  simpl in H. apply andb_true_iff in H as [H1 H2].
  rewrite app_cons. simpl. rewrite H1. now apply IH.
Qed.

Lemma lstrip_app (a : string) : forall w,
  lstrip a <> EmptyString -> lstrip (a +:+ w) = lstrip a +:+ w.
Proof.
  induction a as [|c a IH]; intros w H; [now simpl in H|].
  rewrite app_cons. simpl in *. destruct (is_space c); [now apply IH|].
  now rewrite app_cons.
Qed.

(** White space after a text does not change what [strip] makes of it. *)
Lemma strip_trailing a w :
  lstrip a <> EmptyString -> all_chars is_space w = true ->
  strip (a +:+ w) = strip a.
Proof.
  intros Ha Hw. unfold strip. rewrite lstrip_app by exact Ha.
  rewrite rev_of_app, lstrip_spaces; [reflexivity|].
  unfold String.rev. rewrite all_chars_rev_app. now rewrite Hw.
Qed.


(** ** The block of the sample markup *)

Lemma sub_scan_skip1 r repl c s n gap :
  sub_scan r repl (String c s) (S n) gap = sub_scan r repl s n gap.
Proof. reflexivity. Qed.

Lemma line_break_at s :
  exists m, match_at br_re 0 (String "<" (String "b" (String "r" (String ">" s)))) = Some m
            /\ m_end m = 4%nat.
Proof.
  eexists. split; [reflexivity|]. cbn [m_end]. unfold slen. simpl. lia.
Qed.

(** Normalises the reversal of a known text. *)
Ltac known_rev :=
  repeat match goal with
         | |- context [String.rev ?g] =>
             let v := eval vm_compute in (String.rev g) in
             change (String.rev g) with v
         end.

Lemma text_block_of_markup pre mid post m :
  re_search next_re (pre +:+ next_sessions_markup +:+ mid +:+ post) = Some m ->
  m_start m = slen pre ->
  trailer mid ->
  post = EmptyString \/ re_match heading_re post <> None ->
  text_block (pre +:+ next_sessions_markup +:+ mid +:+ post) m heading_re
  = "12-2pm, Saturday 4th October" +:+ newline +:+ "3-5pm, Sunday 5th October".
Proof.
  intros H1 Hs Hmid H2.
  apply search_from_found in H1 as [H1 _]. rewrite Hs, Nat.sub_0_r in H1.
  replace (slen pre) with (slen pre + 0)%nat in H1 at 2 by lia.
  rewrite drop_app in H1. cbn [drop] in H1.
  apply next_heading_at in H1.
  unfold text_block. rewrite H1, drop_app.
  assert (D : drop 14 (next_sessions_markup +:+ mid +:+ post)
              = sessions_block +:+ mid +:+ post) by reflexivity.
  rewrite D. clear D.
  assert (E : match re_search heading_re (sessions_block +:+ mid +:+ post) with
              | Some end_match => m_start end_match
              | None => (slen (pre +:+ next_sessions_markup +:+ mid +:+ post)
                         - (slen pre + 14))%nat
              end = slen (sessions_block +:+ mid)).
  { assert (S0 : re_search heading_re (sessions_block +:+ mid +:+ post)
                 = search_from heading_re (58 + slen mid) post).
    { unfold re_search, sessions_block. rewrite !app_cons, app_nil.
      repeat (rewrite search_from_miss by reflexivity).
      apply search_trailer. exact Hmid. }
    rewrite S0, !slen_app. change (slen next_sessions_markup) with 72%nat.
    change (slen sessions_block) with 58%nat.
    destruct H2 as [-> | H2].
    - simpl. lia.
    - destruct (search_from_hit heading_re (58 + slen mid) post H2) as (e & -> & E).
      exact E. }
  rewrite E. rewrite <- (app_assoc_s sessions_block mid post), take_exact.
  destruct (tag_trailer mid Hmid) as (w & Hw & Ew).
  assert (B : re_sub br_re (fun _ => newline) (sessions_block +:+ mid)
              = " 12-2pm, Saturday 4th October" +:+ newline
                +:+ "3-5pm, Sunday 5th October" +:+ mid).
  { rewrite re_sub_scan. unfold sessions_block. rewrite !app_cons, app_nil.
    repeat (rewrite sub_scan_miss by reflexivity).
    match goal with
    | |- context [sub_scan br_re _ (String "<" (String "b" (String "r" (String ">" ?s)))) 0 ?gap] =>
        destruct (line_break_at s) as (mb & Hb & Eb);
        rewrite (sub_scan_hit _ _ _ _ gap mb _ Hb Eb)
    end.
    rewrite !sub_scan_skip1.
    repeat (rewrite sub_scan_miss by reflexivity).
    rewrite (br_trailer _ mid Hmid). known_rev.
    rewrite ?app_assoc_s, ?app_cons, ?app_nil. reflexivity. }
  rewrite B. clear B.
  assert (T : re_sub tag_re (fun _ => EmptyString)
                (" 12-2pm, Saturday 4th October" +:+ newline
                 +:+ "3-5pm, Sunday 5th October" +:+ mid)
              = (" 12-2pm, Saturday 4th October" +:+ newline
                 +:+ "3-5pm, Sunday 5th October") +:+ w).
  { rewrite re_sub_scan. unfold newline. rewrite ?app_assoc_s, ?app_cons, ?app_nil.
    repeat (rewrite sub_scan_miss by reflexivity).
    rewrite Ew. known_rev. rewrite ?app_cons, ?app_nil. reflexivity. }
  rewrite T, strip_trailing by (exact Hw || (vm_compute; discriminate)).
  vm_compute. reflexivity.
Qed.

(** C9 (amended): in a page whose first "Next Session(s):" heading is the
    one of the markup "Next Sessions: 12-2pm, Saturday 4th October<br>3-5pm,
    Sunday 5th October", and in which only white space and closing tags
    stand between the markup and the next heading tag or the end of the
    page, [extract_sessions] returns the classification 'next' and exactly
    the two descriptors, in some order, whatever stands before the markup
    and from the heading tag on; so it does on the markup alone, on
    [next_sessions_page], where tags surround the heading, and on
    [tagged_sessions_page], where tags stand inside the descriptors and
    the line break is written [<br />]; on every input the returned list
    has no duplicates. *)
Theorem extract_next_sessions :
  (forall pre mid post m,
     re_search next_re (pre +:+ next_sessions_markup +:+ mid +:+ post) = Some m ->
     m_start m = slen pre ->
     trailer mid ->
     post = EmptyString \/ re_match heading_re post <> None ->
     fst (extract_sessions (pre +:+ next_sessions_markup +:+ mid +:+ post))
     = Some "next"
     /\ snd (extract_sessions (pre +:+ next_sessions_markup +:+ mid +:+ post))
        ≡ₚ ["12-2pm, Saturday 4th October"; "3-5pm, Sunday 5th October"])
  /\ fst (extract_sessions next_sessions_markup) = Some "next"
  /\ snd (extract_sessions next_sessions_markup)
     ≡ₚ ["12-2pm, Saturday 4th October"; "3-5pm, Sunday 5th October"]
  /\ fst (extract_sessions next_sessions_page) = Some "next"
  /\ snd (extract_sessions next_sessions_page)
     ≡ₚ ["12-2pm, Saturday 4th October"; "3-5pm, Sunday 5th October"]
  /\ fst (extract_sessions tagged_sessions_page) = Some "next"
  /\ snd (extract_sessions tagged_sessions_page)
     ≡ₚ ["12-2pm, Saturday 4th October"; "3-5pm, Sunday 5th October"]
  /\ forall html_content, NoDup (snd (extract_sessions html_content)).
Proof.
  split.
  { intros pre mid post m H1 Hs Hmid H2.
    unfold extract_sessions, extract_raw. rewrite H1.
    rewrite (text_block_of_markup pre mid post m H1 Hs Hmid H2).
    split; [reflexivity|].
    replace (snd _)
      with ["3-5pm, Sunday 5th October"; "12-2pm, Saturday 4th October"]
      by (vm_compute; reflexivity).
    apply perm_swap. }
  split; [vm_compute; reflexivity|]. split.
  { replace (snd (extract_sessions next_sessions_markup))
      with ["3-5pm, Sunday 5th October"; "12-2pm, Saturday 4th October"]
      by (vm_compute; reflexivity).
    apply perm_swap. }
  split; [vm_compute; reflexivity|]. split.
  { replace (snd (extract_sessions next_sessions_page))
      with ["3-5pm, Sunday 5th October"; "12-2pm, Saturday 4th October"]
      by (vm_compute; reflexivity).
    apply perm_swap. }
  split; [vm_compute; reflexivity|]. split.
  { replace (snd (extract_sessions tagged_sessions_page))
      with ["3-5pm, Sunday 5th October"; "12-2pm, Saturday 4th October"]
      by (vm_compute; reflexivity).
    apply perm_swap. }
  intros html_content. unfold extract_sessions.
  destruct (extract_raw html_content) as [ty l]. simpl. apply NoDup_elements.
Qed.

Lemma extract_next_sessions_witness :
  fst (extract_sessions
         (page_before +:+ next_sessions_markup +:+ page_trailer +:+ page_after))
  = Some "next"
  /\ snd (extract_sessions
            (page_before +:+ next_sessions_markup +:+ page_trailer +:+ page_after))
     ≡ₚ ["12-2pm, Saturday 4th October"; "3-5pm, Sunday 5th October"].
Proof.
  apply (proj1 extract_next_sessions page_before page_trailer page_after
           (mkMatch 59 73 "Next Sessions:" [])).
  - vm_compute. reflexivity.
  - vm_compute. reflexivity.
  - apply (trailer_tag "p" (String "010" (String " " ("</" +:+ "div" +:+ ">" +:+ EmptyString)))).
    + reflexivity.
    + apply trailer_space; [reflexivity|]. apply trailer_space; [reflexivity|].
      apply (trailer_tag "div" EmptyString); [reflexivity | apply trailer_nil].
  - right. vm_compute. discriminate.
Defined.

(** An earlier heading "Next Session:" takes the block away from the
    markup, and text that follows the markup is read with it: a word
    lengthens the last descriptor, and so does the digit of a descriptor
    in the next paragraph, which an opening tag and no heading separate
    from the markup. *)
Lemma surrounding_markup_changes_the_result :
  extract_sessions ("Next Session: to be announced<h2>Dates</h2>" +:+ next_sessions_markup)
  = (Some "next", [])
  /\ snd (extract_sessions (next_sessions_markup +:+ "fest"))
     ≡ₚ ["12-2pm, Saturday 4th October"; "3-5pm, Sunday 5th Octoberfest"]
  /\ snd (extract_sessions
            (next_sessions_markup +:+ "</p><p>1-2pm, Monday 6th October</p>"))
     ≡ₚ ["12-2pm, Saturday 4th October"; "3-5pm, Sunday 5th October1"].
Proof.
  split; [vm_compute; reflexivity|]. split.
  - replace (snd _)
      with ["3-5pm, Sunday 5th Octoberfest"; "12-2pm, Saturday 4th October"]
      by (vm_compute; reflexivity).
    apply perm_swap.
  - replace (snd _)
      with ["3-5pm, Sunday 5th October1"; "12-2pm, Saturday 4th October"]
      by (vm_compute; reflexivity).
    apply perm_swap.
Qed.

End ExtractionFacts.

(* ===================================================================== *)
(** * [get_config_value]                                                  *)
(* ===================================================================== *)

Module ConfigFacts.
Import Py PyFacts StringFacts main samples.

(** X1: [get_config_value] returns the default whenever the configuration
    itself is not a dictionary, whatever the key: the first step of the
    walk already fails. *)
Theorem config_lookup_outside_a_dict config key default :
  is_dict config = false -> get_config_value config key default = default.
Proof.
  intros H. unfold get_config_value.
  destruct (split "." key) as [|k ks] eqn:E; [now apply split_not_nil in E|].
  destruct config; try discriminate; reflexivity.
Qed.

Lemma config_lookup_outside_a_dict_witness :
  get_config_value (JList [JStr "ical"]) "ical.filename" (JStr "free.ics")
  = JStr "free.ics".
Proof.
  apply (config_lookup_outside_a_dict (JList [JStr "ical"]) "ical.filename"
           (JStr "free.ics")).
  reflexivity.
Defined.

(** X2: [get_config_value] follows the dotted key one dictionary at a
    time.  For a key [k] without a dot the result is the entry of [k],
    and the default only when the entry is missing or [None] (a false,
    zero or empty entry is returned as it is); for [k.rest] the lookup
    goes on with [rest] inside the entry of [k], and gives the default
    when that entry is missing or [None]. *)
Theorem config_lookup_follows_the_dotted_key items k rest default :
  count_char "." k = O ->
  get_config_value (JDict items) k default
  = match assoc k items with
    | None | Some JNull => default
    | Some v => v
    end
  /\ get_config_value (JDict items) (k +:+ String "." rest) default
     = match assoc k items with
       | None | Some JNull => default
       | Some v => get_config_value v rest default
       end.
Proof.
  intros H. unfold get_config_value. split.
  - rewrite split_no_sep by exact H. simpl.
    destruct (assoc k items) as [[]|]; reflexivity.
  - rewrite split_first by exact H. reflexivity.
Qed.

Lemma config_lookup_follows_the_dotted_key_witness :
  get_config_value (JDict ical_items) "ical" (JStr "none")
  = match assoc "ical" ical_items with
    | None | Some JNull => JStr "none"
    | Some v => v
    end
  /\ get_config_value (JDict ical_items) ("ical" +:+ String "." "cleanup.enabled")
       (JStr "none")
     = match assoc "ical" ical_items with
       | None | Some JNull => JStr "none"
       | Some v => get_config_value v "cleanup.enabled" (JStr "none")
       end.
Proof.
  apply (config_lookup_follows_the_dotted_key ical_items "ical" "cleanup.enabled"
           (JStr "none")).
  reflexivity.
Defined.

End ConfigFacts.

(* ===================================================================== *)
(** * More on [SessionParser]                                             *)
(* ===================================================================== *)

Module ParserResults.
Import Py PyFacts StringFacts session_parser samples ParserFacts.

(** X3: [parse] returns [None], without reading the clock, for every
    string that does not hold exactly one comma. *)
Theorem parse_rejects_a_wrong_comma_count clk s t :
  count_char "," s <> 1%nat -> parse clk s t = (Ret None, t).
Proof.
  intros H. unfold parse. pose proof (split_length "," s) as L.
  destruct (split "," s) as [|p0 [|p1 [|p2 l]]]; try reflexivity.
  simpl in L. exfalso. apply H. lia.
Qed.

Lemma parse_rejects_a_wrong_comma_count_witness :
  parse (frozen new_year_2025) "12-2pm, Saturday, 4th October" 0%nat
  = (Ret None, 0%nat).
Proof.
  apply (parse_rejects_a_wrong_comma_count (frozen new_year_2025)
           "12-2pm, Saturday, 4th October" 0%nat).
  vm_compute. discriminate.
Defined.

Lemma replace_hm_valid d h r :
  valid_date (year d) (month d) (day d) = true ->
  second d = 0 -> microsecond d = 0 ->
  replace_hm d h 0 = Ret r -> valid r = true.
Proof.
  intros Vd S0 U0 H. unfold replace_hm in H.
  apply new_datetime_inv in H as (-> & _ & Vt).
  unfold valid. simpl. now rewrite Vd, Vt.
Qed.

Lemma parse_datetime_valid clk tok date t r t' :
  _parse_datetime clk tok date t = (Ret (Some r), t') -> valid r = true.
Proof.
  intros H. apply parse_datetime_inv in H as (m & d & y & _ & _ & Hd & Hr & _).
  apply strptime_midnight in Hd as (_ & _ & S0 & U0 & Vd).
  eapply replace_hm_valid; eauto.
Qed.

(** X4: a session that [parse] returns carries the descriptor it was parsed
    from, unchanged, as its [session_str]; its start and its end are valid
    instants of the calendar; and the parse has read the clock four
    times. *)
Theorem parsed_session_is_well_formed clk s t sess t' :
  parse clk s t = (Ret (Some sess), t') ->
  session_str sess = s
  /\ valid (start_time sess) = true
  /\ valid (end_time sess) = true
  /\ t' = (t + 4)%nat.
Proof.
  intros H.
  apply parse_inv in H as (p0 & p1 & a & b & rest & t1 & _ & _ & E & Hs & He).
  pose proof (parse_datetime_valid _ _ _ _ _ _ Hs).
  pose proof (parse_datetime_valid _ _ _ _ _ _ He).
  apply parse_datetime_inv in Hs as (_ & _ & _ & _ & _ & _ & _ & ->).
  apply parse_datetime_inv in He as (_ & _ & _ & _ & _ & _ & _ & ->).
  repeat split; try assumption. lia.
Qed.

Lemma parsed_session_is_well_formed_witness :
  session_str october_session = "12-2pm, Saturday 4th October"
  /\ valid (start_time october_session) = true
  /\ valid (end_time october_session) = true
  /\ 4%nat = (0 + 4)%nat.
Proof.
  apply (parsed_session_is_well_formed (frozen new_year_2025)
           "12-2pm, Saturday 4th October" 0%nat october_session 4%nat).
  vm_compute. reflexivity.
Defined.

(** X5: [Session.duration] of a parsed session whose two instants fall on
    the same date is the difference of the two hours, in whole hours; it
    is negative when the end hour is the smaller one. *)
Theorem duration_is_the_difference_of_the_hours clk s t sess t' :
  parse clk s t = (Ret (Some sess), t') ->
  year (start_time sess) = year (end_time sess) ->
  month (start_time sess) = month (end_time sess) ->
  day (start_time sess) = day (end_time sess) ->
  duration sess
  = (hour (end_time sess) - hour (start_time sess)) * 3600 * US_PER_SECOND.
Proof.
  intros H Hy Hm Hd.
  apply parse_inv in H as (p0 & p1 & a & b & rest & t1 & _ & _ & _ & Hs & He).
  apply parse_datetime_fields in Hs as (_ & _ & M1 & S1 & U1).
  apply parse_datetime_fields in He as (_ & _ & M2 & S2 & U2).
  unfold duration, dt_sub, to_us, toordinal.
  rewrite Hy, Hm, Hd, M1, M2, S1, S2, U1, U2. lia.
Qed.

Lemma duration_is_the_difference_of_the_hours_witness :
  duration october_session
  = (hour (end_time october_session) - hour (start_time october_session))
    * 3600 * US_PER_SECOND.
Proof.
  apply (duration_is_the_difference_of_the_hours (frozen new_year_2025)
           "12-2pm, Saturday 4th October" 0%nat october_session 4%nat).
  - vm_compute. reflexivity.
  - reflexivity.
  - reflexivity.
  - reflexivity.
Defined.

Lemma cmp_antisym a b : cmp b a = CompOpp (cmp a b).
Proof.
  unfold cmp.
  rewrite (Z.compare_antisym (year a) (year b)).
  destruct (year a ?= year b); simpl; try reflexivity.
  rewrite (Z.compare_antisym (month a) (month b)).
  destruct (month a ?= month b); simpl; try reflexivity.
  rewrite (Z.compare_antisym (day a) (day b)).
  destruct (day a ?= day b); simpl; try reflexivity.
  rewrite (Z.compare_antisym (hour a) (hour b)).
  destruct (hour a ?= hour b); simpl; try reflexivity.
  rewrite (Z.compare_antisym (minute a) (minute b)).
  destruct (minute a ?= minute b); simpl; try reflexivity.
  rewrite (Z.compare_antisym (second a) (second b)).
  destruct (second a ?= second b); simpl; try reflexivity.
  apply Z.compare_antisym.
Qed.

Lemma not_leb_ltb a b : dt_leb a b = false -> dt_ltb b a = true.
Proof.
  unfold dt_leb, dt_ltb. rewrite (cmp_antisym a b).
  destruct (cmp a b); simpl; congruence.
Qed.

(** X6: when [get_upcoming_notification_time] returns an instant, that
    instant lies [hours_before] hours before the start of the session and
    strictly after the current time; the clock has been read once. *)
Theorem upcoming_notification_time_is_in_the_future clk session h t nt t' :
  get_upcoming_notification_time clk session h t = (Ret (Some nt), t') ->
  to_us nt = to_us (start_time session) - h * 3600 * US_PER_SECOND
  /\ dt_ltb (clk t) nt = true
  /\ t' = S t.
Proof.
  unfold get_upcoming_notification_time, bind, lift, now, ret, timedelta_hours,
    new_timedelta, dt_sub_td.
  intros H.
  destruct (_ && _); [|discriminate].
  destruct (dt_add_td (start_time session) (- (h * 3600 * US_PER_SECOND)))
    as [d|e] eqn:E; [|discriminate].
  destruct (dt_leb d (clk t)) eqn:L; [discriminate|].
  injection H as <- <-.
  apply dt_add_td_inv in E as [E _]. apply not_leb_ltb in L.
  repeat split; [lia | exact L].
Qed.

Lemma upcoming_notification_time_is_in_the_future_witness :
  to_us (mkdt 2025 10 4 11 0 0 0)
  = to_us (start_time october_session) - 1 * 3600 * US_PER_SECOND
  /\ dt_ltb (frozen new_year_2025 0%nat) (mkdt 2025 10 4 11 0 0 0) = true
  /\ 1%nat = 1%nat.
Proof.
  apply (upcoming_notification_time_is_in_the_future (frozen new_year_2025)
           october_session 1 0%nat (mkdt 2025 10 4 11 0 0 0) 1%nat).
  vm_compute. reflexivity.
Defined.

End ParserResults.

(* ===================================================================== *)
(** * More on [Notifier]                                                  *)
(* ===================================================================== *)

Module NotifierWindows.
Import Py PyFacts session_parser notifier samples.

(** X7: [should_notify_start] and [should_notify_end] answer true exactly
    when notifications and the respective switch are enabled and the
    current time is less than five minutes away, on either side, from the
    start and from the end of the session; for a session of at least ten
    minutes the two never answer true at the same instant. *)
Theorem start_and_end_fire_within_five_minutes clk t self session ds de :
  dt_add_td (clk t) ds = Ret (start_time session) ->
  dt_add_td (clk t) de = Ret (end_time session) ->
  fst (should_notify_start clk self session t)
  = Ret (enabled self && notify_start self && (Z.abs ds <? 300 * US_PER_SECOND))
  /\ fst (should_notify_end clk self session t)
     = Ret (enabled self && notify_end self && (Z.abs de <? 300 * US_PER_SECOND))
  /\ (600 * US_PER_SECOND <= de - ds ->
      ~ (fst (should_notify_start clk self session t) = Ret true
         /\ fst (should_notify_end clk self session t) = Ret true)).
Proof.
  intros Hs He.
  apply dt_add_td_inv in Hs as [Ts _]. apply dt_add_td_inv in He as [Te _].
  assert (A : fst (should_notify_start clk self session t)
    = Ret (enabled self && notify_start self && (Z.abs ds <? 300 * US_PER_SECOND))).
  { unfold should_notify_start.
    destruct (enabled self), (notify_start self); try reflexivity.
    simpl. unfold abs_total_seconds_lt, dt_sub. rewrite Ts. do 2 f_equal. lia. }
  assert (B : fst (should_notify_end clk self session t)
    = Ret (enabled self && notify_end self && (Z.abs de <? 300 * US_PER_SECOND))).
  { unfold should_notify_end.
    destruct (enabled self), (notify_end self); try reflexivity.
    simpl. unfold abs_total_seconds_lt, dt_sub. rewrite Te. do 2 f_equal. lia. }
  repeat split; [exact A | exact B |].
  intros L [Fs Fe]. rewrite A in Fs. rewrite B in Fe.
  injection Fs as Fs. injection Fe as Fe.
  apply andb_true_iff in Fs as [_ Fs]. apply andb_true_iff in Fe as [_ Fe].
  apply Z.ltb_lt in Fs. apply Z.ltb_lt in Fe. lia.
Qed.

Lemma start_and_end_fire_within_five_minutes_witness :
  fst (should_notify_start (frozen new_year_2025) hourly_notifier
         (session_at (mkdt 2025 1 1 0 2 0 0)) 0%nat)
  = Ret (enabled hourly_notifier && notify_start hourly_notifier
         && (Z.abs (120 * US_PER_SECOND) <? 300 * US_PER_SECOND))
  /\ fst (should_notify_end (frozen new_year_2025) hourly_notifier
            (session_at (mkdt 2025 1 1 0 2 0 0)) 0%nat)
     = Ret (enabled hourly_notifier && notify_end hourly_notifier
            && (Z.abs (7200 * US_PER_SECOND) <? 300 * US_PER_SECOND))
  /\ (600 * US_PER_SECOND <= 7200 * US_PER_SECOND - 120 * US_PER_SECOND ->
      ~ (fst (should_notify_start (frozen new_year_2025) hourly_notifier
                (session_at (mkdt 2025 1 1 0 2 0 0)) 0%nat) = Ret true
         /\ fst (should_notify_end (frozen new_year_2025) hourly_notifier
                   (session_at (mkdt 2025 1 1 0 2 0 0)) 0%nat) = Ret true)).
Proof.
  apply (start_and_end_fire_within_five_minutes (frozen new_year_2025) 0%nat
           hourly_notifier (session_at (mkdt 2025 1 1 0 2 0 0))
           (120 * US_PER_SECOND) (7200 * US_PER_SECOND)).
  - vm_compute. reflexivity.
  - vm_compute. reflexivity.
Defined.

End NotifierWindows.

(* ===================================================================== *)
(** * From the scraper to the parser                                      *)
(* ===================================================================== *)

Module ScraperGrammar.
Import Py PyFacts StringFacts RegexFacts session_parser octopus_scraper samples
  ParserFacts.

(** Every descriptor that the extractor returns is a string of the
    session grammar. *)
Lemma extracted_matches html d :
  d ∈ snd (extract_sessions html) -> matches session_re d.
Proof.
  unfold extract_sessions. destruct (extract_raw html) as [ty l] eqn:E. simpl.
  rewrite elem_of_elements, elem_of_list_to_set, list_elem_of_In. intros H.
  unfold extract_raw in E.
  destruct (re_search next_re html) as [m|].
  - injection E as _ <-. apply in_flat_map in H as (part & _ & H).
    destruct (Nat.eqb (slen (strip part)) 0); [contradiction|].
    eapply findall_sound; exact H.
  - destruct (re_search last_re html) as [m|].
    + injection E as _ <-. eapply findall_sound; exact H.
    + destruct (re_search fallback_re html) as [m|].
      * injection E as _ <-. eapply findall_sound; exact H.
      * injection E as _ <-. contradiction.
Qed.

(** A string of the session grammar is two time tokens around a dash,
    a comma, and a date phrase. *)
Lemma session_grammar_parts d :
  matches session_re d ->
  exists t1 t2 w,
    d = (t1 +:+ String "-" t2) +:+ String "," w
    /\ matches token_re t1 /\ matches token_re t2 /\ matches date_phrase_re w.
Proof.
  unfold session_re. intros H.
  apply matches_seq_inv in H as (d1 & r1 & -> & D1 & H).
  apply matches_seq_inv in H as (a1 & r2 & -> & A1 & H).
  apply matches_seq_inv in H as (dash & r3 & -> & Hd & H).
  apply matches_seq_inv in H as (d2 & r4 & -> & D2 & H).
  apply matches_seq_inv in H as (a2 & r5 & -> & A2 & H).
  apply matches_seq_inv in H as (comma & w & -> & Hc & W).
  apply matches_chr_inv in Hd as ->. apply matches_chr_inv in Hc as ->.
  exists (d1 +:+ a1), (d2 +:+ a2), w. repeat split.
  - repeat (rewrite ?app_assoc_s, ?app_cons, ?app_nil). reflexivity.
  - now constructor.
  - now constructor.
  - exact W.
Qed.

(** No character of a time token is a space, a dash or a comma. *)
Lemma token_alphabet c :
  alphabet token_re c = true ->
  is_space c = false /\ Ascii.eqb c "-" = false /\ Ascii.eqb c "," = false.
Proof.
  destruct c as [[] [] [] [] [] [] [] []]; vm_compute; intros H;
    try discriminate; auto.
Qed.

Lemma token_no_space t : matches token_re t -> all_chars not_space t = true.
Proof.
  intros M. apply matches_alphabet in M.
  eapply all_chars_weaken; [|exact M].
  intros c Hc. apply token_alphabet in Hc as (Hs & _). unfold not_space. now rewrite Hs.
Qed.

Lemma token_counts t :
  matches token_re t -> count_char "-" t = O /\ count_char "," t = O.
Proof.
  intros M. apply matches_alphabet in M. split.
  - eapply all_chars_count; [exact M | reflexivity].
  - eapply all_chars_count; [exact M | reflexivity].
Qed.

(** A time token starts with a digit, so its hour can be read. *)
Lemma token_has_hour t : matches token_re t -> spec.hour_of t <> None.
Proof.
  unfold token_re, Plus. intros M.
  apply matches_seq_inv in M as (d & a & -> & D & _).
  apply matches_seq_inv in D as (c1 & ds & -> & C & _).
  inversion C as [|p c Hc| | | | | |]; subst.
  rewrite !app_cons, app_nil.
  unfold spec.hour_of, spec.token. simpl.
  assert (L : lower_char c = c).
  { revert Hc. destruct c as [[] [] [] [] [] [] [] []]; vm_compute;
      intros Hc; (reflexivity || discriminate). }
  rewrite L, Hc. discriminate.
Qed.

(** [_parse_datetime] indexes nothing: it does not raise [IndexError]. *)
Lemma parse_datetime_no_IndexError clk tok date t t' :
  _parse_datetime clk tok date t <> (Raise IndexError, t').
Proof.
  unfold _parse_datetime, bind, now, lift, try_ValueError, ret.
  destruct (re_match time_re (lower tok)) as [m|]; [|discriminate].
  destruct (strptime (date_str_full date (year (clk t)))) as [d0|e0] eqn:H0.
  - destruct (replace_hm d0 (hour24 m) 0) as [r0|e1] eqn:Hr0.
    + destruct (dt_ltb r0 (clk (S t))); [|discriminate].
      destruct (strptime (date_str_full date (year (clk t) + 1))) as [d1|e2] eqn:H1.
      * destruct (replace_hm d1 (hour24 m) 0) as [r1|e3] eqn:Hr1; [discriminate|].
        apply new_datetime_error in Hr1 as ->. discriminate.
      * apply strptime_error in H1 as ->. discriminate.
    + apply new_datetime_error in Hr0 as ->. discriminate.
  - apply strptime_error in H0 as ->.
    destruct (strptime (date_str_full date (year (clk t) + 1))) as [d1|e2] eqn:H1.
    + destruct (replace_hm d1 (hour24 m) 0) as [r1|e3] eqn:Hr1.
      * destruct (dt_ltb r1 (clk (S t))); [|discriminate].
        discriminate.
      * apply new_datetime_error in Hr1 as ->. discriminate.
    + apply strptime_error in H1 as ->. discriminate.
Qed.

(** The two splits that [parse] makes of an extracted descriptor. *)
Lemma extracted_splits html d :
  d ∈ snd (extract_sessions html) ->
  exists t1 t2 w,
    matches token_re t1 /\ matches token_re t2
    /\ split "," d = [t1 +:+ String "-" t2; w]
    /\ split "-" (strip (t1 +:+ String "-" t2)) = [t1; t2]
    /\ strip t1 = t1 /\ strip t2 = t2.
Proof.
  intros H. apply extracted_matches in H.
  apply session_grammar_parts in H as (t1 & t2 & w & -> & M1 & M2 & W).
  pose proof (token_counts t1 M1) as [D1 C1].
  pose proof (token_counts t2 M2) as [D2 C2].
  pose proof (token_no_space t1 M1) as S1.
  pose proof (token_no_space t2 M2) as S2.
  assert (Cw : count_char "," w = O) by (eapply matches_count; [exact W | reflexivity]).
  set (p0 := t1 +:+ String "-" t2).
  assert (Cp : count_char "," p0 = O).
  { unfold p0. rewrite count_char_app. simpl. lia. }
  assert (Sp : strip p0 = p0).
  { apply strip_id. unfold p0. rewrite all_chars_app. simpl. now rewrite S1, S2. }
  exists t1, t2, w. fold p0. repeat split; try assumption.
  - rewrite split_first by exact Cp. now rewrite split_no_sep by exact Cw.
  - rewrite Sp. unfold p0. rewrite split_first by exact D1.
    now rewrite split_no_sep by exact D2.
  - now apply strip_id.
  - now apply strip_id.
Qed.

(** With both splits of the right length, [parse] does not raise
    [IndexError]. *)
Lemma parse_no_IndexError_of_shape clk d p0 p1 a b t t' :
  split "," d = [p0; p1] -> split "-" (strip p0) = [a; b] ->
  parse clk d t <> (Raise IndexError, t').
Proof.
  intros E1 E2 P. unfold parse in P. rewrite E1 in P.
  unfold _parse_start_time, _parse_end_time in P. rewrite E2 in P.
  unfold bind, lift, index, ret in P. simpl in P.
  destruct (_parse_datetime clk (strip a) (strip p1) t) as [[o1|e1] u1] eqn:P1.
  - destruct (_parse_datetime clk (strip b) (strip p1) u1) as [[o2|e2] u2] eqn:P2.
    + destruct o1, o2; discriminate.
    + injection P as -> _. exact (parse_datetime_no_IndexError _ _ _ _ _ P2).
  - injection P as -> _. exact (parse_datetime_no_IndexError _ _ _ _ _ P1).
Qed.

Lemma extracted_parse_no_IndexError html d clk t t' :
  d ∈ snd (extract_sessions html) ->
  parse clk d t <> (Raise IndexError, t').
Proof.
  intros H. apply extracted_splits in H as (t1 & t2 & w & _ & _ & E1 & E2 & _).
  eapply parse_no_IndexError_of_shape; eassumption.
Qed.

(** X8: every descriptor that [extract_sessions] returns, for any page
    made of the code points U+0000 to U+00FF (with [\s], [\w], [\d],
    [str.strip] and [str.lower] as Python defines them there), has the
    shape that [SessionParser.parse] takes apart: its split at
    the comma has exactly two pieces, the first piece split at the dash
    has exactly two time tokens, and each token starts with an hour.
    Hence [parse] never fails with [IndexError] on an extracted
    descriptor, whatever the clock shows. *)
Theorem extracted_descriptors_fit_the_parser html d :
  d ∈ snd (extract_sessions html) ->
  (exists p0 p1 tok_s tok_e,
     split "," d = [p0; p1]
     /\ split "-" (strip p0) = [tok_s; tok_e]
     /\ spec.hour_of (strip tok_s) <> None
     /\ spec.hour_of (strip tok_e) <> None)
  /\ (forall clk t t', parse clk d t <> (Raise IndexError, t')).
Proof.
  intros H. split.
  - apply extracted_splits in H as (t1 & t2 & w & M1 & M2 & E1 & E2 & S1 & S2).
    exists (t1 +:+ String "-" t2), w, t1, t2. repeat split; try assumption.
    + rewrite S1. now apply token_has_hour.
    + rewrite S2. now apply token_has_hour.
  - intros clk t t'. now apply (extracted_parse_no_IndexError html).
Qed.

Lemma extracted_descriptors_fit_the_parser_witness :
  (exists p0 p1 tok_s tok_e,
     split "," october = [p0; p1]
     /\ split "-" (strip p0) = [tok_s; tok_e]
     /\ spec.hour_of (strip tok_s) <> None
     /\ spec.hour_of (strip tok_e) <> None)
  /\ (forall clk t t', parse clk october t <> (Raise IndexError, t')).
Proof.
  apply (extracted_descriptors_fit_the_parser next_sessions_page october).
  apply list_elem_of_In. vm_compute. tauto.
Defined.

End ScraperGrammar.

(* ===================================================================== *)
(** * More on the calendar                                                *)
(* ===================================================================== *)

Module CalendarEvents.
Import Py PyFacts session_parser ical_generator main samples.

(** X9: a generator built by [ICalGenerator.__init__] never has an
    empty list of alarm offsets: without a list, and with an empty one, it
    takes 60, 15 and 0 minutes.  With alarms enabled every event therefore
    carries at least one alarm; only [alarms_enabled] switches them off. *)
Theorem constructed_generator_has_alarm_times tz en times :
  alarm_times (new_ICalGenerator tz en times) <> []
  /\ alarm_times (new_ICalGenerator tz en None) = [60; 15; 0]
  /\ alarm_times (new_ICalGenerator tz en (Some [])) = [60; 15; 0]
  /\ (1 <= alarms_per_event (new_ICalGenerator tz true times))%nat
  /\ alarms_per_event (new_ICalGenerator tz false times) = O.
Proof.
  unfold alarms_per_event.
  destruct times as [[|m l]|]; simpl; repeat split; try discriminate; lia.
Qed.

Section Calendar.
Variable clk : Clock.
Variable to_ical : Component -> string.
Variable str_timedelta : timedelta -> string.
Variable strftime_uid : datetime -> string.

Local Abbreviation generate := (generate clk to_ical str_timedelta strftime_uid).
Local Abbreviation event := (event clk str_timedelta strftime_uid).
Local Abbreviation update_ical := (update_ical clk to_ical str_timedelta strftime_uid).
Local Abbreviation event_of := (event_of strftime_uid).

Lemma alarm_ret m t :
  alarm_ok m = true -> exists a, alarm m t = (Ret a, t).
Proof.
  unfold alarm_ok, alarm, bind, lift, ret, timedelta_minutes, new_timedelta, minutes_us.
  intros H. destruct (m =? 0); simpl in *; [eauto|].
  apply andb_true_iff in H as [H _]. apply andb_true_iff in H as [H _].
  rewrite H. eauto.
Qed.

Lemma mapM_alarm l : forall t,
  forallb alarm_ok l = true ->
  exists al, mapM alarm l t = (Ret al, t) /\ length al = length l.
Proof.
  induction l as [|m l IH]; intros t H; simpl in *; [eexists; split; reflexivity|].
  apply andb_true_iff in H as [H1 H2].
  destruct (alarm_ret m t H1) as [a Ea].
  destruct (IH t H2) as (al & Eal & L).
  exists (a :: al). unfold bind, ret. rewrite Ea, Eal. simpl. now rewrite L.
Qed.

Lemma event_ret self s t :
  forallb alarm_ok (alarm_times self) = true ->
  exists ev, event self s t = (Ret ev, S t) /\ event_of self s ev.
Proof.
  intros H. unfold ical_generator.event, bind, now, ret.
  destruct (alarms_enabled self) eqn:En.
  - destruct (mapM_alarm (alarm_times self) (S t) H) as (al & Eal & L).
    destruct (alarm_times self) as [|m l] eqn:Et.
    + simpl. eexists. split; [reflexivity|].
      unfold ical_generator.event_of, prop, alarms_per_event. rewrite En, Et.
      repeat split.
    + cbn [length Nat.eqb negb andb]. unfold bind, ret in Eal. rewrite Eal.
      eexists. split; [reflexivity|].
      unfold ical_generator.event_of, prop, alarms_per_event. rewrite En, Et.
      repeat split. exact L.
  - simpl. eexists. split; [reflexivity|].
    unfold ical_generator.event_of, prop, alarms_per_event. rewrite En.
    repeat split.
Qed.

Lemma mapM_event self l : forall t,
  forallb alarm_ok (alarm_times self) = true ->
  exists evs, mapM (event self) l t = (Ret evs, (t + length l)%nat)
              /\ Forall2 (event_of self) l evs.
Proof.
  induction l as [|s l IH]; intros t H; simpl.
  - exists []. split; [unfold ret; f_equal; lia | constructor].
  - destruct (event_ret self s t H) as (ev & Eev & P).
    destruct (IH (S t) H) as (evs & Eevs & F).
    exists (ev :: evs). unfold bind, ret. rewrite Eev, Eevs.
    split; [f_equal; lia | now constructor].
Qed.

(** X10: for a list of sessions that is not empty, alarm offsets that
    [timedelta] accepts and a path that can be written, [generate]
    returns true and replaces the file at the path, and no other file, by
    the serialisation of one calendar whose events are, in the order of
    the sessions, one event per session: a [VEVENT] with the start and the
    end of the session, the identifier built from the start, and one alarm
    per configured offset when alarms are enabled (none otherwise).  The
    clock is read once per session. *)
Theorem generate_writes_one_event_per_session self sessions path fs t :
  sessions <> [] ->
  forallb alarm_ok (alarm_times self) = true ->
  path ∉ denied fs ->
  exists cal fs',
    generate self sessions path fs t = (Ret (true, fs'), (t + length sessions)%nat)
    /\ files fs' !! path = Some (Bytes (to_ical cal))
    /\ (forall p, p <> path -> files fs' !! p = files fs !! p)
    /\ denied fs' = denied fs
    /\ comp_name cal = "VCALENDAR"
    /\ Forall2 (event_of self) sessions (comp_subs cal).
Proof.
  intros Hne Hal Hw.
  destruct (mapM_event self sessions t Hal) as (evs & E & F).
  destruct sessions as [|s l]; [congruence|].
  unfold ical_generator.generate, bind, ret. rewrite E.
  unfold fs_write. rewrite decide_False by exact Hw.
  eexists. eexists. split; [reflexivity|]. simpl.
  split; [apply lookup_insert_eq|].
  repeat split; try assumption.
  intros p Hp. apply lookup_insert_ne. congruence.
Qed.

(** X11: when the path cannot be written, [generate] returns false and
    leaves the file system as it was, for every list of sessions; the
    error is not raised to the caller. *)
Theorem generate_reports_a_failed_write self sessions path fs t :
  forallb alarm_ok (alarm_times self) = true ->
  path ∈ denied fs ->
  generate self sessions path fs t = (Ret (false, fs), (t + length sessions)%nat).
Proof.
  intros Hal Hd.
  destruct (mapM_event self sessions t Hal) as (evs & E & F).
  destruct sessions as [|s l]; [unfold ical_generator.generate, ret; simpl; f_equal; lia|].
  unfold ical_generator.generate, bind, ret. rewrite E.
  unfold fs_write. rewrite decide_True by exact Hd. reflexivity.
Qed.

(** What [generate] does with the file system, for every list of
    sessions. *)
Lemma generate_cases self sessions path fs t :
  forallb alarm_ok (alarm_times self) = true ->
  exists ok fs',
    generate self sessions path fs t = (Ret (ok, fs'), (t + length sessions)%nat)
    /\ denied fs' = denied fs
    /\ (forall p, p <> path -> files fs' !! p = files fs !! p)
    /\ (sessions = [] \/ path ∈ denied fs -> fs' = fs)
    /\ (sessions <> [] -> path ∉ denied fs ->
        exists cal,
          files fs' !! path = Some (Bytes (to_ical cal))
          /\ comp_name cal = "VCALENDAR"
          /\ Forall2 (event_of self) sessions (comp_subs cal)).
Proof.
  intros Hal.
  destruct (mapM_event self sessions t Hal)
    as (evs & E & F).
  destruct sessions as [|s l].
  { exists false, fs. unfold ical_generator.generate, ret. simpl.
    split; [f_equal; lia|]. repeat split; auto. congruence. }
  unfold ical_generator.generate, bind, ret. rewrite E. unfold fs_write.
  destruct (decide (path ∈ denied fs)) as [Hd|Hw].
  - exists false, fs. split; [reflexivity|]. repeat split; auto. contradiction.
  - eexists true, _. split; [reflexivity|]. cbn [files denied].
    split; [reflexivity|]. split.
    { intros p Hp. apply lookup_insert_ne. congruence. }
    split.
    { intros [?|?]; [discriminate | contradiction]. }
    intros _ _. eexists. split; [apply lookup_insert_eq|]. split; [reflexivity|exact F].
Qed.

(** X12: when the cutoff of the cleanup can be computed (or the cleanup
    is disabled) and the alarm offsets are ones that [timedelta] accepts,
    [update_ical] returns without raising, having read the clock once and
    then once per retained session, and changes no file other than the
    calendar.  The retained sessions are, with cleanup enabled, the
    sessions of the working set that end strictly after the current time
    less the days to keep, and all of them with cleanup disabled.  When no
    session is retained, or the calendar cannot be written, the file
    system is left as it was; otherwise the calendar file holds the
    serialisation of one calendar with one event per retained session, in
    the order of the working set. *)
Theorem update_ical_writes_the_retained_sessions self fs t keep cutoff :
  (ical_cleanup_enabled (config self) = true ->
   timedelta_days (ical_cleanup_days_to_keep (config self)) = Ret keep
   /\ dt_sub_td (clk t) keep = Ret cutoff) ->
  forallb alarm_ok (alarm_times (ical_gen self)) = true ->
  let path := path_join (ical_output_dir (config self)) (ical_filename (config self)) in
  exists fs',
    update_ical self fs t = (Ret fs', (S t + length (kept_of self cutoff))%nat)
    /\ denied fs' = denied fs
    /\ (forall p, p <> path -> files fs' !! p = files fs !! p)
    /\ (kept_of self cutoff = [] \/ path ∈ denied fs -> fs' = fs)
    /\ (kept_of self cutoff <> [] -> path ∉ denied fs ->
        exists cal,
          files fs' !! path = Some (Bytes (to_ical cal))
          /\ comp_name cal = "VCALENDAR"
          /\ Forall2 (event_of (ical_gen self)) (kept_of self cutoff) (comp_subs cal)).
Proof.
  intros Hc Hal path.
  destruct (generate_cases (ical_gen self) (kept_of self cutoff) path fs (S t) Hal)
    as (ok & fs' & G & R).
  exists fs'. split; [|exact R].
  unfold main.update_ical, bind, now, lift, ret. fold path.
  unfold kept_of in *.
  destruct (ical_cleanup_enabled (config self)).
  - destruct (Hc eq_refl) as [Hk Hd]. rewrite Hk, Hd.
    destruct (List.filter _ _) as [|s l]; rewrite G; reflexivity.
  - destruct (sessions self) as [|s l]; rewrite G; reflexivity.
Qed.

End Calendar.

Lemma generate_writes_one_event_per_session_witness :
  exists cal fs',
    generate (frozen new_year_2025) sample_to_ical sample_str_timedelta
      sample_strftime_uid (new_ICalGenerator "GMT" true None)
      [october_session; november_session] calendar_path stale_fs 0%nat
    = (Ret (true, fs'), (0 + length [october_session; november_session])%nat)
    /\ files fs' !! calendar_path = Some (Bytes (sample_to_ical cal))
    /\ (forall p, p <> calendar_path -> files fs' !! p = files stale_fs !! p)
    /\ denied fs' = denied stale_fs
    /\ comp_name cal = "VCALENDAR"
    /\ Forall2 (event_of sample_strftime_uid (new_ICalGenerator "GMT" true None))
         [october_session; november_session] (comp_subs cal).
Proof.
  apply (generate_writes_one_event_per_session (frozen new_year_2025)
           sample_to_ical sample_str_timedelta sample_strftime_uid
           (new_ICalGenerator "GMT" true None)
           [october_session; november_session] calendar_path stale_fs 0%nat).
  - discriminate.
  - vm_compute. reflexivity.
  - simpl. apply not_elem_of_empty.
Defined.

Lemma generate_reports_a_failed_write_witness :
  generate (frozen new_year_2025) sample_to_ical sample_str_timedelta
    sample_strftime_uid (new_ICalGenerator "GMT" true None)
    [october_session] calendar_path locked_calendar_fs 0%nat
  = (Ret (false, locked_calendar_fs), (0 + length [october_session])%nat).
Proof.
  apply (generate_reports_a_failed_write (frozen new_year_2025)
           sample_to_ical sample_str_timedelta sample_strftime_uid
           (new_ICalGenerator "GMT" true None)
           [october_session] calendar_path locked_calendar_fs 0%nat).
  - vm_compute. reflexivity.
  - simpl. apply elem_of_singleton. reflexivity.
Defined.

Lemma update_ical_writes_the_retained_sessions_witness :
  exists fs',
    update_ical (frozen new_year_2025) sample_to_ical sample_str_timedelta
      sample_strftime_uid october_monitor stale_fs 0%nat
    = (Ret fs',
       (1 + length (kept_of october_monitor (mkdt 2024 12 25 0 0 0 0)))%nat)
    /\ denied fs' = denied stale_fs
    /\ (forall p, p <> calendar_path -> files fs' !! p = files stale_fs !! p)
    /\ (kept_of october_monitor (mkdt 2024 12 25 0 0 0 0) = []
        \/ calendar_path ∈ denied stale_fs -> fs' = stale_fs)
    /\ (kept_of october_monitor (mkdt 2024 12 25 0 0 0 0) <> [] ->
        calendar_path ∉ denied stale_fs ->
        exists cal,
          files fs' !! calendar_path = Some (Bytes (sample_to_ical cal))
          /\ comp_name cal = "VCALENDAR"
          /\ Forall2 (event_of sample_strftime_uid (ical_gen october_monitor))
               (kept_of october_monitor (mkdt 2024 12 25 0 0 0 0)) (comp_subs cal)).
Proof.
  apply (update_ical_writes_the_retained_sessions (frozen new_year_2025)
           sample_to_ical sample_str_timedelta sample_strftime_uid
           october_monitor stale_fs 0%nat (7 * US_PER_DAY)
           (mkdt 2024 12 25 0 0 0 0)).
  - intros _. split; vm_compute; reflexivity.
  - vm_compute. reflexivity.
Defined.

End CalendarEvents.

(* ===================================================================== *)
(** * More on [SessionTracker]                                            *)
(* ===================================================================== *)

Module TrackerStore.
Import Py main samples TrackerFacts.

Lemma load_fields_state_file self data :
  state_file (load_fields self data) = state_file self.
Proof.
  unfold load_fields.
  repeat (match goal with |- context [match ?x with _ => _ end] => destruct x end; simpl);
    reflexivity.
Qed.

Lemma new_tracker_state_file path fs :
  state_file (new_SessionTracker path fs) = path.
Proof.
  unfold new_SessionTracker, _load_state. simpl.
  destruct (fs_exists fs path); [|reflexivity].
  destruct (json_load fs path); [|reflexivity].
  apply load_fields_state_file.
Qed.

Lemma perform_state_file c w :
  state_file (fst (snd (perform c w))) = state_file (fst w).
Proof. destruct w as [self fs], c; reflexivity. Qed.

Lemma save_denied self fs : denied (_save_state self fs) = denied fs.
Proof.
  unfold _save_state, fs_write. destruct (decide _); reflexivity.
Qed.

Lemma perform_denied c w : denied (snd (snd (perform c w))) = denied (snd w).
Proof. destruct w as [self fs], c; simpl; try reflexivity; apply save_denied. Qed.

Lemma perform_in_sync c w :
  state_file (fst w) ∉ denied (snd w) -> in_sync w -> in_sync (snd (perform c w)).
Proof.
  destruct w as [self fs]. unfold in_sync. simpl. intros W S.
  destruct c; simpl; try exact S;
    match goal with |- context [_save_state ?s fs] => exact (save_then_load s fs W) end.
Qed.

Lemma run_in_sync calls : forall w,
  state_file (fst w) ∉ denied (snd w) -> in_sync w -> in_sync (run calls w).
Proof.
  induction calls as [|c calls IH]; intros w W S; simpl; [exact S|].
  apply IH.
  - rewrite perform_state_file, perform_denied. exact W.
  - now apply perform_in_sync.
Qed.

Lemma run_state_file calls : forall w,
  state_file (fst (run calls w)) = state_file (fst w).
Proof.
  induction calls as [|c calls IH]; intros w; simpl; [reflexivity|].
  rewrite IH. apply perform_state_file.
Qed.

(** X13: a tracker that is constructed on a writable state file and then
    receives any sequence of its eight methods can be stopped at any
    point: a tracker constructed afterwards on the same file is equal to
    it, whatever the file held at the beginning. *)
Theorem restart_recovers_tracker path fs calls :
  path ∉ denied fs ->
  new_SessionTracker path (snd (run calls (new_SessionTracker path fs, fs)))
  = fst (run calls (new_SessionTracker path fs, fs)).
Proof.
  intros W.
  pose proof (run_in_sync calls (new_SessionTracker path fs, fs)) as S.
  unfold in_sync in S. simpl in S.
  rewrite run_state_file in S. simpl in S.
  rewrite new_tracker_state_file in S. apply S; [exact W | reflexivity].
Qed.

Lemma restart_recovers_tracker_witness :
  new_SessionTracker state_path
    (snd (run [Mark_seen october; Mark_notified_upcoming october]
              (new_SessionTracker state_path garbled_fs, garbled_fs)))
  = fst (run [Mark_seen october; Mark_notified_upcoming october]
             (new_SessionTracker state_path garbled_fs, garbled_fs)).
Proof.
  apply (restart_recovers_tracker state_path garbled_fs
           [Mark_seen october; Mark_notified_upcoming october]).
  simpl. apply not_elem_of_empty.
Defined.

(** X14: a state file that is missing, that is not JSON, or whose
    document is not an object gives a tracker with four empty sets; no
    error reaches the caller. *)
Theorem damaged_store_gives_empty_tracker path fs :
  match files fs !! path with
  | None | Some (Bytes _) => True
  | Some (JsonText v) => is_dict v = false
  end ->
  new_SessionTracker path fs = empty_tracker path.
Proof.
  unfold new_SessionTracker, _load_state, fs_exists, json_load. simpl.
  destruct (files fs !! path) as [[b|v]|]; intros H; try reflexivity.
  destruct v; try discriminate; reflexivity.
Qed.

Lemma damaged_store_gives_empty_tracker_witness :
  new_SessionTracker state_path garbled_fs = empty_tracker state_path.
Proof.
  apply (damaged_store_gives_empty_tracker state_path garbled_fs).
  vm_compute. exact I.
Defined.



Lemma save_save self1 self2 fs :
  state_file self1 = state_file self2 ->
  _save_state self2 (_save_state self1 fs) = _save_state self2 fs.
Proof.
  intros E. unfold _save_state, fs_write. rewrite E.
  destruct (decide (state_file self2 ∈ denied fs)) as [D|D]; simpl.
  - rewrite decide_True by exact D. reflexivity.
  - rewrite decide_False by exact D. simpl. f_equal. apply insert_insert_eq.
Qed.

Lemma tracker_eq a b :
  state_file a = state_file b -> seen_sessions a = seen_sessions b ->
  notified_upcoming a = notified_upcoming b ->
  notified_start a = notified_start b -> notified_end a = notified_end b ->
  a = b.
Proof. destruct a, b; simpl; intros; subst; reflexivity. Qed.

Lemma perform_twice_fs c1 c2 w :
  is_query c1 = false -> is_query c2 = false ->
  snd (run [c1; c2] w) = _save_state (fst (run [c1; c2] w)) (snd w).
Proof.
  destruct w as [self fs], c1, c2; simpl; try discriminate; intros _ _;
    apply save_save; reflexivity.
Qed.

(** X16: any two calls of tracker methods give the same tracker and the
    same state file in either order, and a call made twice in a row
    leaves what it left the first time: the marks are insertions into
    sets, and every save writes the whole state. *)
Theorem tracker_calls_commute c1 c2 w :
  run [c1; c2] w = run [c2; c1] w /\ run [c1; c1] w = run [c1] w.
Proof.
  assert (C : forall c w, is_query c = true -> snd (perform c w) = w)
    by (intros [] [? ?]; simpl; congruence).
  assert (T : forall c1 c2 w, fst (run [c1; c2] w) = fst (run [c2; c1] w)).
  { intros [] [] [self fs]; simpl; try reflexivity;
      apply tracker_eq; simpl; try reflexivity;
      apply leibniz_equiv; intros z; rewrite !elem_of_union; tauto. }
  assert (I : forall c w, fst (run [c; c] w) = fst (run [c] w)).
  { intros [] [self fs]; simpl; try reflexivity;
      apply tracker_eq; simpl; try reflexivity;
      apply leibniz_equiv; intros z; rewrite !elem_of_union; tauto. }
  split.
  - destruct (is_query c1) eqn:Q1.
    { simpl. rewrite (C c1 w Q1). now rewrite (C c1 _ Q1). }
    destruct (is_query c2) eqn:Q2.
    { simpl. rewrite (C c2 w Q2). now rewrite (C c2 _ Q2). }
    apply injective_projections; [apply T|].
    rewrite !perform_twice_fs by assumption. now rewrite T.
  - destruct (is_query c1) eqn:Q1.
    { simpl. now rewrite !(C c1 _ Q1). }
    apply injective_projections; [apply I|].
    rewrite perform_twice_fs by assumption. rewrite I.
    destruct w as [self fs], c1; try discriminate; reflexivity.
Qed.

(** X17: the answer of a query changes only by the mark of its own
    question and descriptor: any other call, for any descriptor, leaves
    the answer as it was. *)
Theorem other_calls_do_not_change_an_answer c q w :
  is_query q = true ->
  (forall d, q = Is_new_session d -> c <> Mark_seen d) ->
  (forall ms d, q = query ms d -> c <> mark ms d) ->
  answer q (snd (perform c w)) = answer q w.
Proof.
  intros Q N1 N2. destruct w as [self fs].
  destruct q as [d|d|d|d|d|d|d|d]; try discriminate; clear Q;
    [specialize (N1 d eq_refl); clear N2
    |specialize (N2 Upcoming d eq_refl); clear N1
    |specialize (N2 Start d eq_refl); clear N1
    |specialize (N2 End d eq_refl); clear N1];
    destruct c as [x|x|x|x|x|x|x|x]; unfold answer; simpl; try reflexivity;
    f_equal; apply bool_decide_ext;
    cbn [seen_sessions notified_upcoming notified_start notified_end];
    rewrite not_elem_of_union, not_elem_of_singleton;
    (split; [tauto|]); intros H; (split; [unfold mark in *; congruence | exact H]).
Qed.

Lemma other_calls_do_not_change_an_answer_witness :
  answer (Should_notify_start october)
    (snd (perform (Mark_notified_end october) fresh_world))
  = answer (Should_notify_start october) fresh_world.
Proof.
  apply (other_calls_do_not_change_an_answer (Mark_notified_end october)
           (Should_notify_start october) fresh_world).
  - reflexivity.
  - intros d H. discriminate.
  - intros [] d H; discriminate.
Defined.

(** X18: when the state file cannot be written, [mark_seen] still records
    the descriptor in memory ([is_new_session] is false afterwards) but
    leaves the file system as it was, and raises nothing: a tracker
    constructed afterwards on the same file answers as one constructed
    before the call. *)
Theorem unwritable_store_loses_the_mark self d fs :
  state_file self ∈ denied fs ->
  snd (mark_seen self d fs) = fs
  /\ is_new_session (fst (mark_seen self d fs)) d = false
  /\ is_new_session
       (new_SessionTracker (state_file self) (snd (mark_seen self d fs))) d
     = is_new_session (new_SessionTracker (state_file self) fs) d.
Proof.
  intros D.
  assert (E : snd (mark_seen self d fs) = fs).
  { unfold mark_seen, _save_state, fs_write. simpl.
    now rewrite decide_True by exact D. }
  repeat split; [exact E | | now rewrite E].
  unfold mark_seen, is_new_session. simpl.
  apply bool_decide_eq_false. intros N. apply N.
  apply elem_of_union_l, elem_of_singleton. reflexivity.
Qed.

Lemma unwritable_store_loses_the_mark_witness :
  snd (mark_seen (empty_tracker state_path) october locked_fs) = locked_fs
  /\ is_new_session (fst (mark_seen (empty_tracker state_path) october locked_fs))
       october = false
  /\ is_new_session
       (new_SessionTracker (state_file (empty_tracker state_path))
          (snd (mark_seen (empty_tracker state_path) october locked_fs))) october
     = is_new_session
         (new_SessionTracker (state_file (empty_tracker state_path)) locked_fs)
         october.
Proof.
  apply (unwritable_store_loses_the_mark (empty_tracker state_path) october locked_fs).
  simpl. apply elem_of_singleton. reflexivity.
Defined.

Lemma perform_seen_grows c w :
  seen_sessions (fst w) ⊆ seen_sessions (fst (snd (perform c w))).
Proof.
  destruct w as [self fs], c; simpl; try reflexivity.
  apply union_subseteq_r.
Qed.

Lemma run_seen_grows calls : forall w,
  seen_sessions (fst w) ⊆ seen_sessions (fst (run calls w)).
Proof.
  induction calls as [|c calls IH]; intros w; simpl; [reflexivity|].
  etrans; [apply (perform_seen_grows c w)|]. apply IH.
Qed.

Lemma run_seen_unmarked d calls : forall w,
  Mark_seen d ∉ calls ->
  d ∉ seen_sessions (fst w) -> d ∉ seen_sessions (fst (run calls w)).
Proof.
  induction calls as [|c calls IH]; intros w Hc Hd; simpl; [exact Hd|].
  apply not_elem_of_cons in Hc as [Hc1 Hc2].
  apply IH; [exact Hc2|].
  destruct w as [self fs], c as [x|x|x|x|x|x|x|x]; simpl; try exact Hd.
  rewrite not_elem_of_union, not_elem_of_singleton. split; [congruence|exact Hd].
Qed.

(** X19: a descriptor that the tracker has not seen stays new through
    every sequence of calls without [mark_seen] of that descriptor, and
    is not new after [mark_seen] of it, whatever calls follow: the seen
    set only grows. *)
Theorem descriptor_is_new_until_marked_seen d calls1 calls2 w :
  d ∉ seen_sessions (fst w) ->
  Mark_seen d ∉ calls1 ->
  answer (Is_new_session d) (run calls1 w) = Some true
  /\ answer (Is_new_session d) (run (calls1 ++ Mark_seen d :: calls2) w)
     = Some false.
Proof.
  intros Hd Hc. split.
  - destruct (run calls1 w) as [self fs] eqn:E. unfold answer. simpl. f_equal.
    apply bool_decide_eq_true.
    change self with (fst (self, fs)). rewrite <- E.
    now apply run_seen_unmarked.
  - rewrite run_app. simpl.
    destruct (run calls2 _) as [self fs] eqn:E. unfold answer. simpl. f_equal.
    apply bool_decide_eq_false. intros N. apply N.
    change self with (fst (self, fs)). rewrite <- E.
    apply run_seen_grows.
    destruct (run calls1 w) as [self1 fs1]. simpl.
    apply elem_of_union_l, elem_of_singleton. reflexivity.
Qed.

Lemma descriptor_is_new_until_marked_seen_witness :
  answer (Is_new_session october)
    (run [Should_notify_start october] fresh_world) = Some true
  /\ answer (Is_new_session october)
       (run ([Should_notify_start october]
             ++ Mark_seen october :: [Mark_notified_end october]) fresh_world)
     = Some false.
Proof.
  apply (descriptor_is_new_until_marked_seen october).
  - simpl. apply not_elem_of_empty.
  - intros H. repeat (apply elem_of_cons in H as [H|H]; [discriminate|]).
    now apply elem_of_nil in H.
Defined.

End TrackerStore.

(* ===================================================================== *)
(** * The cycles of the monitor                                           *)
(* ===================================================================== *)

Module MonitorFacts.
Import Py PyFacts session_parser ical_generator main samples ParserFacts
  TrackerFacts ScraperGrammar.

Lemma andthen_keeps {A B} I (c : Method A) (f : A -> Method B) :
  keeps I c -> (forall a, keeps I (f a)) -> keeps I (andthen c f).
Proof.
  intros Hc Hf p t Hp. unfold andthen.
  specialize (Hc p t Hp). destruct (c p t) as [[[a|e] p'] t']; simpl in *.
  - now apply Hf.
  - exact Hc.
Qed.

Lemma grows_refl a : grows a a.
Proof. split; [reflexivity | intros ms; reflexivity]. Qed.

Lemma grows_mark_seen self d fs : grows self (fst (mark_seen self d fs)).
Proof.
  split; simpl; [apply union_subseteq_r | intros []; reflexivity].
Qed.

Lemma grows_tracker_mark ms self d fs : grows self (fst (tracker_mark ms self d fs)).
Proof.
  split; [destruct ms; reflexivity|].
  intros ms'. destruct ms, ms'; simpl; try reflexivity; apply union_subseteq_r.
Qed.

Lemma recorded_grows p p' r :
  grows (tracker p) (tracker p') -> recorded p r -> recorded p' r.
Proof.
  unfold recorded. intros [Hs Hf]. destruct (fst (request_key r)) as [ms|].
  - apply Hf.
  - apply Hs.
Qed.

Lemma not_in_keys p r :
  Forall (recorded p) (requests p) -> ~ recorded p r ->
  request_key r ∉ map request_key (requests p).
Proof.
  intros HF Hk Hin. apply list_elem_of_fmap in Hin as (r' & E & Hr).
  rewrite Forall_forall in HF. specialize (HF r' Hr). unfold recorded in *.
  rewrite E in Hk. contradiction.
Qed.

Lemma requests_ok_same p p' :
  requests p' = requests p -> grows (tracker p) (tracker p') ->
  requests_ok p -> requests_ok p'.
Proof.
  intros E G [Rn Rr]. unfold requests_ok. rewrite E. split; [exact Rn|].
  eapply Forall_impl; [exact Rr|]. intros r. now apply recorded_grows.
Qed.

Lemma requests_ok_add p p' r :
  requests p' = requests p ++ [r] -> grows (tracker p) (tracker p') ->
  ~ recorded p r -> recorded p' r ->
  requests_ok p -> requests_ok p'.
Proof.
  intros E G Hn Hr [Rn Rr]. unfold requests_ok. rewrite E. split.
  - rewrite map_app. apply NoDup_app. repeat split; [exact Rn | | apply NoDup_singleton].
    intros k Hk Hk'. simpl in Hk'. apply list_elem_of_singleton in Hk'. subst k.
    revert Hk. now apply not_in_keys.
  - apply Forall_app. split.
    + eapply Forall_impl; [exact Rr|]. intros r'. now apply recorded_grows.
    + constructor; [exact Hr | constructor].
Qed.

Lemma working_set_ok_same p p' :
  sessions (monitor p') = sessions (monitor p) ->
  seen_sessions (tracker p) ⊆ seen_sessions (tracker p') ->
  working_set_ok p -> working_set_ok p'.
Proof.
  intros E G [Wn Ws]. unfold working_set_ok. rewrite E. split; [exact Wn|].
  eapply Forall_impl; [exact Ws|]. intros s Hs. now apply G.
Qed.

Lemma working_set_ok_add p p' s :
  sessions (monitor p') = sessions (monitor p) ++ [s] ->
  seen_sessions (tracker p) ⊆ seen_sessions (tracker p') ->
  session_str s ∉ map session_str (sessions (monitor p)) ->
  session_str s ∈ seen_sessions (tracker p') ->
  working_set_ok p -> working_set_ok p'.
Proof.
  intros E G Hn Hs [Wn Ws]. unfold working_set_ok. rewrite E. split.
  - rewrite map_app. apply NoDup_app. repeat split; [exact Wn | | apply NoDup_singleton].
    intros x Hx Hx'. simpl in Hx'. apply list_elem_of_singleton in Hx'. now subst x.
  - apply Forall_app. split.
    + eapply Forall_impl; [exact Ws|]. intros s' Hs'. now apply G.
    + constructor; [exact Hs | constructor].
Qed.

Lemma working_set_ok_filter p p' f :
  sessions (monitor p') = List.filter f (sessions (monitor p)) ->
  tracker p' = tracker p ->
  working_set_ok p -> working_set_ok p'.
Proof.
  intros E T [Wn Ws]. unfold working_set_ok. rewrite E, T. split.
  - clear Ws E. induction (sessions (monitor p)) as [|s l IH]; simpl; [constructor|].
    simpl in Wn. apply NoDup_cons in Wn as [Hn Wn].
    destruct (f s); simpl; [|now apply IH].
    apply NoDup_cons. split; [|now apply IH].
    intros Hin. apply Hn. apply list_elem_of_fmap in Hin as (s' & Es & Hs').
    apply list_elem_of_fmap. exists s'. split; [exact Es|].
    apply list_elem_of_In in Hs'. apply filter_In in Hs' as [Hs' _].
    now apply list_elem_of_In.
  - rewrite Forall_forall in *. intros s Hs. apply Ws.
    apply list_elem_of_In in Hs. apply filter_In in Hs as [Hs _].
    now apply list_elem_of_In.
Qed.

Lemma checked_refl n l p : checked n l p p.
Proof.
  split; [reflexivity|]. split; [reflexivity|]. split; [apply grows_refl|].
  exists []. split; [now rewrite app_nil_r | constructor].
Qed.

Lemma grows_trans a b c : grows a b -> grows b c -> grows a c.
Proof.
  intros [S1 F1] [S2 F2]. split; [etrans; eauto|]. intros ms. etrans; eauto.
Qed.

Lemma checked_trans n l p1 p2 p3 :
  checked n l p1 p2 -> checked n l p2 p3 -> checked n l p1 p3.
Proof.
  intros (M1 & S1 & G1 & new1 & E1 & F1) (M2 & S2 & G2 & new2 & E2 & F2).
  split; [congruence|]. split; [congruence|]. split; [eapply grows_trans; eauto|].
  exists (new1 ++ new2). split; [rewrite E2, E1; now rewrite app_assoc|].
  apply Forall_app. split.
  - eapply Forall_impl; [exact F1|]. intros r (A & B & C & D & E).
    repeat split; try assumption. eapply recorded_grows; eauto.
  - eapply Forall_impl; [exact F2|]. intros r (A & B & C & D & E).
    repeat split; try assumption. intros H. apply D. eapply recorded_grows; eauto.
Qed.

Lemma checked_weaken n l s p p' :
  checked n l p p' -> checked n (s :: l) p p'.
Proof.
  intros (M & S & G & new & E & F).
  split; [exact M|]. split; [exact S|]. split; [exact G|].
  exists new. split; [exact E|]. eapply Forall_impl; [exact F|].
  intros r (A & B). split; [now apply list_elem_of_further | exact B].
Qed.

Section Cycles.
Variable clk : Clock.
Variable to_ical : Component -> string.
Variable str_timedelta : timedelta -> string.
Variable strftime_uid : datetime -> string.
Variable nf : notifier.Notifier.
Variable upcoming_hours : Z.

Lemma parse_session_str s t sess t' :
  parse clk s t = (Ret (Some sess), t') -> session_str sess = s.
Proof.
  intros H.
  apply parse_inv in H as (p0 & p1 & a & b & rest & t1 & _ & _ & E & _). exact E.
Qed.

Lemma scrape_one_ok ty d found : keeps ok (scrape_one clk nf ty d found).
Proof.
  intros p t [W R]. unfold scrape_one.
  destruct (is_new_session (tracker p) d) eqn:New.
  - destruct (parse clk d t) as [[[sess|]|e] t'] eqn:P;
      try (split; assumption).
    apply parse_session_str in P.
    apply bool_decide_eq_true in New.
    assert (Hd : session_str sess ∉ map session_str (sessions (monitor p))).
    { rewrite P. intros Hin. apply list_elem_of_fmap in Hin as (s & -> & Hs).
      destruct W as [_ Ws]. rewrite Forall_forall in Ws. exact (New (Ws s Hs)). }
    assert (Hin : session_str sess ∈ {[d]} ∪ seen_sessions (tracker p)).
    { rewrite P. apply elem_of_union_l, elem_of_singleton. reflexivity. }
    pose proof (grows_mark_seen (tracker p) d (disk p)) as G.
    destruct (is_next ty && notifier.enabled nf); cbn [fst snd]; split.
    + eapply (working_set_ok_add p _ sess); [reflexivity | apply G | exact Hd | exact Hin | exact W].
    + eapply (requests_ok_add p _ (Notify_new_session sess));
        [reflexivity | exact G | | exact Hin | exact R].
      unfold recorded. simpl. now rewrite P.
    + eapply (working_set_ok_add p _ sess); [reflexivity | apply G | exact Hd | exact Hin | exact W].
    + eapply (requests_ok_same p); [reflexivity | exact G | exact R].
  - destruct (parse clk d t) as [[[sess|]|e] t'] eqn:P;
      try (split; assumption).
    destruct (existsb _ _) eqn:Ex; cbn [negb fst snd]; [split; assumption|].
    apply parse_session_str in P.
    apply bool_decide_eq_false in New. apply dec_stable in New.
    split.
    + eapply (working_set_ok_add p _ sess); [reflexivity | reflexivity | | | exact W].
      * intros Hx. apply list_elem_of_fmap in Hx as (s & Es & Hs).
        assert (existsb (fun s0 => String.eqb (session_str s0) d) (sessions (monitor p)) = true).
        { apply existsb_exists. exists s. split; [now apply list_elem_of_In|].
          apply String.eqb_eq. congruence. }
        congruence.
      * cbn. now rewrite P.
    + eapply (requests_ok_same p); [reflexivity | apply grows_refl | exact R].
Qed.

Lemma scrape_loop_ok ty l : forall found, keeps ok (scrape_loop clk nf ty l found).
Proof.
  induction l as [|d l IH]; intros found; simpl.
  - intros p t H. exact H.
  - apply andthen_keeps; [apply scrape_one_ok | exact IH].
Qed.

Lemma scrape_sessions_ok fetched : keeps ok (scrape_sessions clk nf fetched).
Proof.
  unfold scrape_sessions. destruct (octopus_scraper.scrape fetched) as [ty l].
  destruct l as [|d l]; [intros p t H; exact H|]. apply scrape_loop_ok.
Qed.

Lemma check_milestone_ok ms s : keeps ok (check_milestone clk nf upcoming_hours ms s).
Proof.
  intros p t [W R]. unfold check_milestone.
  destruct (tracker_should ms (tracker p) (session_str s)) eqn:TS; [|split; assumption].
  destruct (notifier_should clk nf ms s t) as [[[]|e] t']; try (split; assumption).
  pose proof (grows_tracker_mark ms (tracker p) (session_str s) (disk p)) as G.
  assert (Hn : session_str s ∉ flag_set ms (tracker p)).
  { destruct ms; simpl in TS; now apply bool_decide_eq_true in TS. }
  cbn [fst snd]. split.
  - eapply (working_set_ok_same p); [reflexivity | apply G | exact W].
  - eapply (requests_ok_add p _ (request_for upcoming_hours ms s));
      [reflexivity | exact G | | | exact R].
    + unfold recorded. destruct ms; exact Hn.
    + unfold recorded. destruct ms; simpl;
        apply elem_of_union_l, elem_of_singleton; reflexivity.
Qed.

Lemma check_session_ok n s : keeps ok (check_session clk nf upcoming_hours n s).
Proof.
  unfold check_session. destruct (dt_ltb (end_time s) n); [intros p t H; exact H|].
  apply andthen_keeps; [apply check_milestone_ok|]. intros _.
  apply andthen_keeps; [apply check_milestone_ok|]. intros _.
  apply check_milestone_ok.
Qed.

Lemma check_loop_ok n l : keeps ok (check_loop clk nf upcoming_hours n l).
Proof.
  induction l as [|s l IH]; simpl; [intros p t H; exact H|].
  apply andthen_keeps; [apply check_session_ok | intros _; exact IH].
Qed.

Lemma check_notifications_ok : keeps ok (check_notifications clk nf upcoming_hours).
Proof.
  intros p t H. unfold check_notifications.
  destruct (negb (notifier.enabled nf)); [exact H|]. now apply check_loop_ok.
Qed.

Lemma cleanup_ok : keeps ok (cleanup_old_sessions clk).
Proof.
  intros p t [W R]. unfold cleanup_old_sessions. cbn [fst snd]. split.
  - eapply (working_set_ok_filter p); [reflexivity | reflexivity | exact W].
  - eapply (requests_ok_same p); [reflexivity | apply grows_refl | exact R].
Qed.

Lemma update_ical_ok :
  keeps ok (update_ical_method clk to_ical str_timedelta strftime_uid).
Proof.
  intros p t H. unfold update_ical_method.
  destruct (update_ical _ _ _ _ _ _ _) as [[fs'|e] t']; exact H.
Qed.

Lemma logged_ok c p t : keeps ok c -> ok p -> ok (fst (logged c p t)).
Proof.
  intros Hc Hp. unfold logged. specialize (Hc p t Hp).
  destruct (c p t) as [[o p'] t']. exact Hc.
Qed.

Lemma run_cycle_ok c p t :
  ok p ->
  ok (fst (run_cycle clk to_ical str_timedelta strftime_uid nf upcoming_hours c p t)).
Proof.
  intros H. destruct c as [fetched|]; apply logged_ok; try exact H.
  - apply andthen_keeps; [apply scrape_sessions_ok|]. intros _.
    apply andthen_keeps; [apply update_ical_ok|]. intros _. apply cleanup_ok.
  - apply andthen_keeps; [apply check_notifications_ok|]. intros _.
    apply update_ical_ok.
Qed.

Lemma run_cycles_ok cs : forall p t,
  ok p ->
  ok (fst (run_cycles clk to_ical str_timedelta strftime_uid nf upcoming_hours cs p t)).
Proof.
  induction cs as [|c cs IH]; intros p t H; simpl; [exact H|].
  pose proof (run_cycle_ok c p t H) as H1.
  destruct (run_cycle _ _ _ _ _ _ c p t) as [p' t']. now apply IH.
Qed.

(** X20: through every sequence of scrape cycles and notification cycles,
    whatever pages the scrapes fetch, whatever the clock shows and whether
    or not a cycle is cut short by an exception, the working set of a
    monitor that starts with an empty one never holds two sessions with the
    same descriptor, and every session in it has been marked seen. *)
Theorem working_set_holds_a_descriptor_once cs cfg gen tr fs t :
  let p := fst (run_cycles clk to_ical str_timedelta strftime_uid nf upcoming_hours
                  cs (mkProcess (mkMonitor cfg gen []) tr fs []) t) in
  NoDup (map session_str (sessions (monitor p)))
  /\ Forall (fun s => is_new_session (tracker p) (session_str s) = false)
       (sessions (monitor p)).
Proof.
  intros p.
  assert (H : ok p).
  { apply run_cycles_ok. split; split; simpl; constructor. }
  destruct H as [[Wn Ws] _]. split; [exact Wn|].
  eapply Forall_impl; [exact Ws|]. intros s Hs.
  apply bool_decide_eq_false. intros N. exact (N Hs).
Qed.

(** X21: through every sequence of scrape cycles and notification cycles,
    the monitor asks the notifier at most once for each kind of
    notification (new session, upcoming, starting, ending) and descriptor,
    and every request it has made is recorded in the tracker's set of that
    kind, also when the state file cannot be written or a cycle is cut
    short by an exception. *)
Theorem no_request_is_made_twice cs cfg gen tr fs t :
  let p := fst (run_cycles clk to_ical str_timedelta strftime_uid nf upcoming_hours
                  cs (mkProcess (mkMonitor cfg gen []) tr fs []) t) in
  NoDup (map request_key (requests p)) /\ Forall (recorded p) (requests p).
Proof.
  intros p.
  assert (H : ok p).
  { apply run_cycles_ok. split; split; simpl; constructor. }
  exact (proj2 H).
Qed.

Lemma andthen_links {A B} (R : Process -> Process -> Prop) (c : Method A)
    (f : A -> Method B) :
  (forall a b c, R a b -> R b c -> R a c) ->
  links R c -> (forall a, links R (f a)) -> links R (andthen c f).
Proof.
  intros Tr Hc Hf p t. unfold andthen. specialize (Hc p t).
  destruct (c p t) as [[[a|e] p'] t']; simpl in *; [|exact Hc].
  eapply Tr; [exact Hc | apply Hf].
Qed.

Lemma check_milestone_checked n ms s :
  dt_ltb (end_time s) n = false ->
  links (checked n [s]) (check_milestone clk nf upcoming_hours ms s).
Proof.
  intros Live p t. unfold check_milestone.
  destruct (tracker_should ms (tracker p) (session_str s)) eqn:TS; [|apply checked_refl].
  destruct (notifier_should clk nf ms s t) as [[[]|e] t']; try apply checked_refl.
  cbn [fst snd].
  assert (Hn : session_str s ∉ flag_set ms (tracker p)).
  { destruct ms; simpl in TS; now apply bool_decide_eq_true in TS. }
  split; [reflexivity|]. split; [destruct ms; reflexivity|].
  split; [apply grows_tracker_mark|].
  exists [request_for upcoming_hours ms s]. split; [reflexivity|].
  constructor; [|constructor]. unfold due, recorded.
  destruct ms; simpl; (split; [apply list_elem_of_here|]); (split; [exact Live|]);
    (split; [discriminate|]); (split; [exact Hn|]);
    apply elem_of_union_l, elem_of_singleton; reflexivity.
Qed.

Lemma check_session_checked n s :
  links (checked n [s]) (check_session clk nf upcoming_hours n s).
Proof.
  unfold check_session. destruct (dt_ltb (end_time s) n) eqn:Live.
  - intros p t. apply checked_refl.
  - apply andthen_links; [apply checked_trans | now apply check_milestone_checked|].
    intros _.
    apply andthen_links; [apply checked_trans | now apply check_milestone_checked|].
    intros _. now apply check_milestone_checked.
Qed.

Lemma checked_here n l s p p' : checked n [s] p p' -> checked n (s :: l) p p'.
Proof.
  intros (M & S & G & new & E & F).
  split; [exact M|]. split; [exact S|]. split; [exact G|].
  exists new. split; [exact E|]. eapply Forall_impl; [exact F|].
  intros r (A & B). split; [|exact B].
  apply list_elem_of_singleton in A. rewrite A. apply list_elem_of_here.
Qed.

Lemma check_loop_checked n l :
  links (checked n l) (check_loop clk nf upcoming_hours n l).
Proof.
  induction l as [|s l IH]; simpl; [intros p t; apply checked_refl|].
  apply andthen_links; [apply checked_trans | |].
  - intros p t. apply checked_here. apply check_session_checked.
  - intros _ p t. apply checked_weaken. apply IH.
Qed.

(** X22: [check_notifications] changes neither the working set nor the
    seen set, and does nothing at all when the notifier is disabled.  Each
    request it makes is for a milestone of a session of the working set
    that had not ended at the time read at the start of the check (so an
    end notification is never requested after the end of the session),
    that the tracker had not recorded before the check and has recorded
    after it, whether or not the check is cut short by an exception. *)
Theorem check_notifications_serves_live_sessions p t :
  let p' := snd (fst (check_notifications clk nf upcoming_hours p t)) in
  monitor p' = monitor p
  /\ seen_sessions (tracker p') = seen_sessions (tracker p)
  /\ (notifier.enabled nf = true \/ p' = p)
  /\ exists new,
       requests p' = requests p ++ new
       /\ Forall (fun r =>
                    request_session r ∈ sessions (monitor p)
                    /\ dt_ltb (end_time (request_session r)) (clk t) = false
                    /\ fst (request_key r) <> None
                    /\ ~ recorded p r
                    /\ recorded p' r) new.
Proof.
  unfold check_notifications. destruct (notifier.enabled nf) eqn:En; simpl.
  - destruct (check_loop_checked (clk t) (sessions (monitor p)) p (S t))
      as (M & S & G & new & E & F).
    split; [exact M|]. split; [exact S|]. split; [now left|].
    exists new. split; assumption.
  - split; [reflexivity|]. split; [reflexivity|]. split; [now right|].
    exists []. split; [now rewrite app_nil_r | constructor].
Qed.

Lemma scrape_one_no_IndexError ty d found p t p' t' :
  (forall t t', parse clk d t <> (Raise IndexError, t')) ->
  scrape_one clk nf ty d found p t <> (Raise IndexError, p', t').
Proof.
  intros Hd. unfold scrape_one.
  destruct (is_new_session (tracker p) d);
    destruct (parse clk d t) as [[[sess|]|e0] t0] eqn:P; try discriminate.
  - intros H. injection H as -> _ _. exact (Hd _ _ P).
  - destruct (negb _); discriminate.
  - intros H. injection H as -> _ _. exact (Hd _ _ P).
Qed.

Lemma scrape_loop_no_IndexError ty l : forall found p t p' t',
  (forall d, d ∈ l -> forall t t', parse clk d t <> (Raise IndexError, t')) ->
  scrape_loop clk nf ty l found p t <> (Raise IndexError, p', t').
Proof.
  induction l as [|d l IH]; intros found p t p' t' Hl; simpl; [discriminate|].
  unfold andthen.
  destruct (scrape_one clk nf ty d found p t) as [[[f1|e1] p1] t1] eqn:E1.
  - apply IH. intros d' Hd'. apply Hl. now apply list_elem_of_further.
  - intros H. injection H as -> _ _. revert E1. apply scrape_one_no_IndexError.
    apply Hl. apply list_elem_of_here.
Qed.

Lemma scrape_sessions_no_IndexError fetched p t p' t' :
  scrape_sessions clk nf fetched p t <> (Raise IndexError, p', t').
Proof.
  unfold scrape_sessions, octopus_scraper.scrape.
  destruct fetched as [html|]; [|discriminate].
  destruct (octopus_scraper.extract_sessions html) as [ty l] eqn:E.
  destruct l as [|d l]; [discriminate|].
  apply scrape_loop_no_IndexError. intros d' Hd' t0 t0'.
  apply (extracted_parse_no_IndexError html). now rewrite E.
Qed.

End Cycles.

Lemma untouched_refl ms s q p : untouched ms s q p p.
Proof.
  exists []. split; [now rewrite app_nil_r|]. split; [apply not_elem_of_nil | tauto].
Qed.

Lemma untouched_trans ms s q p1 p2 p3 :
  untouched ms s q p1 p2 -> untouched ms s q p2 p3 -> untouched ms s q p1 p3.
Proof.
  intros (n1 & E1 & N1 & F1) (n2 & E2 & N2 & F2). exists (n1 ++ n2).
  split; [rewrite E2, E1; now rewrite app_assoc|]. split; [|tauto].
  rewrite elem_of_app. tauto.
Qed.

Lemma untouched_settled ms s q b p1 p2 p3 :
  untouched ms s q p1 p2 -> settled ms s q b p2 p3 -> settled ms s q b p1 p3.
Proof.
  intros (n1 & E1 & N1 & F1) (n2 & E2 & N2 & F2). exists (n1 ++ n2).
  split; [rewrite E2, E1; now rewrite app_assoc|]. split; [|tauto].
  rewrite elem_of_app. tauto.
Qed.

Lemma settled_untouched ms s q b p1 p2 p3 :
  settled ms s q b p1 p2 -> untouched ms s q p2 p3 -> settled ms s q b p1 p3.
Proof.
  intros (n1 & E1 & N1 & F1) (n2 & E2 & N2 & F2). exists (n1 ++ n2).
  split; [rewrite E2, E1; now rewrite app_assoc|]. split; [|tauto].
  rewrite elem_of_app. tauto.
Qed.

Section Due.
Variable clk : Clock.
Variable nf : notifier.Notifier.
Variable upcoming_hours : Z.

Local Abbreviation check_milestone := (check_milestone clk nf upcoming_hours).
Local Abbreviation check_session := (check_session clk nf upcoming_hours).
Local Abbreviation check_loop := (check_loop clk nf upcoming_hours).
Local Abbreviation request_for := (request_for upcoming_hours).
Local Abbreviation upcoming_defined := (upcoming_defined nf).

Lemma request_for_inj ms ms' s s' :
  request_for ms s = request_for ms' s' -> ms = ms' /\ s = s'.
Proof. destruct ms, ms'; simpl; intros H; try discriminate; now injection H as ->. Qed.

Lemma notifier_should_time ms s t :
  (t <= snd (notifier_should clk nf ms s t) <= S t)%nat.
Proof.
  destruct ms; simpl;
    unfold notifier.should_notify_upcoming, notifier.should_notify_start,
      notifier.should_notify_end, bind, now, lift, ret.
  - destruct (negb _); simpl; [lia|].
    destruct (timedelta_hours _); simpl; [|lia].
    destruct (dt_sub_td _ _); simpl; lia.
  - destruct (_ || _); simpl; lia.
  - destruct (_ || _); simpl; lia.
Qed.

Lemma check_milestone_time ms s p t :
  (t <= snd (check_milestone ms s p t) <= S t)%nat.
Proof.
  unfold main.check_milestone.
  destruct (tracker_should ms (tracker p) (session_str s)); simpl; [|lia].
  pose proof (notifier_should_time ms s t) as H.
  destruct (notifier_should clk nf ms s t) as [[[]|e] t']; simpl in *; lia.
Qed.

Lemma check_session_time n s p t : (t <= snd (check_session n s p t))%nat.
Proof.
  unfold main.check_session. destruct (dt_ltb (end_time s) n); simpl; [lia|].
  unfold andthen.
  pose proof (check_milestone_time Upcoming s p t) as H1.
  destruct (check_milestone Upcoming s p t) as [[[[]|e1] p1] t1]; simpl in *; [|lia].
  pose proof (check_milestone_time Start s p1 t1) as H2.
  destruct (check_milestone Start s p1 t1) as [[[[]|e2] p2] t2]; simpl in *; [|lia].
  pose proof (check_milestone_time End s p2 t2) as H3. lia.
Qed.

Lemma check_loop_time n l : forall p t, (t <= snd (check_loop n l p t))%nat.
Proof.
  induction l as [|s l IH]; intros p t; simpl; [lia|]. unfold andthen.
  pose proof (check_session_time n s p t) as H1.
  destruct (check_session n s p t) as [[[[]|e1] p1] t1]; simpl in *; [|lia].
  specialize (IH p1 t1). lia.
Qed.

(** A check of another milestone, or of another descriptor. *)
Lemma check_milestone_other ms s ms0 s0 p t :
  ms0 <> ms \/ session_str s0 <> session_str s ->
  untouched ms s (request_for ms s) p (snd (fst (check_milestone ms0 s0 p t))).
Proof.
  intros Other. unfold main.check_milestone.
  destruct (tracker_should ms0 (tracker p) (session_str s0)); [|apply untouched_refl].
  destruct (notifier_should clk nf ms0 s0 t) as [[[]|e] t']; try apply untouched_refl.
  cbn [fst snd]. exists [request_for ms0 s0]. split; [reflexivity|]. split.
  - intros H. apply list_elem_of_singleton in H. apply request_for_inj in H as [-> ->].
    destruct Other; congruence.
  - cbn. destruct ms0, ms; cbn; try tauto;
      rewrite elem_of_union, elem_of_singleton;
      (split; [intros [E|H]; [destruct Other; congruence | exact H] | now right]).
Qed.

Lemma check_session_other n ms s s0 p t :
  session_str s0 <> session_str s ->
  untouched ms s (request_for ms s) p (snd (fst (check_session n s0 p t))).
Proof.
  intros Other. unfold main.check_session.
  destruct (dt_ltb (end_time s0) n); [apply untouched_refl|]. unfold andthen.
  pose proof (check_milestone_other ms s Upcoming s0 p t (or_intror Other)) as U1.
  destruct (check_milestone Upcoming s0 p t) as [[[[]|e1] p1] t1]; simpl in *; [|exact U1].
  pose proof (check_milestone_other ms s Start s0 p1 t1 (or_intror Other)) as U2.
  destruct (check_milestone Start s0 p1 t1) as [[[[]|e2] p2] t2]; simpl in *;
    [|eapply untouched_trans; eassumption].
  pose proof (check_milestone_other ms s End s0 p2 t2 (or_intror Other)) as U3.
  eapply untouched_trans; [exact U1|]. eapply untouched_trans; eassumption.
Qed.

Lemma check_loop_other n ms s l : forall p t,
  Forall (fun s0 => session_str s0 <> session_str s) l ->
  untouched ms s (request_for ms s) p (snd (fst (check_loop n l p t))).
Proof.
  induction l as [|s0 l IH]; intros p t F; simpl; [apply untouched_refl|].
  apply Forall_cons in F as [F0 F]. unfold andthen.
  pose proof (check_session_other n ms s s0 p t F0) as U1.
  destruct (check_session n s0 p t) as [[[[]|e1] p1] t1]; simpl in *; [|exact U1].
  eapply untouched_trans; [exact U1|]. now apply IH.
Qed.

Lemma notifier_answers ms s t :
  upcoming_defined s -> exists b, fst (notifier_should clk nf ms s t) = Ret b.
Proof.
  intros (lead & nt & L & N). destruct ms; simpl.
  - unfold notifier.should_notify_upcoming, bind, now, lift, ret.
    destruct (negb _); simpl; [eauto|]. rewrite L. simpl. rewrite N. simpl. eauto.
  - unfold notifier.should_notify_start. destruct (_ || _); simpl; eauto.
  - unfold notifier.should_notify_end. destruct (_ || _); simpl; eauto.
Qed.

Lemma check_milestone_ret ms s p t :
  upcoming_defined s -> fst (fst (check_milestone ms s p t)) = Ret tt.
Proof.
  intros D. unfold main.check_milestone.
  destruct (tracker_should ms (tracker p) (session_str s)); [|reflexivity].
  destruct (notifier_answers ms s t D) as [b H].
  destruct (notifier_should clk nf ms s t) as [[[]|e] t']; simpl in *;
    try reflexivity; discriminate.
Qed.

(** The check of the milestone itself. *)
Lemma check_milestone_target ms s p t b :
  session_str s ∉ flag_set ms (tracker p) ->
  fst (notifier_should clk nf ms s t) = Ret b ->
  settled ms s (request_for ms s) b p (snd (fst (check_milestone ms s p t))).
Proof.
  intros New H. unfold main.check_milestone.
  assert (TS : tracker_should ms (tracker p) (session_str s) = true)
    by (destruct ms; simpl; now apply bool_decide_eq_true).
  rewrite TS.
  destruct (notifier_should clk nf ms s t) as [[[]|e] t']; simpl in H;
    try discriminate; injection H as <-; cbn [fst snd].
  - exists [request_for ms s]. split; [reflexivity|]. split.
    + split; [reflexivity|]. intros _. apply list_elem_of_here.
    + split; [reflexivity|]. intros _.
      destruct ms; cbn; apply elem_of_union_l, elem_of_singleton; reflexivity.
  - exists []. split; [now rewrite app_nil_r|]. split.
    + split; [intros H; now apply elem_of_nil in H | discriminate].
    + split; [intros H; contradiction | discriminate].
Qed.

Lemma untouched_new ms s q p p' :
  untouched ms s q p p' ->
  session_str s ∉ flag_set ms (tracker p) ->
  session_str s ∉ flag_set ms (tracker p').
Proof. intros (new & _ & _ & F) N. tauto. Qed.

Lemma check_session_target n ms s p t :
  dt_ltb (end_time s) n = false ->
  upcoming_defined s ->
  session_str s ∉ flag_set ms (tracker p) ->
  let r := check_session n s p t in
  fst (fst r) = Ret tt
  /\ exists t' b,
       (t <= t' <= snd r)%nat
       /\ fst (notifier_should clk nf ms s t') = Ret b
       /\ settled ms s (request_for ms s) b p (snd (fst r)).
Proof.
  intros Live D New. unfold main.check_session. rewrite Live. unfold andthen.
  pose proof (check_milestone_ret Upcoming s p t D) as R1.
  pose proof (check_milestone_time Upcoming s p t) as T1.
  pose proof (check_milestone_other ms s Upcoming s p t) as O1.
  pose proof (check_milestone_target Upcoming s p t) as G1.
  destruct (check_milestone Upcoming s p t) as [[o1 p1] t1]. simpl in R1, T1, O1, G1.
  subst o1.
  pose proof (check_milestone_ret Start s p1 t1 D) as R2.
  pose proof (check_milestone_time Start s p1 t1) as T2.
  pose proof (check_milestone_other ms s Start s p1 t1) as O2.
  pose proof (check_milestone_target Start s p1 t1) as G2.
  destruct (check_milestone Start s p1 t1) as [[o2 p2] t2]. simpl in R2, T2, O2, G2.
  subst o2.
  pose proof (check_milestone_ret End s p2 t2 D) as R3.
  pose proof (check_milestone_time End s p2 t2) as T3.
  pose proof (check_milestone_other ms s End s p2 t2) as O3.
  pose proof (check_milestone_target End s p2 t2) as G3.
  destruct (check_milestone End s p2 t2) as [[o3 p3] t3]. simpl in R3, T3, O3, G3.
  subst o3. cbn [fst snd]. split; [reflexivity|].
  destruct ms.
  - destruct (notifier_answers Upcoming s t D) as [b Hb].
    exists t, b. split; [lia|]. split; [exact Hb|].
    eapply settled_untouched; [exact (G1 b New Hb)|].
    eapply untouched_trans; [apply O2 | apply O3]; left; discriminate.
  - destruct (notifier_answers Start s t1 D) as [b Hb].
    exists t1, b. split; [lia|]. split; [exact Hb|].
    assert (U1 : untouched Start s (request_for Start s) p p1) by (apply O1; left; discriminate).
    eapply untouched_settled; [exact U1|].
    eapply settled_untouched;
      [apply (G2 b); [exact (untouched_new _ _ _ _ _ U1 New) | exact Hb]|].
    apply O3. left. discriminate.
  - destruct (notifier_answers End s t2 D) as [b Hb].
    exists t2, b. split; [lia|]. split; [exact Hb|].
    assert (U1 : untouched End s (request_for End s) p p1) by (apply O1; left; discriminate).
    assert (U2 : untouched End s (request_for End s) p1 p2) by (apply O2; left; discriminate).
    eapply untouched_settled; [exact U1|].
    eapply untouched_settled; [exact U2|].
    apply (G3 b); [|exact Hb].
    exact (untouched_new _ _ _ _ _ U2 (untouched_new _ _ _ _ _ U1 New)).
Qed.

Lemma check_session_ret n s p t :
  upcoming_defined s -> fst (fst (check_session n s p t)) = Ret tt.
Proof.
  intros D. unfold main.check_session.
  destruct (dt_ltb (end_time s) n); [reflexivity|]. unfold andthen.
  pose proof (check_milestone_ret Upcoming s p t D) as R1.
  destruct (check_milestone Upcoming s p t) as [[o1 p1] t1]. simpl in R1. subst o1.
  pose proof (check_milestone_ret Start s p1 t1 D) as R2.
  destruct (check_milestone Start s p1 t1) as [[o2 p2] t2]. simpl in R2. subst o2.
  now apply check_milestone_ret.
Qed.

Lemma check_loop_ret n l : forall p t,
  Forall upcoming_defined l -> fst (fst (check_loop n l p t)) = Ret tt.
Proof.
  induction l as [|s l IH]; intros p t F; simpl; [reflexivity|].
  apply Forall_cons in F as [F0 F]. unfold andthen.
  pose proof (check_session_ret n s p t F0) as R.
  destruct (check_session n s p t) as [[o1 p1] t1]. simpl in R. subst o1.
  now apply IH.
Qed.

Lemma check_loop_target n ms s l : forall p t,
  s ∈ l ->
  NoDup (map session_str l) ->
  dt_ltb (end_time s) n = false ->
  Forall upcoming_defined l ->
  session_str s ∉ flag_set ms (tracker p) ->
  let r := check_loop n l p t in
  fst (fst r) = Ret tt
  /\ exists t' b,
       (t <= t' <= snd r)%nat
       /\ fst (notifier_should clk nf ms s t') = Ret b
       /\ settled ms s (request_for ms s) b p (snd (fst r)).
Proof.
  induction l as [|s0 l IH]; intros p t Hin ND Live F New; [now apply elem_of_nil in Hin|].
  cbn zeta. split; [now apply check_loop_ret|].
  simpl. unfold andthen.
  apply Forall_cons in F as [F0 F]. simpl in ND. apply NoDup_cons in ND as [N0 ND].
  pose proof (check_session_ret n s0 p t F0) as R.
  pose proof (check_session_time n s0 p t) as T1.
  apply elem_of_cons in Hin as [->|Hin].
  - pose proof (check_session_target n ms s0 p t Live F0 New) as [_ (t' & b & Bt & Hb & S)].
    destruct (check_session n s0 p t) as [[o1 p1] t1]. simpl in R, T1, Bt, S. subst o1.
    pose proof (check_loop_time n l p1 t1) as T2.
    exists t', b. split; [lia|]. split; [exact Hb|].
    eapply settled_untouched; [exact S|]. apply check_loop_other.
    apply Forall_forall. intros s1 H1 E. apply N0.
    apply list_elem_of_fmap. exists s1. split; [now symmetry | exact H1].
  - assert (Ne : session_str s0 <> session_str s).
    { intros E. apply N0. apply list_elem_of_fmap. exists s. split; [exact E | exact Hin]. }
    pose proof (check_session_other n ms s s0 p t Ne) as U.
    destruct (check_session n s0 p t) as [[o1 p1] t1]. simpl in R, T1, U. subst o1.
    destruct (IH p1 t1 Hin ND Live F (untouched_new _ _ _ _ _ U New))
      as [_ (t' & b & Bt & Hb & S)].
    exists t', b. split; [lia|]. split; [exact Hb|].
    eapply untouched_settled; eassumption.
Qed.

(** X23: for a session of the working set, whose descriptors are pairwise
    distinct, that has not ended at the time [check_notifications] reads
    first, and a milestone whose flag is not set for it: the check returns
    without raising, it puts the notifier's test of that milestone once, at
    one of its readings of the clock, and it makes the request of the
    milestone for the session, and sets the flag, exactly when that test
    answers true.  The clock may run during the check. *)
Theorem due_notification_is_requested ms s p t :
  notifier.enabled nf = true ->
  s ∈ sessions (monitor p) ->
  NoDup (map session_str (sessions (monitor p))) ->
  dt_ltb (end_time s) (clk t) = false ->
  Forall upcoming_defined (sessions (monitor p)) ->
  session_str s ∉ flag_set ms (tracker p) ->
  let r := check_notifications clk nf upcoming_hours p t in
  fst (fst r) = Ret tt
  /\ exists t' b new,
       (S t <= t' <= snd r)%nat
       /\ fst (notifier_should clk nf ms s t') = Ret b
       /\ requests (snd (fst r)) = requests p ++ new
       /\ (request_for ms s ∈ new <-> b = true)
       /\ (session_str s ∈ flag_set ms (tracker (snd (fst r))) <-> b = true).
Proof.
  intros En Hin ND Live F New. unfold check_notifications. rewrite En. cbn [negb].
  destruct (check_loop_target (clk t) ms s (sessions (monitor p)) p (S t)
              Hin ND Live F New) as [R (t' & b & Bt & Hb & new & E & Q & Fl)].
  split; [exact R|]. exists t', b, new. auto.
Qed.

End Due.

Lemma due_notification_is_requested_witness :
  let r := check_notifications minute_clock hourly_notifier 1 waiting_process 0%nat in
  fst (fst r) = Ret tt
  /\ exists t' b new,
       (1 <= t' <= snd r)%nat
       /\ fst (notifier_should minute_clock hourly_notifier Start
                 (session_at (mkdt 2025 1 1 0 2 0 0)) t') = Ret b
       /\ requests (snd (fst r)) = requests waiting_process ++ new
       /\ (request_for 1 Start (session_at (mkdt 2025 1 1 0 2 0 0)) ∈ new <-> b = true)
       /\ (session_str (session_at (mkdt 2025 1 1 0 2 0 0))
           ∈ flag_set Start (tracker (snd (fst r))) <-> b = true).
Proof.
  apply (due_notification_is_requested minute_clock hourly_notifier 1
           Start (session_at (mkdt 2025 1 1 0 2 0 0)) waiting_process 0%nat).
  - reflexivity.
  - apply list_elem_of_here.
  - simpl. apply NoDup_singleton.
  - vm_compute. reflexivity.
  - apply List.Forall_cons; [|apply List.Forall_nil].
    eexists. eexists. split; [vm_compute; reflexivity|]. vm_compute. reflexivity.
  - simpl. apply not_elem_of_empty.
Defined.

(** With the running clock the start of the session is due at the third
    reading, and the request is made. *)
Example start_is_requested_under_a_running_clock :
  requests (snd (fst (check_notifications minute_clock hourly_notifier 1
                        waiting_process 0%nat)))
  = [Notify_session_starting (session_at (mkdt 2025 1 1 0 2 0 0))].
Proof. vm_compute. reflexivity. Qed.

(** X24: [scrape_sessions] never fails with [IndexError], for every page
    made of the code points U+0000 to U+00FF (or failed request), tracker,
    notifier and clock: the descriptors it parses come from the
    extractor.  An exception of [parse] does leave
    it, though: on a page whose descriptor has the hour 25, it raises
    [ValueError] before anything is changed. *)
Theorem scrape_sessions_never_raises_IndexError :
  (forall clk nf fetched p t p' t',
     scrape_sessions clk nf fetched p t <> (Raise IndexError, p', t'))
  /\ scrape_sessions (frozen new_year_2025) hourly_notifier (Some bad_hour_page)
       fresh_process 0%nat
     = (Raise ValueError, fresh_process, 1%nat).
Proof.
  split.
  - intros clk nf fetched p t p' t'. apply scrape_sessions_no_IndexError.
  - vm_compute. reflexivity.
Qed.

Lemma run_loop_scrapes n si ni : forall m,
  0 <= ni -> si <= ni -> si <= m + ni ->
  run_loop n si ni m
  = (concat (repeat [Sleep (ni * 60); Do_scrape_cycle] n), None).
Proof.
  induction n as [|n IH]; intros m H0 H1 H2; simpl; [reflexivity|].
  destruct (ni * 60 <? 0) eqn:E; [apply Z.ltb_lt in E; lia|].
  destruct (si <=? m + ni) eqn:L; [|apply Z.leb_gt in L; lia].
  rewrite IH by lia. reflexivity.
Qed.

(** X25: when the scrape interval is not longer than the notification
    interval, every round of the loop of [run] is a scrape cycle: the
    notification cycle, and with it [check_notifications], never runs. *)
Theorem short_scrape_interval_leaves_no_notification_cycle n si ni :
  0 <= ni -> si <= ni ->
  monitor_run n si ni
  = (Do_scrape_cycle :: concat (repeat [Sleep (ni * 60); Do_scrape_cycle] n), None).
Proof.
  intros H0 H1. unfold monitor_run. rewrite run_loop_scrapes by lia. reflexivity.
Qed.

Lemma run_loop_notifies k : forall n si ni m,
  0 <= ni -> m + Z.of_nat k * ni < si ->
  run_loop (k + n) si ni m
  = let '(l, e) := run_loop n si ni (m + Z.of_nat k * ni) in
    (concat (repeat [Sleep (ni * 60); Do_notification_cycle] k) ++ l, e).
Proof.
  induction k as [|k IH]; intros n si ni m H0 H1.
  - simpl. replace (m + Z.of_nat 0 * ni) with m by (simpl; lia).
    now destruct (run_loop n si ni m).
  - cbn [Nat.add run_loop].
    assert (P : 0 <= Z.of_nat k * ni) by (apply Z.mul_nonneg_nonneg; lia).
    assert (Q : Z.of_nat (S k) * ni = Z.of_nat k * ni + ni) by (rewrite Nat2Z.inj_succ; ring).
    destruct (ni * 60 <? 0) eqn:E; [apply Z.ltb_lt in E; lia|].
    destruct (si <=? m + ni) eqn:L; [apply Z.leb_le in L; lia|].
    rewrite IH by lia.
    replace (m + ni + Z.of_nat k * ni) with (m + Z.of_nat (S k) * ni) by lia.
    now destruct (run_loop n si ni (m + Z.of_nat (S k) * ni)).
Qed.

(** X26: [run] makes a scrape cycle before the loop and another one in
    the first round of the loop, one sleep later; from then on, when
    [q] notification intervals are less than the scrape interval and
    [q + 1] reach it, [q] rounds with a notification cycle are followed
    by one round with a scrape cycle, and the count starts again. *)
Theorem scrape_cycles_come_at_the_scrape_interval q n si ni :
  0 <= ni ->
  Z.of_nat q * ni < si <= (Z.of_nat q + 1) * ni ->
  monitor_run (S (q + S n)) si ni
  = let '(l, e) := run_loop n si ni 0 in
    (Do_scrape_cycle :: Sleep (ni * 60) :: Do_scrape_cycle
       :: concat (repeat [Sleep (ni * 60); Do_notification_cycle] q)
       ++ Sleep (ni * 60) :: Do_scrape_cycle :: l, e).
Proof.
  intros H0 [H1 H2]. unfold monitor_run. cbn [run_loop].
  destruct (ni * 60 <? 0) eqn:E; [apply Z.ltb_lt in E; lia|].
  destruct (si <=? si + ni) eqn:L; [|apply Z.leb_gt in L; lia].
  rewrite run_loop_notifies by lia. cbn [run_loop]. rewrite E.
  destruct (si <=? 0 + Z.of_nat q * ni + ni) eqn:L2; [|apply Z.leb_gt in L2; lia].
  now destruct (run_loop n si ni 0).
Qed.

Lemma short_scrape_interval_leaves_no_notification_cycle_witness :
  monitor_run 3 5 5
  = (Do_scrape_cycle
       :: concat (repeat [Sleep (5 * 60); Do_scrape_cycle] 3), None).
Proof.
  apply (short_scrape_interval_leaves_no_notification_cycle 3 5 5); lia.
Defined.

Lemma scrape_cycles_come_at_the_scrape_interval_witness :
  monitor_run (S (11 + S 2)) 60 5
  = let '(l, e) := run_loop 2 60 5 0 in
    (Do_scrape_cycle :: Sleep (5 * 60) :: Do_scrape_cycle
       :: concat (repeat [Sleep (5 * 60); Do_notification_cycle] 11)
       ++ Sleep (5 * 60) :: Do_scrape_cycle :: l, e).
Proof.
  apply (scrape_cycles_come_at_the_scrape_interval 11 2 60 5); simpl; lia.
Defined.

End MonitorFacts.
